(** * COCO dataset splitting and the supervised training loop

    A shallow embedding of [src/dataset/dataset_coco.py] and
    [src/engine/trainer.py].

    - Python exceptions are values of [PyError]; a computation that may raise
      returns [Err A].
    - Python floats are IEEE-754 binary64 numbers, modelled by the executable
      specification [spec_float] of the Standard Library at precision 53.
    - Python dicts whose iteration order matters ([to_dict] results) are
      insertion-ordered association lists with distinct keys; dicts keyed by
      loss names are [gmap string float].
    - COCO records (images, annotations, categories) are mutable Python dicts:
      they live in a [Heap] and datasets hold references to them, so that the
      aliasing created by [CocoDataset.split] is visible. *)

From Stdlib Require Import ZArith List Bool Lia.
From Stdlib Require Import SpecFloat.
From stdpp Require Import base list strings gmap.

Open Scope Z_scope.

(* ===================================================================== *)
(** ** Exceptions *)

Inductive PyKey :=
  | IntKey (k : Z)
  | StrKey (k : string).

Inductive PyError :=
  | AssertionError (msg : string)
  | KeyError (key : PyKey)
  | IndexError
  | ValueError
  | OverflowError
  | ZeroDivisionError
  | AttributeError
  | DuplicateIdError (id : Z).

Definition Err (A : Type) : Type := (PyError + A)%type.

Definition ok {A} (a : A) : Err A := inr a.
Definition raise {A} (e : PyError) : Err A := inl e.

Definition bind {A B} (m : Err A) (k : A -> Err B) : Err B :=
  match m with
  | inl e => inl e
  | inr a => k a
  end.

Notation "'let*' x ':=' m 'in' k" := (bind m (fun x => k))
  (at level 10, x pattern, m at level 100, k at level 200).

(** [[f(x) for x in l]], stopping at the first exception. *)
Fixpoint mapM {A B} (f : A -> Err B) (l : list A) : Err (list B) :=
  match l with
  | [] => ok []
  | x :: l' =>
      let* y := f x in
      let* ys := mapM f l' in
      ok (y :: ys)
  end.

(* ===================================================================== *)
(** ** Python floats: IEEE-754 binary64 *)

Module Float.

Definition float := spec_float.

Definition prec : Z := 53.
Definition emax : Z := 1024.

Definition add : float -> float -> float := SFadd prec emax.
Definition mul : float -> float -> float := SFmul prec emax.
Definition div : float -> float -> float := SFdiv prec emax.
Definition eqb : float -> float -> bool := SFeqb.
Definition ltb : float -> float -> bool := SFltb.
Definition leb : float -> float -> bool := SFleb.

(** [float(n)] for a Python int: the nearest binary64 number. *)
Definition of_int (n : Z) : float := binary_normalize prec emax n 0 false.

Definition zero : float := S754_zero false.
Definition one : float := of_int 1.

(** A decimal literal [n/d] such as [0.3]: the binary64 number nearest to
    the quotient, which is what the correctly rounded division returns. *)
Definition lit (n d : Z) : float := div (of_int n) (of_int d).

(** [int(x)]: truncation toward zero; [ValueError] on NaN and
    [OverflowError] on an infinity. *)
Definition to_int (x : float) : Err Z :=
  match x with
  | S754_nan => raise ValueError
  | S754_infinity _ => raise OverflowError
  | S754_zero _ => ok 0
  | S754_finite s m e => ok (cond_Zopp s (Z.shiftl (Zpos m) e))
  end.

End Float.

Abbreviation float := Float.float.

(* ===================================================================== *)
(** ** Lists and insertion-ordered dicts *)

(** [l[idx]] with Python's negative indices. *)
Definition list_getitem {A} (l : list A) (idx : Z) : Err A :=
  let n := Z.of_nat (length l) in
  let i := if idx <? 0 then idx + n else idx in
  if (0 <=? i) && (i <? n) then
    match l !! Z.to_nat i with
    | Some x => ok x
    | None => raise IndexError
    end
  else raise IndexError.

(** [l[:stop]] and [l[start:]]: a negative bound counts from the end and
    every bound is clamped to the list. *)
Definition slice_to {A} (l : list A) (stop : Z) : list A :=
  if 0 <=? stop then take (Z.to_nat stop) l
  else take (length l - Z.to_nat (- stop))%nat l.

Definition slice_from {A} (l : list A) (start : Z) : list A :=
  if 0 <=? start then drop (Z.to_nat start) l
  else drop (length l - Z.to_nat (- start))%nat l.

Definition dict (V : Type) : Type := list (Z * V).

Definition keys {V} (d : dict V) : list Z := map fst d.

Fixpoint dict_lookup {V} (d : dict V) (k : Z) : option V :=
  match d with
  | [] => None
  | (k', v) :: d' => if k =? k' then Some v else dict_lookup d' k
  end.

(** [d[k]] *)
Definition dict_getitem {V} (d : dict V) (k : Z) : Err V :=
  match dict_lookup d k with
  | Some v => ok v
  | None => raise (KeyError (IntKey k))
  end.

(** [d.setdefault(k, []).append(x)] *)
Fixpoint dict_append {A} (k : Z) (x : A) (d : dict (list A)) : dict (list A) :=
  match d with
  | [] => [(k, [x])]
  | (k', g) :: d' =>
      if k =? k' then (k', g ++ [x]) :: d' else (k', g) :: dict_append k x d'
  end.

(** Modelled from the spec: [to_dict] of [src/dataset/annotations_utils.py],
    which is not part of the sources.  The spec calls it the grouping of a
    collection by one of its fields (the "to-dict-by-image-id grouping") and
    the callers index every value with [[0]] and take its [len]: each key is
    mapped to the list of the records that carry it (the record objects
    themselves: the index is a view of the store), in their original order,
    and a key that no record carries is absent ([preview_dataset] catches
    the [KeyError]).  [key] reads the grouping field of an item. *)
Definition to_dict {A} (key : A -> Z) (items : list A) : dict (list A) :=
  fold_left (fun d x => dict_append (key x) x d) items [].

(* ===================================================================== *)
(** ** COCO records and the heap that holds them *)

Inductive Segmentation :=
  | Polygons (points : list (list float))
  | RLE (size : list Z) (counts : list Z).

Record Image := {
  img_id : Z;
  img_file_name : string;
  img_width : Z;
  img_height : Z }.

Record Annotation := {
  ann_id : Z;
  ann_image_id : Z;
  ann_category_id : Z;
  ann_bbox : list float;
  ann_segmentation : Segmentation;
  ann_area : float;
  ann_iscrowd : Z;
  ann_score : option float }.

Record Category := {
  cat_id : Z;
  cat_name : string }.

#[global] Instance Image_inhabited : Inhabited Image :=
  populate {| img_id := 0; img_file_name := EmptyString; img_width := 0; img_height := 0 |}.

#[global] Instance Annotation_inhabited : Inhabited Annotation :=
  populate {| ann_id := 0; ann_image_id := 0; ann_category_id := 0; ann_bbox := [];
              ann_segmentation := Polygons []; ann_area := Float.zero; ann_iscrowd := 0;
              ann_score := None |}.

#[global] Instance Category_inhabited : Inhabited Category :=
  populate {| cat_id := 0; cat_name := EmptyString |}.

(** A reference to a record object: its address in the heap. *)
Definition loc := nat.

(** The record objects, by kind.  Allocation appends, so an address that
    was handed out keeps denoting the same object. *)
Record Heap := {
  image_objs : list Image;
  annotation_objs : list Annotation;
  category_objs : list Category }.

Definition empty_heap : Heap :=
  {| image_objs := []; annotation_objs := []; category_objs := [] |}.

Definition image_at (h : Heap) (l : loc) : Image := image_objs h !!! l.
Definition annotation_at (h : Heap) (l : loc) : Annotation := annotation_objs h !!! l.
Definition category_at (h : Heap) (l : loc) : Category := category_objs h !!! l.

(** [record[field] = value] on the image object at [l]. *)
Definition set_image (h : Heap) (l : loc) (v : Image) : Heap :=
  {| image_objs := <[l := v]> (image_objs h);
     annotation_objs := annotation_objs h;
     category_objs := category_objs h |}.

(** Allocation of a list of fresh objects: the new heap part and their
    addresses. *)
Definition alloc {A} (objs : list A) (new : list A) : list A * list loc :=
  (objs ++ new, seq (length objs) (length new)).

(* ===================================================================== *)
(** ** [CocoDataset] *)

(** The attributes of a dataset object that the code under study reads or
    writes.  [tree_images], [tree_annotations] and [tree_categories] are the
    lists [self.tree.data["images"]], [...["annotations"]] and
    [...["categories"]]; their items are references to record objects. *)
Record CocoDataset := {
  data_directory_path : string;
  tree_images : list loc;
  tree_annotations : list loc;
  tree_categories : list loc;
  images : dict (list loc);
  categories : dict (list loc);
  annotations : list loc }.

Definition image_key (h : Heap) (l : loc) : Z := img_id (image_at h l).
Definition annotation_image_key (h : Heap) (l : loc) : Z := ann_image_id (annotation_at h l).
Definition category_key (h : Heap) (l : loc) : Z := cat_id (category_at h l).

(** [CocoDatasetClassification.__post_init__]: the annotation file is loaded
    into fresh record objects (the lists [imgs], [anns], [cats] are its
    content after the balancing pass) and the indexes are built over them. *)
Definition CocoDatasetClassification_init (h : Heap) (dir : string)
    (imgs : list Image) (anns : list Annotation) (cats : list Category)
  : Heap * CocoDataset :=
  let '(iobjs, irefs) := alloc (image_objs h) imgs in
  let '(aobjs, arefs) := alloc (annotation_objs h) anns in
  let '(cobjs, crefs) := alloc (category_objs h) cats in
  let h' := {| image_objs := iobjs; annotation_objs := aobjs; category_objs := cobjs |} in
  (h', {| data_directory_path := dir;
          tree_images := irefs;
          tree_annotations := arefs;
          tree_categories := crefs;
          images := to_dict (image_key h') irefs;
          categories := to_dict (category_key h') crefs;
          annotations := arefs |}).

(** [len(self)] of the classification variant. *)
Definition len (self : CocoDataset) : Z := Z.of_nat (length (annotations self)).

Definition shift_group (n : nat) (entry : Z * list loc) : Z * list loc :=
  (fst entry, map (Nat.add n) (snd entry)).

(** [deepcopy(self)]: every record object gets a copy at a fresh address
    (the object at [l] is copied to [length + l]) and the copy of the
    dataset refers to the copies wherever the original referred to the
    originals, so sharing inside the dataset is preserved as the memo of
    [deepcopy] does.  Copies of objects that [self] does not reach are
    reached by nothing. *)
Definition deepcopy (h : Heap) (self : CocoDataset) : Heap * CocoDataset :=
  let ni := length (image_objs h) in
  let na := length (annotation_objs h) in
  let nc := length (category_objs h) in
  ({| image_objs := image_objs h ++ image_objs h;
      annotation_objs := annotation_objs h ++ annotation_objs h;
      category_objs := category_objs h ++ category_objs h |},
   {| data_directory_path := data_directory_path self;
      tree_images := map (Nat.add ni) (tree_images self);
      tree_annotations := map (Nat.add na) (tree_annotations self);
      tree_categories := map (Nat.add nc) (tree_categories self);
      images := map (shift_group ni) (images self);
      categories := map (shift_group nc) (categories self);
      annotations := map (Nat.add na) (annotations self) |}).

Arguments deepcopy : simpl never.

(** [np.array(l).flatten().tolist()] on a list of record objects: a
    one-dimensional object array, whose flattening is the same list. *)
Definition np_flatten_tolist {A} (l : list A) : list A := l.

(** [d[k][0]] *)
Definition first_of {A} (d : dict (list A)) (k : Z) : Err A :=
  let* g := dict_getitem d k in
  list_getitem g 0.

(** [[int(total_images * perc) for perc in percentages]] *)
Definition subset_sizes (total_images : Z) (percentages : list float) : Err (list Z) :=
  mapM (fun perc => Float.to_int (Float.mul (Float.of_int total_images) perc)) percentages.

(** The body of the loop [for ss in subset_sizes] of [split], on the
    remaining pool [all_images]. *)
Fixpoint split_loop (h : Heap) (self : CocoDataset) (all_images : list Z) (sizes : list Z)
  : Err (Heap * list CocoDataset) :=
  match sizes with
  | [] => ok (h, [])
  | ss :: sizes' =>
      let '(h1, subset) := deepcopy h self in
      let indexes := slice_to all_images ss in
      let* subset_tree_images := mapM (first_of (images self)) indexes in
      let subset_images := to_dict (image_key h1) subset_tree_images in
      let image_annotations := to_dict (annotation_image_key h1) (tree_annotations subset) in
      let* picked := mapM (first_of image_annotations) (keys subset_images) in
      let subset_tree_annotations := np_flatten_tolist picked in
      let subset' :=
        {| data_directory_path := data_directory_path subset;
           tree_images := subset_tree_images;
           tree_annotations := subset_tree_annotations;
           tree_categories := tree_categories subset;
           images := subset_images;
           categories := categories subset;
           annotations := subset_tree_annotations |} in
      let* (h2, subsets) := split_loop h1 self (slice_from all_images ss) sizes' in
      ok (h2, subset' :: subsets)
  end.

Section Split.

(** [np.sum] over the list of percentages: numpy's reduction, whose order
    of additions is numpy's own. *)
Variable np_sum : list float -> float.

(** [np.random.shuffle]: the order it leaves the list in. *)
Variable shuffle : list Z -> list Z.

(** [CocoDataset.split(self, *percentages, random)] *)
Definition split (h : Heap) (self : CocoDataset) (percentages : list float) (random : bool)
  : Err (Heap * list CocoDataset) :=
  if negb (Float.eqb (np_sum percentages) (Float.of_int 1)) then
    raise (AssertionError "Summation of percentages must be equal to 1.")
  else
    let all_images := keys (images self) in
    let total_images := Z.of_nat (length all_images) in
    let* sizes := subset_sizes total_images percentages in
    let all_images := if random then shuffle all_images else all_images in
    split_loop h self all_images sizes.

End Split.

(** The additions of [np.sum] in list order, which is numpy's order for
    fewer than eight items. *)
Definition np_sum_in_order (xs : list float) : float :=
  fold_left Float.add xs Float.zero.

(* ===================================================================== *)
(** ** [CocoDatasetClassification.__getitem__] *)

Section Classification.

(** A decoded image, an array of shape (H, W, C). *)
Variable ndarray : Type.

(** A torch tensor. *)
Variable Tensor : Type.

(** [read_image] of [src/dataset/dataset_utils.py]: it reads a file. *)
Variable read_image : string -> Err ndarray.

(** [os.path.join] *)
Variable path_join : string -> string -> string.

(** [torch.tensor(image.transpose(2, 0, 1), dtype=torch.float32)] *)
Variable to_chw_tensor : ndarray -> Tensor.

(** [self.preprocessing] and [self.augmentations]; [None] is the identity. *)
Variable preprocessing : option (ndarray -> Annotation -> Err (ndarray * Annotation)).
Variable augmentations : option (ndarray -> Annotation -> Err (ndarray * Annotation)).

Definition apply_transform {X} (t : option (ndarray -> X -> Err (ndarray * X)))
    (image : ndarray) (x : X) : Err (ndarray * X) :=
  match t with
  | None => ok (image, x)
  | Some f => f image x
  end.

(** [CocoDatasetClassification.__getitem__(self, idx)]: the image tensor and
    the value of the category tensor. *)
Definition getitem (h : Heap) (self : CocoDataset) (idx : Z) : Err (Tensor * Z) :=
  let* aref := list_getitem (annotations self) idx in
  let annotation := annotation_at h aref in
  let* image_data := dict_getitem (images self) (ann_image_id annotation) in
  let* image0 := list_getitem image_data 0 in
  let image_path := path_join (data_directory_path self) (img_file_name (image_at h image0)) in
  let* image := read_image image_path in
  let* (image, annotation) := apply_transform preprocessing image annotation in
  let* (image, annotation) := apply_transform augmentations image annotation in
  let* category := dict_getitem (categories self) (ann_category_id annotation) in
  let* category0 := list_getitem category 0 in
  ok (to_chw_tensor image, cat_id (category_at h category0) - 1).

(** A transform that returns and leaves the annotation in a category of
    the dataset. *)
Definition transform_ok (cats : list Z)
    (t : option (ndarray -> Annotation -> Err (ndarray * Annotation))) : Prop :=
  forall image a, ann_category_id a ∈ cats ->
    exists image' a', apply_transform t image a = inr (image', a') /\
      ann_category_id a' ∈ cats.

End Classification.

(* ===================================================================== *)
(** ** [CocoDatasetInstanceSegmentation] and [SupervisedTrainer] *)

(** The content of a [COCOAnnotations] store: [data["images"]],
    [data["annotations"]] and [data["categories"]]. *)
Record COCOData := {
  data_images : list Image;
  data_annotations : list Annotation;
  data_categories : list Category }.

(** Modelled from the spec: [COCOAnnotations.from_dict] of
    [src/dataset/annotations_coco.py], which is not part of the sources.
    It "constructs a store directly from an in-memory record" and is "used
    to clone a ground-truth store as the seed for a predictions store". *)
Definition from_dict (data : COCOData) : COCOData := data.

(** A store with its annotation list replaced. *)
Definition with_annotations (store : COCOData) (anns : list Annotation) : COCOData :=
  {| data_images := data_images store;
     data_annotations := anns;
     data_categories := data_categories store |}.

(** Modelled from the spec: [COCOAnnotations.add_annotation_instance] of
    [src/dataset/annotations_coco.py], which is not part of the sources.
    It "appends a new Annotation to the store's collection" and "fails with
    a DuplicateIdError if [id] already exists". *)
Definition add_annotation_instance (store : COCOData) (id image_id category_id : Z)
    (bbox : list float) (segmentation : Segmentation) (score : float) (area : Z)
    (iscrowd : Z) : Err COCOData :=
  if existsb (fun a => ann_id a =? id) (data_annotations store) then
    raise (DuplicateIdError id)
  else
    ok {| data_images := data_images store;
          data_annotations :=
            data_annotations store ++
            [ {| ann_id := id; ann_image_id := image_id; ann_category_id := category_id;
                 ann_bbox := bbox; ann_segmentation := segmentation;
                 ann_area := Float.of_int area; ann_iscrowd := iscrowd;
                 ann_score := Some score |} ];
          data_categories := data_categories store |}.

(** The names of the loss terms that [train] and [evaluate] start from. *)
Definition loss_names : list string :=
  ["loss_classifier"; "loss_box_reg"; "loss_mask"; "loss_objectness"; "loss_rpn_box_reg"]%string.

(** The dict [{"loss_classifier": 0, ..., "loss_rpn_box_reg": 0}]. *)
Definition initial_losses : gmap string float :=
  list_to_map (map (fun name => (name, Float.zero)) loss_names).

(** [{key: loss_train[key] + value.item() for key, value in losses.items()}]:
    a key of [losses] that [loss_train] lacks raises a [KeyError] (of several
    such keys the model reports the first in the order of the finite map,
    which is not the insertion order of Python). *)
Definition accumulate (loss_train losses : gmap string float) : Err (gmap string float) :=
  match filter (fun key => loss_train !! key = None) (map fst (map_to_list losses)) with
  | key :: _ => raise (KeyError (StrKey key))
  | [] =>
      ok (map_imap (fun key value =>
                      match loss_train !! key with
                      | Some total => Some (Float.add total value)
                      | None => None
                      end) losses)
  end.

(** [loss = sum(loss for loss in losses.values())] and [loss.backward()]:
    the sum of no term is the int [0], which has no method [backward]. *)
Definition backward (losses : gmap string float) : Err unit :=
  match map_to_list losses with
  | [] => raise AttributeError
  | _ :: _ => ok tt
  end.

(** [{key: loss_train[key] / total_images for key in loss_train.keys()}] *)
Definition mean_losses (loss_train : gmap string float) (total_images : Z)
  : Err (gmap string float) :=
  match map_to_list loss_train with
  | [] => ok ∅
  | _ :: _ =>
      if total_images =? 0 then raise ZeroDivisionError
      else ok ((fun total => Float.div total (Float.of_int total_images)) <$> loss_train)
  end.

(** [self.main_metric] *)
Definition main_metric : string := "loss_mask".

(** [zip(boxes, labels, masks, scores)] *)
Fixpoint zip4 {A B C D} (la : list A) (lb : list B) (lc : list C) (ld : list D)
  : list (A * B * C * D) :=
  match la, lb, lc, ld with
  | a :: la', b :: lb', c :: lc', d :: ld' => (a, b, c, d) :: zip4 la' lb' lc' ld'
  | _, _, _, _ => []
  end.

Section Trainer.

(** The state of the network and of its optimizer. *)
Variable Model : Type.

(** A decoded image, an image tensor, the target of a sample in a batch, a
    predicted mask and a rasterised instance mask. *)
Variable ndarray : Type.
Variable Tensor : Type.
Variable Target : Type.
Variable MaskTensor : Type.
Variable InstanceMask : Type.

(** [self.model(x_pred, y_true)] in training mode: the named loss terms,
    each read with [.item()]. *)
Variable forward_losses : Model -> list Tensor -> list Target -> gmap string float.

(** [optimizer.zero_grad()], [loss.backward()] on the sum of the terms,
    when there is a term, and [optimizer.step()]. *)
Variable optimizer_step : Model -> list Tensor -> list Target -> Model.

(** What the model predicts for one image in inference mode:
    [pred["boxes"]], [pred["labels"]], [pred["masks"]], [pred["scores"]]. *)
Record Prediction := {
  pred_boxes : list (list float);
  pred_labels : list Z;
  pred_masks : list MaskTensor;
  pred_scores : list float }.

(** [self.model([image], None)[0]] in inference mode. *)
Variable predict : Model -> Tensor -> Prediction.

(** [np.transpose(mask.cpu().numpy().astype(np.uint8), (1, 2, 0))]: the
    pixels of the mask. *)
Variable mask_pixels : MaskTensor -> list N.

(** [extract_bbox_segmentation] of [src/dataset/dataset_utils.py]. *)
Variable extract_bbox_segmentation : list N -> list float * Segmentation.

(** [read_image], [os.path.join], the transforms of the dataset,
    [generate_instance_mask] and the conversion to a channel-first tensor. *)
Variable read_image : string -> Err ndarray.
Variable path_join : string -> string -> string.
Variable seg_preprocessing : option (ndarray -> list Annotation -> Err (ndarray * list Annotation)).
Variable seg_augmentations : option (ndarray -> list Annotation -> Err (ndarray * list Annotation)).
Variable generate_instance_mask : ndarray -> Annotation -> Err InstanceMask.
Variable to_chw_tensor : ndarray -> Tensor.

(** A [CocoDatasetInstanceSegmentation]: [self.tree.data], whose image list
    is also [self.images], and the index [self.annotations].  (The record
    objects are values here: [__getitem__] also writes the mask and the box
    into the annotation objects, which nothing below reads back.) *)
Record SegmentationDataset := {
  seg_directory_path : string;
  seg_tree : COCOData;
  seg_annotations : dict (list Annotation) }.

(** [CocoDatasetInstanceSegmentation.__post_init__] *)
Definition SegmentationDataset_init (dir : string) (data : COCOData) : SegmentationDataset :=
  {| seg_directory_path := dir;
     seg_tree := data;
     seg_annotations := to_dict ann_image_id (data_annotations data) |}.

(** [CocoDatasetInstanceSegmentation.__getitem__(self, idx)] *)
Definition seg_getitem (self : SegmentationDataset) (idx : Z)
  : Err (Tensor * list (Annotation * InstanceMask)) :=
  let* image_data := list_getitem (data_images (seg_tree self)) idx in
  let* annotations := dict_getitem (seg_annotations self) (img_id image_data) in
  let image_path := path_join (seg_directory_path self) (img_file_name image_data) in
  let* image := read_image image_path in
  let* (image, annotations) := apply_transform ndarray seg_preprocessing image annotations in
  let* (image, annotations) := apply_transform ndarray seg_augmentations image annotations in
  let* enriched :=
    mapM (fun annotation =>
            let* mask := generate_instance_mask image annotation in
            ok (annotation, mask)) annotations in
  ok (to_chw_tensor image, enriched).

(** A [DataLoader]: the batches that one iteration over it yields,
    [dataset.sampler.num_samples] and [dataset.dataset]. *)
Record DataLoader := {
  batches : list (list Tensor * list Target);
  num_samples : Z;
  dataset : SegmentationDataset }.

(** The calls that [fit] makes, with the epoch they are made in. *)
Inductive Event :=
  | Trained (epoch : Z) (losses : gmap string float)
  | Evaluated (epoch : Z) (losses : gmap string float)
  | CocoEvaluated (epoch : Z) (ground_truth predictions : COCOData)
  | Recorded (tag : string) (losses : gmap string float) (epoch : Z)
  | Saved (epoch : Z)
  | RecorderClosed.

(** The attributes of a [SupervisedTrainer] and the trace of its calls. *)
Record Trainer := {
  model : Model;
  recorder : bool;
  best_loss : float;
  trace : list Event }.

(** [SupervisedTrainer.__init__] *)
Definition Trainer_init (m : Model) (with_recorder : bool) : Trainer :=
  {| model := m; recorder := with_recorder; best_loss := Float.of_int (10 ^ 20); trace := [] |}.

(** A method of the trainer: it may raise and it may change the trainer. *)
Definition Method (A : Type) : Type := Trainer -> Err A * Trainer.

Definition ret {A} (a : A) : Method A := fun self => (ok a, self).

Definition lift {A} (r : Err A) : Method A := fun self => (r, self).

Definition mbind {A B} (m : Method A) (k : A -> Method B) : Method B :=
  fun self =>
    match m self with
    | (inl e, self') => (inl e, self')
    | (inr a, self') => k a self'
    end.

Notation "'let!' x ':=' m 'in' k" := (mbind m (fun x => k))
  (at level 10, x pattern, m at level 100, k at level 200).

Definition get_model : Method Model := fun self => (ok (model self), self).

Definition set_model (m : Model) : Method unit :=
  fun self =>
    (ok tt, {| model := m; recorder := recorder self; best_loss := best_loss self;
               trace := trace self |}).

Definition get_best_loss : Method float := fun self => (ok (best_loss self), self).

Definition set_best_loss (x : float) : Method unit :=
  fun self =>
    (ok tt, {| model := model self; recorder := recorder self; best_loss := x;
               trace := trace self |}).

Definition emit (ev : Event) : Method unit :=
  fun self =>
    (ok tt, {| model := model self; recorder := recorder self; best_loss := best_loss self;
               trace := trace self ++ [ev] |}).

(** The loop [for batch in dataset] of [train]. *)
Fixpoint train_batches (bs : list (list Tensor * list Target))
    (loss_train : gmap string float) : Method (gmap string float) :=
  match bs with
  | [] => ret loss_train
  | (x_pred, y_true) :: bs' =>
      let! m := get_model in
      let losses := forward_losses m x_pred y_true in
      let! _ := lift (backward losses) in
      let! _ := set_model (optimizer_step m x_pred y_true) in
      let! loss_train' := lift (accumulate loss_train losses) in
      train_batches bs' loss_train'
  end.

(** [SupervisedTrainer.train(self, dataset, optimizer)] *)
Definition train (data : DataLoader) : Method (gmap string float) :=
  let! loss_train := train_batches (batches data) initial_losses in
  lift (mean_losses loss_train (num_samples data)).

(** The loop [for batch in dataset] of [evaluate]. *)
Fixpoint evaluate_batches (bs : list (list Tensor * list Target))
    (loss_valid : gmap string float) : Method (gmap string float) :=
  match bs with
  | [] => ret loss_valid
  | (x_pred, y_true) :: bs' =>
      let! m := get_model in
      let losses := forward_losses m x_pred y_true in
      let! loss_valid' := lift (accumulate loss_valid losses) in
      evaluate_batches bs' loss_valid'
  end.

(** [SupervisedTrainer.evaluate(self, dataset)] *)
Definition evaluate (data : DataLoader) : Method (gmap string float) :=
  let! loss_valid := evaluate_batches (batches data) initial_losses in
  lift (mean_losses loss_valid (num_samples data)).

(** [mask.sum()] *)
Definition mask_sum (pixels : list N) : N := fold_right N.add 0%N pixels.

(** [len(mask[mask > 0])] *)
Definition mask_area (pixels : list N) : Z :=
  Z.of_nat (length (filter (fun p => (0 <? p)%N = true) pixels)).

(** The loop over the predicted instances of one image in [coco_eval]; the
    state is the predictions store and [annotation_id]. *)
Fixpoint record_instances (image_id : Z)
    (instances : list (list float * Z * MaskTensor * float))
    (pred_annotations : COCOData) (annotation_id : Z) : Err (COCOData * Z) :=
  match instances with
  | [] => ok (pred_annotations, annotation_id)
  | (box, label, mask, score) :: instances' =>
      let mask := mask_pixels mask in
      if (mask_sum mask =? 0)%N then
        record_instances image_id instances' pred_annotations annotation_id
      else
        let '(_, segmentation) := extract_bbox_segmentation mask in
        let* pred_annotations' :=
          add_annotation_instance pred_annotations annotation_id image_id label box
            segmentation score (mask_area mask) 0 in
        record_instances image_id instances' pred_annotations' (annotation_id + 1)
  end.

(** The loop [for sample in pred_annotations.data["images"]] of [coco_eval]. *)
Fixpoint record_images (m : Model) (data : DataLoader) (samples : list Image)
    (pred_annotations : COCOData) (annotation_id : Z) : Err (COCOData * Z) :=
  match samples with
  | [] => ok (pred_annotations, annotation_id)
  | sample :: samples' =>
      let image_id := img_id sample in
      let* (image, _) := seg_getitem (dataset data) (image_id - 1) in
      let pred := predict m image in
      let* (pred_annotations', annotation_id') :=
        record_instances image_id
          (zip4 (pred_boxes pred) (pred_labels pred) (pred_masks pred) (pred_scores pred))
          pred_annotations annotation_id in
      record_images m data samples' pred_annotations' annotation_id'
  end.

(** [SupervisedTrainer.coco_eval(self, dataset)], up to the call of the
    external evaluator: the ground-truth store and the predictions store
    that it hands to [COCOeval]. *)
Definition coco_eval (m : Model) (data : DataLoader) : Err (COCOData * COCOData) :=
  let gt_annotations := from_dict (seg_tree (dataset data)) in
  let pred_annotations := from_dict (seg_tree (dataset data)) in
  let pred_annotations :=
    {| data_images := data_images pred_annotations;
       data_annotations := [];
       data_categories := data_categories pred_annotations |} in
  let annotation_id := 1 in
  let* (pred_annotations, _) :=
    record_images m data (data_images pred_annotations) pred_annotations annotation_id in
  ok (gt_annotations, pred_annotations).

(** [loss_validation[self.main_metric]] *)
Definition losses_getitem (losses : gmap string float) (key : string) : Err float :=
  match losses !! key with
  | Some v => ok v
  | None => raise (KeyError (StrKey key))
  end.

(** The body of the loop [for epoch in range(epochs)] of [fit]. *)
Definition fit_epoch (training_data validation_data : DataLoader)
    (coco_eval_frequency : option Z) (epoch : Z) : Method unit :=
  let! loss_training := train training_data in
  let! _ := emit (Trained epoch loss_training) in
  let! loss_validation := evaluate validation_data in
  let! _ := emit (Evaluated epoch loss_validation) in
  let! _ :=
    match coco_eval_frequency with
    | None => ret tt
    | Some frequency =>
        if frequency =? 0 then lift (raise ZeroDivisionError)
        else if epoch mod frequency =? 0 then
          let! m := get_model in
          let! stores := lift (coco_eval m validation_data) in
          emit (CocoEvaluated epoch (fst stores) (snd stores))
        else ret tt
    end in
  let! _ :=
    (fun self =>
       if recorder self then
         (let! _ := emit (Recorded "training loss" loss_training epoch) in
          emit (Recorded "validation loss" loss_validation epoch)) self
       else ret tt self) in
  let! main := lift (losses_getitem loss_validation main_metric) in
  let! best := get_best_loss in
  if Float.ltb main best then
    let! _ := set_best_loss main in
    emit (Saved epoch)
  else ret tt.

Fixpoint fit_epochs (training_data validation_data : DataLoader)
    (coco_eval_frequency : option Z) (epochs : list Z) : Method unit :=
  match epochs with
  | [] => ret tt
  | epoch :: epochs' =>
      let! _ := fit_epoch training_data validation_data coco_eval_frequency epoch in
      fit_epochs training_data validation_data coco_eval_frequency epochs'
  end.

(** [range(n)] *)
Definition range (n : Z) : list Z := map Z.of_nat (seq 0 (Z.to_nat n)).

(** [SupervisedTrainer.fit(self, training_data, validation_data, optimizer,
    epochs, coco_eval_frequency=...)] *)
Definition fit (training_data validation_data : DataLoader) (epochs : Z)
    (coco_eval_frequency : option Z) : Method unit :=
  let! _ := fit_epochs training_data validation_data coco_eval_frequency (range epochs) in
  fun self => if recorder self then emit RecorderClosed self else ret tt self.

(** *** Vocabulary for the properties of the trainer *)

(** The model after the optimizer steps of the batches. *)
Fixpoint model_after (m : Model) (bs : list (list Tensor * list Target)) : Model :=
  match bs with
  | [] => m
  | (x_pred, y_true) :: bs' => model_after (optimizer_step m x_pred y_true) bs'
  end.

Definition with_model (self : Trainer) (m : Model) : Trainer :=
  {| model := m; recorder := recorder self; best_loss := best_loss self;
     trace := trace self |}.

(** What a method leaves alone: the recorder, the best loss and the trace. *)
Definition same_record (self self' : Trainer) : Prop :=
  recorder self' = recorder self /\
  best_loss self' = best_loss self /\
  trace self' = trace self.

(** A predicted instance: its box, label, mask and score. *)
Definition Instance : Type := (list float * Z * MaskTensor * float)%type.

Definition instance_mask (inst : Instance) : MaskTensor := snd (fst inst).

(** A mask that is entirely background. *)
Definition all_background (pixels : list N) : bool := forallb (N.eqb 0) pixels.

(** The annotation that [coco_eval] records for an instance. *)
Definition instance_annotation (id image_id : Z) (inst : Instance) : Annotation :=
  let '(box, label, mask, score) := inst in
  {| ann_id := id; ann_image_id := image_id; ann_category_id := label;
     ann_bbox := box;
     ann_segmentation := snd (extract_bbox_segmentation (mask_pixels mask));
     ann_area := Float.of_int (mask_area (mask_pixels mask));
     ann_iscrowd := 0;
     ann_score := Some score |}.

(** The annotations of a list of instances, numbered from [first_id]. *)
Fixpoint numbered (first_id : Z) (kept : list (Z * Instance)) : list Annotation :=
  match kept with
  | [] => []
  | (image_id, inst) :: kept' =>
      instance_annotation first_id image_id inst :: numbered (first_id + 1) kept'
  end.

(** The instances of an image whose mask is not entirely background. *)
Definition kept_instances (image_id : Z) (instances : list Instance) : list (Z * Instance) :=
  map (pair image_id)
      (filter (fun inst => all_background (mask_pixels (instance_mask inst)) = false) instances).

Definition all_kept (preds : list (Z * list Instance)) : list (Z * Instance) :=
  concat (map (fun p => kept_instances (fst p) (snd p)) preds).

(** The instances that the model predicts for each image of the store, in
    store order; the image of id [i] is read at index [i - 1]. *)
Definition image_predictions (m : Model) (data : DataLoader) (samples : list Image)
  : Err (list (Z * list Instance)) :=
  mapM (fun sample =>
          let* (image, _) := seg_getitem (dataset data) (img_id sample - 1) in
          let pred := predict m image in
          ok (img_id sample,
              zip4 (pred_boxes pred) (pred_labels pred) (pred_masks pred) (pred_scores pred)))
       samples.

(** The epochs at which the trace has a save of the model, a COCO
    evaluation, and the tracked loss term of the validation losses. *)
Definition saved_epochs (tr : list Event) : list Z :=
  omap (fun ev => match ev with Saved epoch => Some epoch | _ => None end) tr.

Definition coco_epochs (tr : list Event) : list Z :=
  omap (fun ev => match ev with CocoEvaluated epoch _ _ => Some epoch | _ => None end) tr.

Definition tracked_losses (tr : list Event) : list float :=
  omap (fun ev => match ev with
                  | Evaluated _ losses => losses !! main_metric
                  | _ => None
                  end) tr.

End Trainer.

(* ===================================================================== *)
(** * Vocabulary of the properties *)

(** The item [x] carries the key [k]. *)
Definition has_key {A} (key : A -> Z) (k : Z) (x : A) : Prop := key x = k.

#[global] Instance has_key_dec {A} (key : A -> Z) (k : Z) (x : A) :
  Decision (has_key key k x).
Proof. unfold has_key. apply _. Defined.

(** The items of a collection that carry the key [k], in order. *)
Definition group {A} (key : A -> Z) (k : Z) (items : list A) : list A :=
  filter (has_key key k) items.

(** The first key of [ks] that is not [present], if any. *)
Fixpoint first_absent (present : Z -> bool) (ks : list Z) : option Z :=
  match ks with
  | [] => None
  | k :: ks' => if present k then first_absent present ks' else Some k
  end.

(** Whether some item of [items] carries the key [k]. *)
Definition in_group {A} (key : A -> Z) (items : list A) (k : Z) : bool :=
  match group key k items with
  | [] => false
  | _ => true
  end.

(** The heap [h'] extends [h]: it holds the objects of [h] at their
    addresses. *)
Definition heap_le (h h' : Heap) : Prop :=
  image_objs h `prefix_of` image_objs h' /\
  annotation_objs h `prefix_of` annotation_objs h' /\
  category_objs h `prefix_of` category_objs h'.

(** What [__post_init__] establishes and [split] relies on: the index
    [self.images] groups the image list of the store by id, and the lists of
    the store hold references to allocated objects. *)
Record dataset_ok (h : Heap) (self : CocoDataset) : Prop := {
  ok_images : images self = to_dict (image_key h) (tree_images self);
  ok_image_refs : Forall (fun l => (l < length (image_objs h))%nat) (tree_images self);
  ok_annotation_refs :
    Forall (fun l => (l < length (annotation_objs h))%nat) (tree_annotations self) }.

(** The annotation records of the store of a dataset, in store order. *)
Definition store_annotations (h : Heap) (self : CocoDataset) : list Annotation :=
  map (annotation_at h) (tree_annotations self).

(** The image records of the store of a dataset, in store order. *)
Definition store_images (h : Heap) (self : CocoDataset) : list Image :=
  map (image_at h) (tree_images self).

(** The ids of the images of the store of a dataset. *)
Definition image_ids (h : Heap) (self : CocoDataset) : list Z :=
  map (image_key h) (tree_images self).

(** The id lists that the loop of [split] takes off the pool, one per
    requested size. *)
Fixpoint slices (pool : list Z) (sizes : list Z) : list (list Z) :=
  match sizes with
  | [] => []
  | ss :: sizes' => slice_to pool ss :: slices (slice_from pool ss) sizes'
  end.

(** What is left of the pool after the loop. *)
Fixpoint remainder (pool : list Z) (sizes : list Z) : list Z :=
  match sizes with
  | [] => pool
  | ss :: sizes' => remainder (slice_from pool ss) sizes'
  end.

(** The annotation that [split] keeps for the image [k]. *)
Definition first_annotation (src : list Annotation) (k : Z) : option Annotation :=
  head (group ann_image_id k src).

(** A subset of [split] for the id list [idx], seen in the heap [h']. *)
Record subset_spec (src : list Annotation) (src_images : list loc)
    (h' : Heap) (idx : list Z) (s : CocoDataset) : Prop := {
  spec_image_ids : image_ids h' s = idx;
  spec_keys : keys (images s) = idx;
  spec_annotations :
    Forall2 (fun k a => first_annotation src k = Some a) idx (store_annotations h' s);
  spec_image_refs : Forall (fun l => (l < length (image_objs h'))%nat) (tree_images s);
  spec_annotation_refs :
    Forall (fun l => (l < length (annotation_objs h'))%nat) (tree_annotations s);
  spec_alias : annotations s = tree_annotations s;
  spec_shared : tree_images s ⊆ src_images }.

(** The sum of a list of integers. *)
Definition Zsum (l : list Z) : Z := fold_right Z.add 0 l.

(** The sign of a finite number; zeros, infinities and NaN pass. *)
Definition finite_sign (s : bool) (x : float) : Prop :=
  match x with
  | S754_finite s' _ _ => s' = s
  | _ => True
  end.

(** The record after [k] one-bit shifts of the mantissa [m]: the kept
    part, the bit shifted out last and whether a lower bit was set. *)
Definition shifted (m : Z) (k : nat) (r : shr_record) : Prop :=
  0 <= shr_m r /\
  (k = 0%nat -> shr_r r = false) /\
  exists t : Z,
    0 <= t /\ 2 * t < 2 ^ Z.of_nat k /\ (shr_s r = true <-> 0 < t) /\
    m = shr_m r * 2 ^ Z.of_nat k + (if shr_r r then 2 ^ Z.of_nat k / 2 else 0) + t.

(** The float with the sign [s], the mantissa [m] and the exponent [e], if
    any: what [binary_round_aux] builds in the end. *)
Definition float_pack (s : bool) (m e : Z) : float :=
  match m with
  | Z0 => S754_zero s
  | Zpos p => if e <=? Float.emax - Float.prec then S754_finite s p e else S754_infinity s
  | Zneg _ => S754_nan
  end.

(** The value of a finite float in units of [2 ^ -1074], the least positive
    number of binary64; no unit for an infinity or a NaN. *)
Definition units (x : float) : Z :=
  match x with
  | S754_finite _ m e => Z.pos m * 2 ^ (e + 1074)
  | _ => 0
  end.

(** A number of binary64. *)
Definition binary64 (x : float) : Prop := valid_binary Float.prec Float.emax x = true.

(** A zero, a positive number whose exponent binary64 has, or the
    positive infinity. *)
Definition float_nonneg (x : float) : Prop :=
  match x with
  | S754_zero _ => True
  | S754_infinity s => s = false
  | S754_nan => False
  | S754_finite s _ e => s = false /\ -1074 <= e
  end.

(** [np.sum] adds the items up in binary64: [s] is the result of additions
    that take every item of the list once, in some order and grouping,
    possibly with additions of [0.0]. *)
Inductive float_sum : list float -> float -> Prop :=
  | float_sum_nil : float_sum [] Float.zero
  | float_sum_item (x : float) : float_sum [x] x
  | float_sum_add (l1 l2 : list float) (a b : float) :
      float_sum l1 a -> float_sum l2 b -> float_sum (l1 ++ l2) (Float.add a b)
  | float_sum_perm (l l' : list float) (a : float) :
      l ≡ₚ l' -> float_sum l a -> float_sum l' a.

(** A zero of either sign. *)
Definition float_is_zero (x : float) : Prop :=
  match x with
  | S754_zero _ => True
  | _ => False
  end.

(** [len(all_images)] in [split]. *)
Definition total_images (self : CocoDataset) : Z := Z.of_nat (length (keys (images self))).

(** The pool of image ids that the loop of [split] consumes. *)
Definition pool (shuffle : list Z -> list Z) (self : CocoDataset) (random : bool) : list Z :=
  if random then shuffle (keys (images self)) else keys (images self).

(** The set of image ids held by the subsets of a split. *)
Definition union_of_ids (h : Heap) (subsets : list CocoDataset) : gset Z :=
  list_to_set (concat (map (image_ids h) subsets)).

(** An exception of a lookup [d[k][0]] is a [KeyError] or an [IndexError]. *)
Definition lookup_error (e : PyError) : Prop :=
  match e with
  | KeyError _ | IndexError => True
  | _ => False
  end.

(** The image ids selected into the subsets of a split, in the order in
    which the loop meets them. *)
Definition selected (shuffle : list Z -> list Z) (self : CocoDataset) (random : bool)
    (sizes : list Z) : list Z :=
  concat (slices (pool shuffle self random) sizes).

(** The indexes of a classification dataset are built by [to_dict] and its
    annotations refer to images and categories of the dataset. *)
Record classification_ok (h : Heap) (self : CocoDataset) : Prop := {
  cls_images : images self = to_dict (image_key h) (tree_images self);
  cls_categories : categories self = to_dict (category_key h) (tree_categories self);
  cls_image_ids :
    Forall (fun l => ann_image_id (annotation_at h l) ∈ keys (images self)) (annotations self);
  cls_category_ids :
    Forall (fun l => ann_category_id (annotation_at h l) ∈ keys (categories self))
           (annotations self) }.

(** The best value after a sequence of tracked losses. *)
Definition running_best (best : float) (losses : list float) : float :=
  fold_left (fun best x => if Float.ltb x best then x else best) losses best.

(** The epochs, counted from [epoch], whose loss is strictly less than the
    best value seen before them. *)
Fixpoint improvements (best : float) (epoch : Z) (losses : list float) : list Z :=
  match losses with
  | [] => []
  | x :: losses' =>
      if Float.ltb x best then epoch :: improvements x (epoch + 1) losses'
      else improvements best (epoch + 1) losses'
  end.

(** The loss dicts that the model returns along the batches of a train
    phase that starts from the model [m]. *)
Fixpoint batch_losses {Model Tensor Target : Type}
    (forward_losses : Model -> list Tensor -> list Target -> gmap string float)
    (optimizer_step : Model -> list Tensor -> list Target -> Model)
    (m : Model) (bs : list (list Tensor * list Target)) : list (gmap string float) :=
  match bs with
  | [] => []
  | (x_pred, y_true) :: bs' =>
      forward_losses m x_pred y_true ::
      batch_losses forward_losses optimizer_step (optimizer_step m x_pred y_true) bs'
  end.

(** The terms named [key] added one batch after the other onto [total]. *)
Definition term_sum (key : string) (total : float) (ls : list (gmap string float)) : float :=
  fold_left (fun total losses => Float.add total (default Float.zero (losses !! key))) ls total.

(** A loss dict with exactly the five named terms. *)
Definition has_loss_names (losses : gmap string float) : Prop :=
  forall key, is_Some (losses !! key) <-> key ∈ loss_names.

(** Whether the COCO evaluation is due at an epoch. *)
Definition scheduled (coco_eval_frequency : option Z) (epoch : Z) : bool :=
  match coco_eval_frequency with
  | None => false
  | Some frequency => epoch mod frequency =? 0
  end.

(* ===================================================================== *)
(** * Scenarios *)

Definition example_image (i : Z) : Image :=
  {| img_id := i; img_file_name := "image.jpg"; img_width := 640; img_height := 480 |}.

Definition example_annotation (i im c : Z) : Annotation :=
  {| ann_id := i; ann_image_id := im; ann_category_id := c; ann_bbox := [];
     ann_segmentation := Polygons []; ann_area := Float.zero; ann_iscrowd := 0;
     ann_score := None |}.

Definition example_categories : list Category :=
  [ {| cat_id := 1; cat_name := "cat" |}; {| cat_id := 2; cat_name := "dog" |} ].

(** A store with 10 images and 2 categories; image 1 shows two objects. *)
Definition ten_images : Heap * CocoDataset :=
  CocoDatasetClassification_init empty_heap "data"
    (map example_image [1; 2; 3; 4; 5; 6; 7; 8; 9; 10])
    (example_annotation 1 1 1 :: example_annotation 2 1 2 ::
     map (fun i => example_annotation (10 + i) i 1) [2; 3; 4; 5; 6; 7; 8; 9; 10])
    example_categories.

(** The percentages [(0.5, 0.3, 0.2)]. *)
Definition half_third_fifth : list float :=
  [Float.lit 5 10; Float.lit 3 10; Float.lit 2 10].

Definition no_shuffle (l : list Z) : list Z := l.

Definition ten_images_split : Err (Heap * list CocoDataset) :=
  split np_sum_in_order no_shuffle (fst ten_images) (snd ten_images) half_third_fifth false.

Definition ten_images_split_heap : Heap :=
  Eval vm_compute in
    match ten_images_split with
    | inr (h', _) => h'
    | inl _ => empty_heap
    end.

Definition ten_images_subsets : list CocoDataset :=
  Eval vm_compute in
    match ten_images_split with
    | inr (_, subsets) => subsets
    | inl _ => []
    end.

(** A store with two images of which the second has no annotation. *)
Definition two_images : Heap * CocoDataset :=
  CocoDatasetClassification_init empty_heap "data"
    [example_image 1; example_image 2]
    [example_annotation 1 1 1]
    example_categories.

(** A store with one image and one annotation. *)
Definition one_image : Heap * CocoDataset :=
  CocoDatasetClassification_init empty_heap "data"
    [example_image 1] [example_annotation 1 1 1] example_categories.

(** [record["file_name"] = name] on the image object at [l]. *)
Definition rename_image (h : Heap) (l : loc) (name : string) : Heap :=
  set_image h l
    {| img_id := img_id (image_at h l); img_file_name := name;
       img_width := img_width (image_at h l); img_height := img_height (image_at h l) |}.

Definition path_join_slash (a b : string) : string := a +:+ "/" +:+ b.

Definition read_path (p : string) : Err string := ok p.

(** The model of the scenario: whatever the batch, it returns [loss_mask =
    4.0], [loss_classifier = 2.0] and 0 for the other terms. *)
Definition scenario_losses (m : unit) (x_pred : list unit) (y_true : list unit)
  : gmap string float :=
  <["loss_mask"%string := Float.of_int 4]>
    (<["loss_classifier"%string := Float.of_int 2]> initial_losses).

Definition scenario_step (m : unit) (x_pred : list unit) (y_true : list unit) : unit := tt.

Definition empty_data : COCOData :=
  {| data_images := []; data_annotations := []; data_categories := [] |}.

(** A single batch of 2 samples; [total_images = 2]. *)
Definition scenario_loader : DataLoader unit unit :=
  {| batches := [([tt; tt], [tt; tt])];
     num_samples := 2;
     dataset := SegmentationDataset_init "data" empty_data |}.

(** The state of the toy model is the number of optimizer steps taken; its
    [loss_mask] after [k] steps is the [k]-th entry of the table. *)
Definition toy_table (steps : nat) : float :=
  Float.of_int (nth steps [0; 5; 3; 4; 2; 6] 0).

Definition toy_losses (m : nat) (x_pred : list unit) (y_true : list unit)
  : gmap string float :=
  <["loss_mask"%string := toy_table m]> initial_losses.

Definition toy_step (m : nat) (x_pred : list unit) (y_true : list unit) : nat := S m.

(** The toy model predicts three instances for every image; the mask of the
    first one is entirely background. *)
Definition toy_predict (m : nat) (image : unit) : Prediction (list N) :=
  {| pred_boxes := [[Float.zero]; [Float.one]; [Float.one]];
     pred_labels := [1; 2; 1];
     pred_masks := [[0; 0; 0; 0]; [0; 1; 1; 0]; [1; 0; 0; 0]]%N;
     pred_scores := [Float.lit 9 10; Float.lit 8 10; Float.lit 7 10] |}.

Definition toy_pixels (mask : list N) : list N := mask.

Definition toy_extract (pixels : list N) : list float * Segmentation := ([], Polygons []).

Definition toy_read (path : string) : Err unit := ok tt.

Definition toy_mask (image : unit) (a : Annotation) : Err unit := ok tt.

Definition toy_tensor (image : unit) : unit := tt.

Definition toy_data : COCOData :=
  {| data_images := [example_image 1; example_image 2];
     data_annotations := [example_annotation 1 1 1; example_annotation 2 2 1];
     data_categories := example_categories |}.

(** One batch of one sample per epoch. *)
Definition toy_loader : DataLoader unit unit :=
  {| batches := [([tt], [tt])];
     num_samples := 1;
     dataset := SegmentationDataset_init "data" toy_data |}.

Definition toy_fit (epochs : Z) (coco_eval_frequency : option Z)
  : Err unit * Trainer nat :=
  fit nat unit unit unit (list N) unit toy_losses toy_step toy_predict toy_pixels
    toy_extract toy_read path_join_slash None None toy_mask toy_tensor
    toy_loader toy_loader epochs coco_eval_frequency (Trainer_init nat 0%nat false).

Definition toy_coco_eval : Err (COCOData * COCOData) :=
  coco_eval nat unit unit unit (list N) unit toy_predict toy_pixels toy_extract toy_read
    path_join_slash None None toy_mask toy_tensor 0%nat toy_loader.

(* ===================================================================== *)

(** * The other methods of the datasets *)

(** ** [CocoDataset.preview_dataset] *)

(** What [preview_dataset] prints, line by line: the values that its
    f-strings format. *)
Inductive Line :=
  | HorizontalBar
  | DatasetCategories (categories_str : list (Z * string))
  | NumberOfImages (n : Z)
  | NumberOfAnnotations (n : Z)
  | PerCategoryInfo
  | CategoryLabel (name : string) (id : Z)
  | Instances (n : Z).

(** The body of the loop [for c in self.tree.data["categories"]]: the
    [except KeyError] clause prints a count of 0 and lets any other
    exception through. *)
Definition category_lines (h : Heap) (images_per_category : dict (list loc)) (c : loc)
  : Err (list Line) :=
  let label := CategoryLabel (cat_name (category_at h c)) (cat_id (category_at h c)) in
  match dict_getitem images_per_category (cat_id (category_at h c)) with
  | inr instances => ok [label; Instances (Z.of_nat (length instances))]
  | inl (KeyError _) => ok [label; Instances 0]
  | inl e => raise e
  end.

(** [CocoDataset.preview_dataset(self)]: the lines it prints. *)
Definition preview_dataset (h : Heap) (self : CocoDataset) : Err (list Line) :=
  let categories_str :=
    map (fun c => (cat_id (category_at h c), cat_name (category_at h c)))
        (tree_categories self) in
  let images_per_category :=
    to_dict (fun l => ann_category_id (annotation_at h l)) (tree_annotations self) in
  let* per_category :=
    mapM (category_lines h images_per_category) (tree_categories self) in
  ok ([HorizontalBar;
       DatasetCategories categories_str;
       NumberOfImages (Z.of_nat (length (tree_images self)));
       NumberOfAnnotations (Z.of_nat (length (tree_annotations self)));
       HorizontalBar;
       PerCategoryInfo]
      ++ concat per_category ++ [HorizontalBar]).

(** ** [CocoDatasetInstanceSegmentation.__len__] *)

(** [CocoDatasetInstanceSegmentation.__len__] *)
Definition seg_len (self : SegmentationDataset) : Z :=
  Z.of_nat (length (data_images (seg_tree self))).

(* ===================================================================== *)

(** * Vocabulary of the further properties *)

(** What [__post_init__] establishes for a classification dataset whose
    annotations refer to images and categories of the annotation file, and
    what [__getitem__] and [split] rely on. *)
Record well_formed (h : Heap) (self : CocoDataset) : Prop := {
  wf_dataset : dataset_ok h self;
  wf_classification : classification_ok h self;
  wf_annotations : annotations self = tree_annotations self;
  wf_category_refs :
    Forall (fun l => (l < length (category_objs h))%nat) (tree_categories self) }.

(** The two lines of the preview for the category object [c]: its label
    and the number of annotations of the store with its id. *)
Definition category_report (h : Heap) (self : CocoDataset) (c : loc) : list Line :=
  [CategoryLabel (cat_name (category_at h c)) (cat_id (category_at h c));
   Instances (Z.of_nat (length (group ann_category_id (cat_id (category_at h c))
                                      (store_annotations h self))))].

(** The running totals after the loss dicts [ls] of a phase, from the
    totals [totals] on. *)
Fixpoint accumulate_all (totals : gmap string float) (ls : list (gmap string float))
  : Err (gmap string float) :=
  match ls with
  | [] => ok totals
  | losses :: ls' =>
      let* totals' := accumulate totals losses in
      accumulate_all totals' ls'
  end.

(** The running totals of [train] after the loss dicts [ls]: each dict
    goes through [backward] before it is added. *)
Fixpoint train_totals (totals : gmap string float) (ls : list (gmap string float))
  : Err (gmap string float) :=
  match ls with
  | [] => ok totals
  | losses :: ls' =>
      let* _ := backward losses in
      let* totals' := accumulate totals losses in
      train_totals totals' ls'
  end.

(** The loss dicts that the model returns along the batches of an evaluate
    phase: the model [m] stays as it is. *)
Definition validation_losses {Model Tensor Target : Type}
    (forward_losses : Model -> list Tensor -> list Target -> gmap string float)
    (m : Model) (bs : list (list Tensor * list Target)) : list (gmap string float) :=
  map (fun batch => forward_losses m (fst batch) (snd batch)) bs.

(** A loss dict with exactly the names [names]. *)
Definition has_names (names : list string) (losses : gmap string float) : Prop :=
  forall key, is_Some (losses !! key) <-> key ∈ names.

(** The calls of [recorder.record_scalars] in a trace: tag, losses, step. *)
Definition recorded_scalars (tr : list Event) : list (string * gmap string float * Z) :=
  omap (fun ev => match ev with
                  | Recorded tag losses epoch => Some (tag, losses, epoch)
                  | _ => None
                  end) tr.

(** The results of the train and evaluate phases in a trace, under the tags
    that [fit] records them with. *)
Definition phase_results (tr : list Event) : list (string * gmap string float * Z) :=
  omap (fun ev => match ev with
                  | Trained epoch losses => Some ("training loss"%string, losses, epoch)
                  | Evaluated epoch losses => Some ("validation loss"%string, losses, epoch)
                  | _ => None
                  end) tr.

(** The number of calls of [recorder.close()] in a trace. *)
Definition recorder_closes (tr : list Event) : nat :=
  length (omap (fun ev => match ev with RecorderClosed => Some tt | _ => None end) tr).

(** The model after [n] epochs of training on the batches [bs]. *)
Fixpoint model_after_epochs {Model Tensor Target : Type}
    (optimizer_step : Model -> list Tensor -> list Target -> Model)
    (m : Model) (bs : list (list Tensor * list Target)) (n : nat) : Model :=
  match n with
  | O => m
  | S n' =>
      model_after_epochs optimizer_step (model_after Model Tensor Target optimizer_step m bs)
        bs n'
  end.

(** The trainer with more calls in its trace. *)
Definition with_events {Model : Type} (self : Trainer Model) (evs : list Event)
  : Trainer Model :=
  {| model := model Model self; recorder := recorder Model self;
     best_loss := best_loss Model self; trace := trace Model self ++ evs |}.

(** A method that neither closes the recorder nor replaces it. *)
Definition keeps_recorder {Model A : Type} (m : Method Model A) : Prop :=
  forall self r self', m self = (r, self') ->
    recorder Model self' = recorder Model self /\
    recorder_closes (trace Model self') = recorder_closes (trace Model self).

(** What [coco_eval] records for an instance: no crowd, a score, an image
    of the store and the number of foreground pixels as area, which is not
    zero. *)
Definition recorded_prediction (store : COCOData) (a : Annotation) : Prop :=
  1 <= ann_id a /\
  ann_image_id a ∈ map img_id (data_images store) /\
  ann_iscrowd a = 0 /\
  is_Some (ann_score a) /\
  exists area : Z, 0 < area /\ ann_area a = Float.of_int area.

(* ===================================================================== *)

(** * Further scenarios *)

(** A store whose first annotation refers to an image that the store lacks
    and whose second annotation refers to a category that it lacks. *)
Definition dangling_references : Heap * CocoDataset :=
  CocoDatasetClassification_init empty_heap "data"
    [example_image 1]
    [example_annotation 1 5 1; example_annotation 2 1 9]
    example_categories.

(** A store with two images of which the second has no annotation. *)
Definition unannotated_data : COCOData :=
  {| data_images := [example_image 1; example_image 2];
     data_annotations := [example_annotation 1 1 1; example_annotation 2 1 2];
     data_categories := example_categories |}.

(** A detection model without mask head: whatever the batch, it returns
    the four loss terms of the boxes, each 1.0. *)
Definition box_losses (m : unit) (x_pred : list unit) (y_true : list unit)
  : gmap string float :=
  list_to_map
    (map (fun name => (name, Float.of_int 1))
         ["loss_classifier"; "loss_box_reg"; "loss_objectness"; "loss_rpn_box_reg"]%string).

(** A model that returns a loss term of its own. *)
Definition custom_losses (m : unit) (x_pred : list unit) (y_true : list unit)
  : gmap string float :=
  <["loss_keypoint"%string := Float.of_int 1]> initial_losses.

(** A loader without batches and without samples. *)
Definition empty_loader : DataLoader unit unit :=
  {| batches := []; num_samples := 0; dataset := SegmentationDataset_init "data" empty_data |}.

(** The toy run with a recorder. *)
Definition toy_fit_recorded (epochs : Z) (coco_eval_frequency : option Z)
  : Err unit * Trainer nat :=
  fit nat unit unit unit (list N) unit toy_losses toy_step toy_predict toy_pixels
    toy_extract toy_read path_join_slash None None toy_mask toy_tensor
    toy_loader toy_loader epochs coco_eval_frequency (Trainer_init nat 0%nat true).

(** A run with the detection model without mask head. *)
Definition box_fit (epochs : Z) : Err unit * Trainer unit :=
  fit unit unit unit unit (list N) unit box_losses scenario_step
    (fun m image => toy_predict 0%nat image) toy_pixels
    toy_extract toy_read path_join_slash None None toy_mask toy_tensor
    scenario_loader scenario_loader epochs None (Trainer_init unit tt true).

(** The mean losses of a phase of that run: 1.0 over 2 samples for each
    of the four terms. *)
Definition box_means : gmap string float :=
  list_to_map
    (map (fun name => (name, Float.lit 1 2))
         ["loss_classifier"; "loss_box_reg"; "loss_objectness"; "loss_rpn_box_reg"]%string).

(** A store whose only image has the id 5. *)
Definition sparse_data : COCOData :=
  {| data_images := [example_image 5];
     data_annotations := [example_annotation 1 5 1];
     data_categories := example_categories |}.

(** A loader over the store [data], one sample per image. *)
Definition loader_of (data : COCOData) : DataLoader unit unit :=
  {| batches := []; num_samples := Z.of_nat (length (data_images data));
     dataset := SegmentationDataset_init "data" data |}.

(** The COCO evaluation of the toy model over the store [data]. *)
Definition toy_coco_eval_of (data : COCOData) : Err (COCOData * COCOData) :=
  coco_eval nat unit unit unit (list N) unit toy_predict toy_pixels toy_extract toy_read
    path_join_slash None None toy_mask toy_tensor 0%nat (loader_of data).

(* ===================================================================== *)
(** * Properties *)

(** ** The error monad *)

Lemma bind_ok {A B} (m : Err A) (k : A -> Err B) (b : B) :
  bind m k = inr b -> exists a, m = inr a /\ k a = inr b.
Proof. destruct m as [e|a]; simpl; [discriminate | eauto]. Qed.

Lemma mapM_ok {A B} (f : A -> Err B) (l : list A) (ys : list B) :
  mapM f l = inr ys -> Forall2 (fun x y => f x = inr y) l ys.
Proof.
  revert ys. induction l as [|x l IH]; simpl; intros ys H.
  - injection H as <-. constructor.
  - apply bind_ok in H as (y & Hy & H).
    apply bind_ok in H as (ys' & Hys & H).
    injection H as <-. constructor; auto.
Qed.

Lemma mapM_total {A B} (f : A -> Err B) (l : list A) :
  Forall (fun x => exists y, f x = inr y) l -> exists ys, mapM f l = inr ys.
Proof.
  induction 1 as [|x l [y Hy] _ [ys Hys]]; simpl; [eauto|].
  rewrite Hy, Hys. simpl. eauto.
Qed.

(** ** Slices *)

Lemma slice_to_from {A} (l : list A) (n : Z) : slice_to l n ++ slice_from l n = l.
Proof. unfold slice_to, slice_from. destruct (0 <=? n); apply take_drop. Qed.

Lemma slice_to_length {A} (l : list A) (n : Z) :
  0 <= n <= Z.of_nat (length l) -> length (slice_to l n) = Z.to_nat n.
Proof.
  intros H. unfold slice_to. destruct (Z.leb_spec 0 n); [|lia].
  rewrite length_take. lia.
Qed.

Lemma slice_from_length {A} (l : list A) (n : Z) :
  0 <= n <= Z.of_nat (length l) -> length (slice_from l n) = (length l - Z.to_nat n)%nat.
Proof.
  intros H. unfold slice_from. destruct (Z.leb_spec 0 n); [|lia].
  now rewrite length_drop.
Qed.

(** ** Insertion-ordered dicts and [to_dict] *)

Lemma dict_lookup_None {V} (d : dict V) (k : Z) :
  dict_lookup d k = None <-> k ∉ keys d.
Proof.
  induction d as [|[k' v] d IH]; simpl.
  - split; [intros _; apply not_elem_of_nil | done].
  - rewrite not_elem_of_cons. destruct (Z.eqb_spec k k'); [|tauto].
    split; [discriminate | tauto].
Qed.

Lemma dict_lookup_append {A} (d : dict (list A)) (k k' : Z) (x : A) :
  dict_lookup (dict_append k x d) k' =
  if k' =? k then Some (default [] (dict_lookup d k) ++ [x]) else dict_lookup d k'.
Proof.
  induction d as [|[k0 g] d IH]; simpl.
  - reflexivity.
  - destruct (Z.eqb_spec k k0) as [->|Hk]; simpl.
    + destruct (Z.eqb_spec k' k0); reflexivity.
    + rewrite IH. destruct (Z.eqb_spec k' k0) as [->|Hk'].
      * destruct (Z.eqb_spec k0 k); [congruence | reflexivity].
      * reflexivity.
Qed.

Lemma keys_dict_append {A} (d : dict (list A)) (k : Z) (x : A) :
  keys (dict_append k x d) = if decide (k ∈ keys d) then keys d else keys d ++ [k].
Proof.
  induction d as [|[k0 g] d IH]; simpl.
  - reflexivity.
  - destruct (Z.eqb_spec k k0) as [->|Hk]; simpl.
    + rewrite decide_True by apply list_elem_of_here. reflexivity.
    + rewrite IH. destruct (decide (k ∈ keys d)) as [Hin|Hin].
      * rewrite decide_True by (apply list_elem_of_further, Hin). reflexivity.
      * rewrite decide_False; [reflexivity|].
        rewrite not_elem_of_cons. tauto.
Qed.

Lemma to_dict_acc_lookup {A} (key : A -> Z) (items : list A) (d : dict (list A)) (k : Z) :
  dict_lookup (fold_left (fun d x => dict_append (key x) x d) items d) k =
  match group key k items with
  | [] => dict_lookup d k
  | g => Some (default [] (dict_lookup d k) ++ g)
  end.
Proof.
  revert d. induction items as [|x items IH]; intros d; simpl.
  - reflexivity.
  - rewrite IH, dict_lookup_append. unfold group. rewrite filter_cons.
    destruct (decide (has_key key k x)) as [Hk|Hk]; unfold has_key in Hk.
    + subst k. rewrite Z.eqb_refl.
      destruct (filter _ items); simpl; [reflexivity|].
      now rewrite <- app_assoc.
    + destruct (Z.eqb_spec k (key x)); [congruence|]. reflexivity.
Qed.

(** A key is mapped to the group of the items that carry it, and is absent
    when no item does. *)
Lemma to_dict_lookup {A} (key : A -> Z) (items : list A) (k : Z) :
  dict_lookup (to_dict key items) k =
  match group key k items with
  | [] => None
  | g => Some g
  end.
Proof. unfold to_dict. rewrite to_dict_acc_lookup. reflexivity. Qed.

Lemma to_dict_acc_keys {A} (key : A -> Z) (items : list A) (d : dict (list A)) :
  NoDup (keys d ++ map key items) ->
  keys (fold_left (fun d x => dict_append (key x) x d) items d) = keys d ++ map key items.
Proof.
  revert d. induction items as [|x items IH]; intros d Hnd; simpl.
  - now rewrite app_nil_r.
  - simpl in Hnd. apply NoDup_app in Hnd as Hnd'. destruct Hnd' as (Hd & Hdisj & Hitems).
    assert (Hx : key x ∉ keys d).
    { intros Hin. apply (Hdisj _ Hin). apply list_elem_of_here. }
    rewrite IH; rewrite keys_dict_append, decide_False by exact Hx.
    + rewrite <- app_assoc. reflexivity.
    + rewrite <- app_assoc. exact Hnd.
Qed.

(** Over items with distinct keys the dict lists the keys in item order. *)
Lemma to_dict_keys {A} (key : A -> Z) (items : list A) :
  NoDup (map key items) -> keys (to_dict key items) = map key items.
Proof. intros H. unfold to_dict. now rewrite to_dict_acc_keys. Qed.

Lemma to_dict_acc_keys_NoDup {A} (key : A -> Z) (items : list A) (d : dict (list A)) :
  NoDup (keys d) -> NoDup (keys (fold_left (fun d x => dict_append (key x) x d) items d)).
Proof.
  revert d. induction items as [|x items IH]; intros d Hnd; simpl; [exact Hnd|].
  apply IH. rewrite keys_dict_append.
  destruct (decide (key x ∈ keys d)) as [Hin|Hin]; [exact Hnd|].
  apply NoDup_app. split; [exact Hnd|]. split.
  - intros k Hk Hk'. apply list_elem_of_singleton in Hk'. congruence.
  - apply NoDup_singleton.
Qed.

(** The keys of a dict are distinct. *)
Lemma to_dict_keys_NoDup {A} (key : A -> Z) (items : list A) :
  NoDup (keys (to_dict key items)).
Proof. apply to_dict_acc_keys_NoDup. apply NoDup_nil_2. Qed.

Lemma group_nil {A} (key : A -> Z) (k : Z) (items : list A) :
  group key k items = [] <-> k ∉ map key items.
Proof.
  unfold group. induction items as [|x items IH]; simpl.
  - split; [intros _; apply not_elem_of_nil | done].
  - rewrite filter_cons, not_elem_of_cons.
    destruct (decide (has_key key k x)) as [Hk|Hk]; unfold has_key in Hk.
    + split; [discriminate | intros [? _]; congruence].
    + rewrite IH. split; [intros ?; split; [congruence | assumption] | tauto].
Qed.

Lemma to_dict_keys_elem {A} (key : A -> Z) (items : list A) (k : Z) :
  k ∈ keys (to_dict key items) <-> k ∈ map key items.
Proof.
  destruct (decide (k ∈ map key items)) as [Hin|Hin].
  - split; [intros _; exact Hin | intros _].
    destruct (decide (k ∈ keys (to_dict key items))) as [H|H]; [exact H|].
    apply dict_lookup_None in H. rewrite to_dict_lookup in H.
    destruct (group key k items) eqn:Hg; [|discriminate].
    apply group_nil in Hg. contradiction.
  - split; [|contradiction]. intros H. exfalso.
    apply group_nil in Hin as Hg.
    assert (Hl : dict_lookup (to_dict key items) k = None)
      by (rewrite to_dict_lookup, Hg; reflexivity).
    apply dict_lookup_None in Hl. contradiction.
Qed.

(** [to_dict(items, key)[k][0]]: the first item that carries [k], or a
    [KeyError]. *)
Lemma first_of_to_dict {A} (key : A -> Z) (items : list A) (k : Z) :
  first_of (to_dict key items) k =
  match group key k items with
  | [] => raise (KeyError (IntKey k))
  | x :: _ => ok x
  end.
Proof.
  unfold first_of, dict_getitem. rewrite to_dict_lookup.
  destruct (group key k items) as [|x g]; simpl; [reflexivity|].
  unfold list_getitem. simpl.
  destruct (Z.pos (Pos.of_succ_nat (length g))) eqn:E; try lia. reflexivity.
Qed.

Lemma group_map {A B} (key : B -> Z) (f : A -> B) (k : Z) (l : list A) :
  group key k (map f l) = map f (group (fun x => key (f x)) k l).
Proof.
  unfold group. induction l as [|x l IH]; simpl; [reflexivity|].
  rewrite !filter_cons.
  destruct (decide (has_key key k (f x))) as [Hk|Hk];
    destruct (decide (has_key (fun x => key (f x)) k x)) as [Hk'|Hk'];
    unfold has_key in *; try contradiction; simpl; now rewrite IH.
Qed.

Lemma group_ext {A} (key key' : A -> Z) (k : Z) (l : list A) :
  Forall (fun x => key x = key' x) l -> group key k l = group key' k l.
Proof.
  unfold group. induction 1 as [|x l Hx _ IH]; [reflexivity|].
  rewrite !filter_cons.
  destruct (decide (has_key key k x)) as [Hk|Hk];
    destruct (decide (has_key key' k x)) as [Hk'|Hk'];
    unfold has_key in *; try congruence; now rewrite IH.
Qed.

Lemma group_elem {A} (key : A -> Z) (k : Z) (l : list A) (x : A) :
  x ∈ group key k l <-> x ∈ l /\ key x = k.
Proof. unfold group. rewrite list_elem_of_filter. unfold has_key. tauto. Qed.

Lemma to_dict_ext {A} (key key' : A -> Z) (l : list A) :
  Forall (fun x => key x = key' x) l -> to_dict key l = to_dict key' l.
Proof.
  unfold to_dict. generalize (@nil (Z * list A)). intros d H. revert d.
  induction H as [|x l Hx _ IH]; intros d; simpl; [reflexivity|].
  now rewrite Hx, IH.
Qed.

Lemma first_absent_app (present : Z -> bool) (l1 l2 : list Z) :
  first_absent present (l1 ++ l2) =
  match first_absent present l1 with
  | Some k => Some k
  | None => first_absent present l2
  end.
Proof.
  induction l1 as [|k l1 IH]; simpl; [reflexivity|].
  destruct (present k); [exact IH | reflexivity].
Qed.

Lemma first_absent_Some (present : Z -> bool) (ks : list Z) (k : Z) :
  first_absent present ks = Some k -> k ∈ ks /\ present k = false.
Proof.
  induction ks as [|k0 ks IH]; simpl; [discriminate|].
  destruct (present k0) eqn:E.
  - intros H. destruct (IH H). split; [now apply list_elem_of_further | assumption].
  - intros [= <-]. split; [apply list_elem_of_here | assumption].
Qed.

Lemma first_absent_None (present : Z -> bool) (ks : list Z) :
  first_absent present ks = None <-> Forall (fun k => present k = true) ks.
Proof.
  induction ks as [|k0 ks IH]; simpl.
  - split; [constructor | reflexivity].
  - rewrite Forall_cons. destruct (present k0); [|split; [discriminate | intros [? _]; discriminate]].
    rewrite IH. tauto.
Qed.

Lemma first_absent_ext (p q : Z -> bool) (ks : list Z) :
  (forall k, p k = q k) -> first_absent p ks = first_absent q ks.
Proof.
  intros H. induction ks as [|k ks IH]; simpl; [reflexivity|].
  now rewrite H, IH.
Qed.

(** [[d[k][0] for k in ks]] over [d = to_dict(items, key)]: a key that no
    item carries raises its [KeyError], and the first such key does. *)
Lemma pick_first_raises {A} (key : A -> Z) (items : list A) (ks : list Z) (k : Z) :
  first_absent (in_group key items) ks = Some k ->
  mapM (first_of (to_dict key items)) ks = inl (KeyError (IntKey k)).
Proof.
  induction ks as [|k0 ks IH]; simpl; [discriminate|].
  rewrite first_of_to_dict. unfold in_group at 1.
  destruct (group key k0 items) as [|x g].
  - intros [= <-]. reflexivity.
  - intros H. simpl. now rewrite (IH H).
Qed.

Lemma pick_first_total {A} (key : A -> Z) (items : list A) (ks : list Z) :
  first_absent (in_group key items) ks = None ->
  exists picked, mapM (first_of (to_dict key items)) ks = inr picked.
Proof.
  intros H. apply mapM_total. apply first_absent_None in H.
  eapply Forall_impl; [exact H|]. intros k Hk; simpl in Hk.
  rewrite first_of_to_dict. unfold in_group in Hk.
  destruct (group key k items); [discriminate | eauto].
Qed.

Lemma pick_first_ok {A} (key : A -> Z) (items : list A) (ks : list Z) (picked : list A) :
  mapM (first_of (to_dict key items)) ks = inr picked ->
  Forall2 (fun k x => head (group key k items) = Some x) ks picked.
Proof.
  intros H. apply mapM_ok in H. eapply Forall2_impl; [exact H|].
  intros k x Hx; simpl in Hx. rewrite first_of_to_dict in Hx.
  destruct (group key k items); [discriminate|]. now injection Hx as ->.
Qed.

(** ** The heap *)

Lemma heap_le_refl (h : Heap) : heap_le h h.
Proof. repeat split; reflexivity. Qed.

Lemma heap_le_trans (h1 h2 h3 : Heap) : heap_le h1 h2 -> heap_le h2 h3 -> heap_le h1 h3.
Proof. intros (?&?&?) (?&?&?). repeat split; etrans; eassumption. Qed.

Lemma prefix_lookup_total {A} `{Inhabited A} (l l' : list A) (i : nat) :
  l `prefix_of` l' -> (i < length l)%nat -> l' !!! i = l !!! i.
Proof. intros [k ->] Hi. now apply lookup_total_app_l. Qed.

Lemma heap_le_image_at (h h' : Heap) (l : loc) :
  heap_le h h' -> (l < length (image_objs h))%nat -> image_at h' l = image_at h l.
Proof. intros (Hi&_&_) Hl. now apply prefix_lookup_total. Qed.

Lemma heap_le_annotation_at (h h' : Heap) (l : loc) :
  heap_le h h' -> (l < length (annotation_objs h))%nat ->
  annotation_at h' l = annotation_at h l.
Proof. intros (_&Ha&_) Hl. now apply prefix_lookup_total. Qed.

Lemma heap_le_image_length (h h' : Heap) :
  heap_le h h' -> (length (image_objs h) <= length (image_objs h'))%nat.
Proof. intros (Hi&_&_). now apply prefix_length. Qed.

Lemma heap_le_annotation_length (h h' : Heap) :
  heap_le h h' -> (length (annotation_objs h) <= length (annotation_objs h'))%nat.
Proof. intros (_&Ha&_). now apply prefix_length. Qed.

Lemma deepcopy_heap_le (h : Heap) (self : CocoDataset) : heap_le h (fst (deepcopy h self)).
Proof. repeat split; simpl; apply prefix_app_r; reflexivity. Qed.

(** The copy of the annotation at [l] is equal to it and lives at
    [length + l]. *)
Lemma deepcopy_annotation_at (h : Heap) (self : CocoDataset) (l : loc) :
  (l < length (annotation_objs h))%nat ->
  annotation_at (fst (deepcopy h self)) (length (annotation_objs h) + l)%nat = annotation_at h l.
Proof.
  intros Hl. unfold annotation_at. simpl.
  rewrite lookup_total_app_r by lia. f_equal. lia.
Qed.

(** ** Datasets *)

Lemma init_ok (h : Heap) (dir : string) (imgs : list Image) (anns : list Annotation)
    (cats : list Category) :
  dataset_ok (fst (CocoDatasetClassification_init h dir imgs anns cats))
             (snd (CocoDatasetClassification_init h dir imgs anns cats)).
Proof.
  split; simpl.
  - reflexivity.
  - apply Forall_forall. intros l Hl. apply elem_of_seq in Hl.
    rewrite length_app. lia.
  - apply Forall_forall. intros l Hl. apply elem_of_seq in Hl.
    rewrite length_app. lia.
Qed.

(** The records of a fresh dataset are the loaded ones. *)
Lemma alloc_lookup {A} `{Inhabited A} (objs new : list A) :
  map (fun l => (objs ++ new) !!! l) (seq (length objs) (length new)) = new.
Proof.
  apply list_eq. intros i. rewrite list_lookup_fmap.
  destruct (decide (i < length new)%nat) as [Hi|Hi].
  - rewrite lookup_seq_lt by exact Hi. simpl.
    rewrite lookup_total_app_r by lia.
    replace (length objs + i - length objs)%nat with i by lia.
    destruct (lookup_lt_is_Some_2 new i Hi) as [x Hx].
    rewrite Hx. f_equal. now apply list_lookup_total_correct.
  - rewrite lookup_seq_ge by lia. simpl. symmetry. apply lookup_ge_None. lia.
Qed.

Lemma init_store_annotations (h : Heap) (dir : string) (imgs : list Image)
    (anns : list Annotation) (cats : list Category) :
  store_annotations (fst (CocoDatasetClassification_init h dir imgs anns cats))
                    (snd (CocoDatasetClassification_init h dir imgs anns cats)) = anns.
Proof. unfold store_annotations, annotation_at. simpl. apply alloc_lookup. Qed.

Lemma init_store_images (h : Heap) (dir : string) (imgs : list Image)
    (anns : list Annotation) (cats : list Category) :
  store_images (fst (CocoDatasetClassification_init h dir imgs anns cats))
               (snd (CocoDatasetClassification_init h dir imgs anns cats)) = imgs.
Proof. unfold store_images, image_at. simpl. apply alloc_lookup. Qed.

Lemma image_key_mono (h h' : Heap) (refs : list loc) :
  heap_le h h' -> Forall (fun l => (l < length (image_objs h))%nat) refs ->
  Forall (fun l => image_key h' l = image_key h l) refs.
Proof.
  intros Hle Hrefs. eapply Forall_impl; [exact Hrefs|].
  intros l Hl; simpl in Hl. unfold image_key.
  now rewrite (heap_le_image_at h h').
Qed.

Lemma store_annotations_mono (h h' : Heap) (self : CocoDataset) :
  heap_le h h' ->
  Forall (fun l => (l < length (annotation_objs h))%nat) (tree_annotations self) ->
  store_annotations h' self = store_annotations h self.
Proof.
  intros Hle Hrefs. unfold store_annotations. apply map_ext_Forall.
  eapply Forall_impl; [exact Hrefs|]. intros l Hl. now apply heap_le_annotation_at.
Qed.

Lemma image_ids_mono (h h' : Heap) (self : CocoDataset) :
  heap_le h h' ->
  Forall (fun l => (l < length (image_objs h))%nat) (tree_images self) ->
  image_ids h' self = image_ids h self.
Proof.
  intros Hle Hrefs. unfold image_ids. apply map_ext_Forall.
  now apply image_key_mono.
Qed.

Lemma dataset_ok_mono (h h' : Heap) (self : CocoDataset) :
  dataset_ok h self -> heap_le h h' -> dataset_ok h' self.
Proof.
  intros [Himg Hir Har] Hle. split.
  - rewrite Himg. apply to_dict_ext.
    eapply Forall_impl; [apply (image_key_mono h h' _ Hle Hir)|]. intros l Hl. now symmetry.
  - eapply Forall_impl; [exact Hir|]. intros l Hl; simpl in Hl.
    pose proof (heap_le_image_length _ _ Hle). lia.
  - eapply Forall_impl; [exact Har|]. intros l Hl; simpl in Hl.
    pose proof (heap_le_annotation_length _ _ Hle). lia.
Qed.

Lemma subset_spec_mono (src : list Annotation) (src_images : list loc)
    (h h' : Heap) (idx : list Z) (s : CocoDataset) :
  subset_spec src src_images h idx s -> heap_le h h' -> subset_spec src src_images h' idx s.
Proof.
  intros [Hids Hkeys Hanns Hir Har Hal Hsh] Hle. split.
  - now rewrite (image_ids_mono h h').
  - exact Hkeys.
  - now rewrite (store_annotations_mono h h').
  - eapply Forall_impl; [exact Hir|]. intros l Hl; simpl in Hl.
    pose proof (heap_le_image_length _ _ Hle). lia.
  - eapply Forall_impl; [exact Har|]. intros l Hl; simpl in Hl.
    pose proof (heap_le_annotation_length _ _ Hle). lia.
  - exact Hal.
  - exact Hsh.
Qed.

Lemma Forall2_map_eq {A B} (f : B -> A) (l : list A) (l' : list B) :
  Forall2 (fun x y => f y = x) l l' -> map f l' = l.
Proof. induction 1 as [|x y l l' Hxy _ IH]; simpl; [reflexivity | now rewrite Hxy, IH]. Qed.

(** [[self.images[i][0] for i in indexes]] does not raise on ids of the
    index and picks, for each id, an image object of the store with that id. *)
Lemma pick_images (h : Heap) (self : CocoDataset) (idx : list Z) :
  dataset_ok h self -> idx ⊆ keys (images self) ->
  exists irefs, mapM (first_of (images self)) idx = inr irefs /\
    map (image_key h) irefs = idx /\ irefs ⊆ tree_images self.
Proof.
  intros [Himg Hir Har] Hsub. rewrite Himg in *.
  destruct (pick_first_total (image_key h) (tree_images self) idx) as [irefs Hm].
  { apply first_absent_None. apply Forall_forall. intros k Hk.
    apply Hsub in Hk. apply (proj1 (to_dict_keys_elem _ _ _)) in Hk. unfold in_group.
    destruct (group _ k _) eqn:Hg; [|reflexivity].
    apply group_nil in Hg. contradiction. }
  exists irefs. split; [exact Hm|].
  apply pick_first_ok in Hm.
  assert (Hall : Forall2 (fun k l => image_key h l = k /\ l ∈ tree_images self) idx irefs).
  { eapply Forall2_impl; [exact Hm|]. intros k l Hl; simpl in Hl.
    destruct (group (image_key h) k (tree_images self)) as [|l0 g] eqn:Hg; [discriminate|].
    injection Hl as ->.
    assert (Hin : l ∈ group (image_key h) k (tree_images self))
      by (rewrite Hg; apply list_elem_of_here).
    apply group_elem in Hin. tauto. }
  split.
  - apply Forall2_map_eq. eapply Forall2_impl; [exact Hall|]. now intros ? ? [? _].
  - intros l Hl. clear Hm. induction Hall as [|k l0 idx' irefs' [_ Hin] _ IH].
    + now apply elem_of_nil in Hl.
    + apply elem_of_cons in Hl as [->|Hl]; [exact Hin|].
      apply IH; [|exact Hl]. intros k' Hk'. apply Hsub. now apply list_elem_of_further.
Qed.

Lemma copied_group (h : Heap) (self : CocoDataset) (k : Z) :
  Forall (fun l => (l < length (annotation_objs h))%nat) (tree_annotations self) ->
  group (annotation_image_key (fst (deepcopy h self))) k
        (tree_annotations (snd (deepcopy h self))) =
  map (Nat.add (length (annotation_objs h)))
      (group (annotation_image_key h) k (tree_annotations self)).
Proof.
  intros Hrefs. unfold deepcopy at 2. cbn [snd tree_annotations]. rewrite group_map. f_equal.
  apply group_ext. eapply Forall_impl; [exact Hrefs|]. intros l Hl; simpl in Hl.
  unfold annotation_image_key. now rewrite deepcopy_annotation_at.
Qed.

Lemma store_group (h : Heap) (self : CocoDataset) (k : Z) :
  group ann_image_id k (store_annotations h self) =
  map (annotation_at h) (group (annotation_image_key h) k (tree_annotations self)).
Proof. unfold store_annotations. now rewrite group_map. Qed.

(** An image id has an annotation among the copied annotations exactly
    when it has one in the store of the source. *)
Lemma copied_in_group (h : Heap) (self : CocoDataset) (k : Z) :
  Forall (fun l => (l < length (annotation_objs h))%nat) (tree_annotations self) ->
  in_group (annotation_image_key (fst (deepcopy h self)))
           (tree_annotations (snd (deepcopy h self))) k =
  in_group ann_image_id (store_annotations h self) k.
Proof.
  intros Hrefs. unfold in_group. rewrite copied_group, store_group by exact Hrefs.
  now destruct (group (annotation_image_key h) k (tree_annotations self)).
Qed.

Lemma split_loop_cons (h : Heap) (self : CocoDataset) (pool : list Z) (ss : Z)
    (sizes : list Z) :
  split_loop h self pool (ss :: sizes) =
  let h1 := fst (deepcopy h self) in
  let subset := snd (deepcopy h self) in
  let* subset_tree_images := mapM (first_of (images self)) (slice_to pool ss) in
  let subset_images := to_dict (image_key h1) subset_tree_images in
  let* picked :=
    mapM (first_of (to_dict (annotation_image_key h1) (tree_annotations subset)))
         (keys subset_images) in
  let subset' :=
    {| data_directory_path := data_directory_path subset;
       tree_images := subset_tree_images;
       tree_annotations := picked;
       tree_categories := tree_categories subset;
       images := subset_images;
       categories := categories subset;
       annotations := picked |} in
  let* (h2, subsets) := split_loop h1 self (slice_from pool ss) sizes in
  ok (h2, subset' :: subsets).
Proof. reflexivity. Qed.

Lemma slice_to_subseteq {A} (l : list A) (n : Z) : slice_to l n ⊆ l.
Proof.
  intros x Hx. rewrite <- (slice_to_from l n). apply elem_of_app. now left.
Qed.

Lemma slice_from_subseteq {A} (l : list A) (n : Z) : slice_from l n ⊆ l.
Proof.
  intros x Hx. rewrite <- (slice_to_from l n). apply elem_of_app. now right.
Qed.

Lemma slice_NoDup {A} (l : list A) (n : Z) :
  NoDup l -> NoDup (slice_to l n) /\ NoDup (slice_from l n).
Proof.
  intros H. rewrite <- (slice_to_from l n) in H.
  apply NoDup_app in H as (H1 & _ & H2). now split.
Qed.

(** The keys of the index of a subset are the ids it was built for. *)
Lemma subset_keys (h h1 : Heap) (self : CocoDataset) (idx : list Z) (irefs : list loc) :
  dataset_ok h self -> heap_le h h1 -> NoDup idx ->
  map (image_key h) irefs = idx -> irefs ⊆ tree_images self ->
  map (image_key h1) irefs = idx /\ keys (to_dict (image_key h1) irefs) = idx.
Proof.
  intros Hok Hle Hnd Hmap Hsub.
  assert (Hids : map (image_key h1) irefs = idx).
  { rewrite <- Hmap. apply map_ext_Forall. apply image_key_mono; [exact Hle|].
    apply Forall_forall. intros l Hl. apply Hsub in Hl.
    exact (proj1 (Forall_forall _ _) (ok_image_refs _ _ Hok) l Hl). }
  split; [exact Hids|]. rewrite to_dict_keys; rewrite Hids; [reflexivity | exact Hnd].
Qed.

(** The annotation objects picked for a subset are copies of the first
    annotation of each of its images. *)
Lemma picked_annotations (h : Heap) (self : CocoDataset) (idx : list Z) (picked : list loc) :
  dataset_ok h self ->
  mapM (first_of (to_dict (annotation_image_key (fst (deepcopy h self)))
                          (tree_annotations (snd (deepcopy h self))))) idx = inr picked ->
  Forall2 (fun k l =>
             first_annotation (store_annotations h self) k =
               Some (annotation_at (fst (deepcopy h self)) l) /\
             (l < length (annotation_objs (fst (deepcopy h self))))%nat) idx picked.
Proof.
  intros Hok Hm. apply pick_first_ok in Hm.
  eapply Forall2_impl; [exact Hm|]. intros k l Hl; cbv beta in Hl.
  pose proof (ok_annotation_refs _ _ Hok) as Hrefs.
  rewrite copied_group in Hl by exact Hrefs.
  unfold first_annotation. rewrite store_group.
  destruct (group (annotation_image_key h) k (tree_annotations self)) as [|l0 g] eqn:Hg;
    [discriminate|].
  simpl in Hl. injection Hl as <-.
  assert (Hin : l0 ∈ group (annotation_image_key h) k (tree_annotations self))
    by (rewrite Hg; apply list_elem_of_here).
  apply group_elem in Hin as [Hin _].
  pose proof (proj1 (Forall_forall _ _) Hrefs l0 Hin) as Hl0. simpl in Hl0.
  split.
  - simpl head. now rewrite deepcopy_annotation_at.
  - unfold deepcopy. cbn [fst annotation_objs]. rewrite length_app. lia.
Qed.

(** The loop of [split], when it returns: subset number [i] is built for
    the [i]-th id list taken off the pool. *)
Lemma split_loop_spec (self : CocoDataset) (sizes : list Z) :
  forall (h : Heap) (pool : list Z) (h' : Heap) (subsets : list CocoDataset),
  dataset_ok h self -> pool ⊆ keys (images self) -> NoDup pool ->
  split_loop h self pool sizes = inr (h', subsets) ->
  heap_le h h' /\
  Forall2 (subset_spec (store_annotations h self) (tree_images self) h')
          (slices pool sizes) subsets.
Proof.
  induction sizes as [|ss sizes IH]; intros h pool h' subsets Hok Hsub Hnd H.
  - injection H as <- <-. split; [apply heap_le_refl | constructor].
  - rewrite split_loop_cons in H. cbv zeta in H.
    apply bind_ok in H as (irefs & Hirefs & H).
    apply bind_ok in H as (picked & Hpicked & H).
    apply bind_ok in H as ([h2 subs] & Hrec & H).
    injection H as <- <-.
    pose proof (deepcopy_heap_le h self) as Hle1.
    destruct (slice_NoDup pool ss Hnd) as [Hnd1 Hnd2].
    destruct (pick_images h self (slice_to pool ss) Hok) as (irefs' & Hi' & Hmap & Hshared).
    { intros k Hk. apply Hsub. now apply slice_to_subseteq in Hk. }
    rewrite Hirefs in Hi'. injection Hi' as <-.
    destruct (subset_keys h _ self _ irefs Hok Hle1 Hnd1 Hmap Hshared) as [Hids Hkeys].
    rewrite Hkeys in Hpicked. apply picked_annotations in Hpicked; [|exact Hok].
    apply IH in Hrec as [Hle2 Hrest].
    + split; [now apply (heap_le_trans _ _ _ Hle1)|]. simpl. constructor.
      * eapply subset_spec_mono; [|exact Hle2]. split; simpl.
        -- exact Hids.
        -- exact Hkeys.
        -- unfold store_annotations. simpl. apply Forall2_fmap_r.
           eapply Forall2_impl; [exact Hpicked|]. now intros ? ? [? _].
        -- apply Forall_forall. intros l Hl. apply Hshared in Hl.
           pose proof (proj1 (Forall_forall _ _) (ok_image_refs _ _ Hok) l Hl) as Hv.
           cbv beta in Hv. rewrite length_app. lia.
        -- clear -Hpicked. induction Hpicked as [|? ? ? ? [_ ?] _ IH']; constructor; auto.
        -- reflexivity.
        -- exact Hshared.
      * rewrite (store_annotations_mono h) in Hrest;
          [exact Hrest | exact Hle1 | apply (ok_annotation_refs _ _ Hok)].
    + now apply (dataset_ok_mono h).
    + intros k Hk. apply Hsub. now apply slice_from_subseteq in Hk.
    + exact Hnd2.
Qed.

(** The loop of [split] raises the [KeyError] of the first selected image
    id that has no annotation in the store of the source. *)
Lemma split_loop_raises (self : CocoDataset) (sizes : list Z) :
  forall (h : Heap) (pool : list Z) (k : Z),
  dataset_ok h self -> pool ⊆ keys (images self) -> NoDup pool ->
  first_absent (in_group ann_image_id (store_annotations h self))
               (concat (slices pool sizes)) = Some k ->
  split_loop h self pool sizes = inl (KeyError (IntKey k)).
Proof.
  induction sizes as [|ss sizes IH]; intros h pool k Hok Hsub Hnd H; [discriminate|].
  simpl in H. rewrite first_absent_app in H.
  rewrite split_loop_cons. cbv zeta.
  pose proof (deepcopy_heap_le h self) as Hle1.
  destruct (slice_NoDup pool ss Hnd) as [Hnd1 Hnd2].
  destruct (pick_images h self (slice_to pool ss) Hok) as (irefs & Hi & Hmap & Hshared).
  { intros k' Hk. apply Hsub. now apply slice_to_subseteq in Hk. }
  destruct (subset_keys h _ self _ irefs Hok Hle1 Hnd1 Hmap Hshared) as [Hids Hkeys].
  rewrite Hi. cbn [bind]. rewrite Hkeys.
  pose proof (ok_annotation_refs _ _ Hok) as Hrefs.
  rewrite (first_absent_ext _ _ _ (fun k => eq_sym (copied_in_group h self k Hrefs))) in H.
  destruct (first_absent _ (slice_to pool ss)) as [k0|] eqn:Hfirst.
  - injection H as ->. now rewrite (pick_first_raises _ _ _ _ Hfirst).
  - destruct (pick_first_total _ _ _ Hfirst) as [picked ->]. cbn [bind].
    rewrite (IH (fst (deepcopy h self)) (slice_from pool ss) k); [reflexivity| | | |].
    + now apply (dataset_ok_mono h).
    + intros k' Hk. apply Hsub. now apply slice_from_subseteq in Hk.
    + exact Hnd2.
    + now rewrite (store_annotations_mono h).
Qed.

(** The loop of [split] returns when every selected image id has an
    annotation in the store of the source. *)
Lemma split_loop_total (self : CocoDataset) (sizes : list Z) :
  forall (h : Heap) (pool : list Z),
  dataset_ok h self -> pool ⊆ keys (images self) -> NoDup pool ->
  first_absent (in_group ann_image_id (store_annotations h self))
               (concat (slices pool sizes)) = None ->
  exists r, split_loop h self pool sizes = inr r.
Proof.
  induction sizes as [|ss sizes IH]; intros h pool Hok Hsub Hnd H; [simpl; eauto|].
  simpl in H. rewrite first_absent_app in H.
  rewrite split_loop_cons. cbv zeta.
  pose proof (deepcopy_heap_le h self) as Hle1.
  destruct (slice_NoDup pool ss Hnd) as [Hnd1 Hnd2].
  destruct (pick_images h self (slice_to pool ss) Hok) as (irefs & Hi & Hmap & Hshared).
  { intros k' Hk. apply Hsub. now apply slice_to_subseteq in Hk. }
  destruct (subset_keys h _ self _ irefs Hok Hle1 Hnd1 Hmap Hshared) as [Hids Hkeys].
  rewrite Hi. cbn [bind]. rewrite Hkeys.
  pose proof (ok_annotation_refs _ _ Hok) as Hrefs.
  rewrite (first_absent_ext _ _ _ (fun k => eq_sym (copied_in_group h self k Hrefs))) in H.
  destruct (first_absent _ (slice_to pool ss)) as [k0|] eqn:Hfirst; [discriminate|].
  destruct (pick_first_total _ _ _ Hfirst) as [picked ->]. cbn [bind].
  destruct (IH (fst (deepcopy h self)) (slice_from pool ss)) as [[h2 subs] ->].
  - now apply (dataset_ok_mono h).
  - intros k' Hk. apply Hsub. now apply slice_from_subseteq in Hk.
  - exact Hnd2.
  - now rewrite (store_annotations_mono h).
  - cbn [bind]. eauto.
Qed.

(** ** The id lists taken off the pool *)

(** Nothing is lost or repeated: the id lists and what is left make up the
    pool again. *)
Lemma slices_remainder (sizes : list Z) :
  forall pool, concat (slices pool sizes) ++ remainder pool sizes = pool.
Proof.
  induction sizes as [|ss sizes IH]; intros pool; simpl; [reflexivity|].
  rewrite <- app_assoc, IH. apply slice_to_from.
Qed.

Lemma slices_NoDup (pool : list Z) (sizes : list Z) :
  NoDup pool -> NoDup (concat (slices pool sizes)).
Proof.
  intros H. rewrite <- (slices_remainder sizes pool) in H.
  now apply NoDup_app in H as (H1 & _ & _).
Qed.

Lemma Zsum_nonneg (l : list Z) : Forall (fun z => 0 <= z) l -> 0 <= Zsum l.
Proof. induction 1; simpl; lia. Qed.

Lemma Zsum_floor_le (n d : Z) (nums : list Z) :
  0 < d -> Zsum (map (fun a => n * a / d) nums) <= n * Zsum nums / d.
Proof.
  intros Hd. induction nums as [|a nums IH]; simpl.
  - rewrite Z.mul_0_r, Z.div_0_l by lia. lia.
  - apply Z.div_le_lower_bound; [exact Hd|].
    pose proof (Z.mul_div_le (n * a) d Hd).
    pose proof (Z.mul_div_le (n * Zsum nums) d Hd). nia.
Qed.

(** In exact arithmetic the counts fit: for the percentages [a_i / d] with
    [a_1 + ... + a_k = d], the floors of [n * a_i / d] add up to [n] at
    most. *)
Lemma exact_counts_fit (n d : Z) (nums : list Z) :
  0 < d -> Zsum nums = d -> Zsum (map (fun a => n * a / d) nums) <= n.
Proof.
  intros Hd Hsum. pose proof (Zsum_floor_le n d nums Hd) as H.
  rewrite Hsum, Z.div_mul in H by lia. exact H.
Qed.

(** While the requested sizes fit in the pool, every id list has exactly
    the requested size. *)
Lemma slices_lengths (sizes : list Z) :
  forall pool, Forall (fun z => 0 <= z) sizes -> Zsum sizes <= Z.of_nat (length pool) ->
  map (fun idx => Z.of_nat (length idx)) (slices pool sizes) = sizes.
Proof.
  induction sizes as [|ss sizes IH]; intros pool Hpos Hfit; simpl; [reflexivity|].
  apply Forall_cons in Hpos as [Hss Hpos]. simpl in Hfit.
  pose proof (Zsum_nonneg _ Hpos).
  rewrite slice_to_length by lia. rewrite IH; [f_equal; lia | exact Hpos |].
  rewrite slice_from_length by lia. lia.
Qed.

(** Id lists whose concatenation has no duplicate are pairwise disjoint. *)
Lemma concat_NoDup_disjoint (ls : list (list Z)) (i j : nat) (l1 l2 : list Z) (k : Z) :
  NoDup (concat ls) -> i <> j -> ls !! i = Some l1 -> ls !! j = Some l2 ->
  k ∈ l1 -> k ∉ l2.
Proof.
  revert i j. induction ls as [|l ls IH]; intros i j Hnd Hij Hi Hj Hk1 Hk2;
    [discriminate|].
  simpl in Hnd. apply NoDup_app in Hnd as (_ & Hdisj & Hnd).
  destruct i as [|i], j as [|j]; simpl in Hi, Hj; try congruence.
  - injection Hi as ->. apply (Hdisj k Hk1).
    apply list_elem_of_lookup_2 in Hj. apply list_elem_of_In, in_concat.
    exists l2. split; now apply list_elem_of_In.
  - injection Hj as ->. apply (Hdisj k Hk2).
    apply list_elem_of_lookup_2 in Hi. apply list_elem_of_In, in_concat.
    exists l1. split; now apply list_elem_of_In.
  - eapply (IH i j); eauto.
Qed.

Lemma slices_each_NoDup (sizes : list Z) :
  forall pool, NoDup pool -> Forall (fun idx => NoDup idx) (slices pool sizes).
Proof.
  induction sizes as [|ss sizes IH]; intros pool Hnd; simpl; constructor.
  - apply (slice_NoDup pool ss Hnd).
  - apply IH. apply (slice_NoDup pool ss Hnd).
Qed.

(** ** Floats *)

Lemma binary_round_aux_sign (s : bool) (m e : Z) (l : location) :
  finite_sign s (binary_round_aux Float.prec Float.emax s m e l).
Proof.
  unfold binary_round_aux.
  destruct (shr_fexp _ _ m e l) as [mrs' e'].
  destruct (shr_fexp _ _ _ e' loc_Exact) as [mrs'' e''].
  destruct (shr_m mrs''); simpl; auto.
  destruct (e'' <=? _); simpl; auto.
Qed.

Lemma of_int_sign (n : Z) : 0 <= n -> finite_sign false (Float.of_int n).
Proof.
  intros Hn. unfold Float.of_int, binary_normalize.
  destruct n as [|p|p]; simpl; auto; [|lia].
  unfold binary_round. destruct (shl_align _ _ _). apply binary_round_aux_sign.
Qed.

Lemma leb_zero_sign (p : float) : Float.leb Float.zero p = true -> finite_sign false p.
Proof. destruct p as [| | |[] m e]; simpl; auto; discriminate. Qed.

Lemma mul_sign (x y : float) :
  finite_sign false x -> finite_sign false y -> finite_sign false (Float.mul x y).
Proof.
  destruct x as [sx|sx| |sx mx ex], y as [sy|sy| |sy my ey]; simpl; auto.
  intros -> ->. apply binary_round_aux_sign.
Qed.

Lemma to_int_nonneg (x : float) (z : Z) :
  finite_sign false x -> Float.to_int x = inr z -> 0 <= z.
Proof.
  destruct x as [s|s| |s m e]; simpl; try discriminate.
  - intros _ [= <-]. lia.
  - intros -> [= <-]. simpl. apply Z.shiftl_nonneg. lia.
Qed.

(** A non-negative percentage asks for a non-negative number of images. *)
Lemma subset_sizes_nonneg (total : Z) (percentages : list float) (sizes : list Z) :
  0 <= total ->
  Forall (fun p => Float.leb Float.zero p = true) percentages ->
  subset_sizes total percentages = inr sizes ->
  Forall (fun z => 0 <= z) sizes.
Proof.
  intros Ht Hp H. apply mapM_ok in H.
  induction H as [|p z ps zs Hz _ IH]; constructor.
  - apply Forall_cons in Hp as [Hp _].
    apply (to_int_nonneg _ _ (mul_sign _ _ (of_int_sign _ Ht) (leb_zero_sign _ Hp)) Hz).
  - apply IH. now apply Forall_cons in Hp as [_ Hp].
Qed.

(** *** Rounding to binary64 *)

Lemma iter_pos_nat {A} (f : A -> A) (p : positive) :
  forall x, SpecFloat.iter_pos f p x = Nat.iter (Pos.to_nat p) f x.
Proof.
  induction p as [p IH|p IH|]; intros x; cbn [SpecFloat.iter_pos].
  - rewrite !IH, Pos2Nat.inj_xI, <- Nat.iter_add.
    replace (Pos.to_nat p + Pos.to_nat p)%nat with (2 * Pos.to_nat p)%nat by lia.
    now rewrite Nat.iter_succ_r.
  - rewrite !IH, Pos2Nat.inj_xO, <- Nat.iter_add. f_equal. lia.
  - reflexivity.
Qed.

Lemma shift_left_pos (m d : positive) : Z.pos (Pos.iter xO m d) = Z.pos m * 2 ^ Z.pos d.
Proof.
  induction d as [|d IH] using Pos.peano_ind.
  - simpl. lia.
  - rewrite Pos.iter_succ, Pos2Z.inj_succ, Z.pow_succ_r by lia. lia.
Qed.

Lemma digits2_pos_bounds (m : positive) :
  2 ^ (Z.pos (digits2_pos m) - 1) <= Z.pos m < 2 ^ Z.pos (digits2_pos m).
Proof.
  induction m as [m IH|m IH|]; simpl digits2_pos.
  - rewrite Pos2Z.inj_succ.
    replace (Z.succ (Z.pos (digits2_pos m)) - 1) with (Z.succ (Z.pos (digits2_pos m) - 1)) by lia.
    rewrite !Z.pow_succ_r by lia. lia.
  - rewrite Pos2Z.inj_succ.
    replace (Z.succ (Z.pos (digits2_pos m)) - 1) with (Z.succ (Z.pos (digits2_pos m) - 1)) by lia.
    rewrite !Z.pow_succ_r by lia. lia.
  - simpl. lia.
Qed.

Lemma shifted_0 (m : Z) : 0 <= m -> shifted m 0 (Build_shr_record m false false).
Proof.
  intros Hm. split; [exact Hm|]. split; [reflexivity|]. exists 0. simpl.
  repeat split; try lia; discriminate.
Qed.

Lemma half_pow (k : nat) : 2 ^ Z.of_nat (S k) / 2 = 2 ^ Z.of_nat k.
Proof.
  rewrite Nat2Z.inj_succ, Z.pow_succ_r by lia.
  rewrite Z.mul_comm, Z.div_mul by lia. reflexivity.
Qed.

Lemma shifted_S (m : Z) (k : nat) (r : shr_record) :
  shifted m k r -> shifted m (S k) (shr_1 r).
Proof.
  intros (Hm & H0 & t & Ht & Hlt & Hs & Heq).
  destruct r as [mk rb sb]. simpl in *.
  assert (Hhalf : 2 * (2 ^ Z.of_nat k / 2) <= 2 ^ Z.of_nat k).
  { apply Z.mul_div_le. lia. }
  assert (Hpos : 0 <= 2 ^ Z.of_nat k / 2) by (apply Z.div_pos; lia).
  assert (Hrb : rb = true -> 0 < 2 ^ Z.of_nat k / 2).
  { intros ->. destruct k as [|k]; [now specialize (H0 eq_refl)|].
    rewrite half_pow. lia. }
  assert (Hnew : forall (m' : Z) (b : bool),
             0 <= m' -> mk = 2 * m' + (if b then 1 else 0) ->
             shifted m (S k) (Build_shr_record m' b (rb || sb))).
  { intros m' b Hm' Hmk. split; [exact Hm'|]. split; [discriminate|].
    exists ((if rb then 2 ^ Z.of_nat k / 2 else 0) + t). cbn [shr_m shr_r shr_s].
    rewrite half_pow. rewrite Nat2Z.inj_succ, Z.pow_succ_r by lia.
    split; [destruct rb; lia|]. split; [destruct rb; lia|]. split.
    - destruct rb; simpl.
      + split; [intros _; specialize (Hrb eq_refl); lia | reflexivity].
      + rewrite Hs. split; lia.
    - rewrite Heq, Hmk. destruct b, rb; lia. }
  destruct mk as [|p|p]; [|destruct p as [p|p|]|lia].
  - apply (Hnew 0 false); lia.
  - apply (Hnew (Z.pos p) true); lia.
  - apply (Hnew (Z.pos p) false); lia.
  - apply (Hnew 0 true); lia.
Qed.

Lemma shifted_iter (m : Z) (p : positive) :
  0 <= m ->
  shifted m (Pos.to_nat p) (SpecFloat.iter_pos shr_1 p (Build_shr_record m false false)).
Proof.
  intros Hm. rewrite iter_pos_nat.
  induction (Pos.to_nat p) as [|k IH]; [now apply shifted_0|].
  rewrite Nat.iter_succ. now apply shifted_S.
Qed.

(** Rounding to nearest after a shift: the rounded mantissa is the
    quotient or the next integer, and it is within half a unit. *)
Lemma shifted_round (m : Z) (k : nat) (r : shr_record) :
  shifted m k r ->
  let m' := round_nearest_even (shr_m r) (loc_of_shr_record r) in
  shr_m r <= m' <= shr_m r + 1 /\
  shr_m r = m / 2 ^ Z.of_nat k /\
  2 * Z.abs (m' * 2 ^ Z.of_nat k - m) <= 2 ^ Z.of_nat k.
Proof.
  intros (Hm & H0 & t & Ht & Hlt & Hs & Heq). destruct r as [mk rb sb]. simpl in *.
  assert (Hk : 0 < 2 ^ Z.of_nat k) by lia.
  assert (Hhalf : rb = true -> 2 * (2 ^ Z.of_nat k / 2) = 2 ^ Z.of_nat k).
  { intros ->. destruct k as [|k]; [now specialize (H0 eq_refl)|].
    rewrite half_pow, Nat2Z.inj_succ, Z.pow_succ_r by lia. reflexivity. }
  assert (Hq : mk = m / 2 ^ Z.of_nat k).
  { apply (Z.div_unique_pos m (2 ^ Z.of_nat k) mk ((if rb then 2 ^ Z.of_nat k / 2 else 0) + t));
      [|lia].
    destruct rb; [specialize (Hhalf eq_refl)|]; lia. }
  split; [|split; [exact Hq|]].
  - destruct rb, sb; simpl; try lia. destruct (Z.even mk); lia.
  - destruct rb, sb; simpl.
    + specialize (Hhalf eq_refl). assert (0 < t) by now apply Hs. nia.
    + specialize (Hhalf eq_refl).
      assert (t = 0) by (destruct (Z.ltb_spec 0 t) as [H|H]; [apply Hs in H; discriminate | lia]).
      subst t. destruct (Z.even mk); nia.
    + assert (0 < t) by now apply Hs. nia.
    + assert (t = 0) by (destruct (Z.ltb_spec 0 t) as [H|H]; [apply Hs in H; discriminate | lia]).
      subst t. nia.
Qed.

(** What [binary_round_aux] returns for the exact value [m * 2 ^ e]: the
    number itself when its exponent is large enough, and otherwise a
    mantissa within half a unit of the last place, which has 53 bits above
    the least exponent. *)
Lemma binary_round_aux_cases (s : bool) (m : positive) (e : Z) :
  let z := binary_round_aux Float.prec Float.emax s (Z.pos m) e loc_Exact in
  let e0 := fexp Float.prec Float.emax (Z.pos (digits2_pos m) + e) in
  (e0 <= e /\ z = float_pack s (Z.pos m) e) \/
  (e < e0 /\
   exists m1 e1 : Z,
     z = float_pack s m1 e1 /\ 0 <= m1 <= 2 ^ 52 + (2 ^ 52 - 1) /\ e < e1 /\ -1074 <= e1 /\
     2 * Z.abs (m1 * 2 ^ (e1 - e) - Z.pos m) <= 2 ^ (e1 - e) /\
     (-1074 < e1 -> 2 ^ 52 <= m1)).
Proof.
  intros z e0. subst z. unfold binary_round_aux, shr_fexp.
  change (Zdigits2 (Z.pos m)) with (Z.pos (digits2_pos m)). fold e0.
  pose proof (digits2_pos_bounds m) as Hd.
  assert (Hmin : -1074 <= e0) by (unfold e0, fexp, emin, Float.prec, Float.emax; lia).
  destruct (e0 - e) as [|p|p] eqn:Hshift; cbn [shr shr_record_of_loc].
  - left. split; [lia|]. cbn [shr_m loc_of_shr_record round_nearest_even].
    change (Zdigits2 (Z.pos m)) with (Z.pos (digits2_pos m)). fold e0. rewrite Hshift.
    reflexivity.
  - right. split; [lia|].
    pose proof (shifted_round _ _ _ (shifted_iter (Z.pos m) p ltac:(lia))) as Hr.
    cbv zeta in Hr. rewrite positive_nat_Z in Hr.
    set (r := SpecFloat.iter_pos shr_1 p _) in *.
    set (m1 := round_nearest_even (shr_m r) (loc_of_shr_record r)) in *.
    destruct Hr as (Hm1 & Hq & Hnear).
    replace (e + Z.pos p) with e0 by lia.
    assert (Hp : Z.pos p = e0 - e) by lia.
    assert (Hq0 : 0 <= shr_m r) by (rewrite Hq; apply Z.div_pos; lia).
    assert (Hqlt : shr_m r < 2 ^ 53).
    { rewrite Hq. apply Z.div_lt_upper_bound; [lia|].
      rewrite <- Z.pow_add_r by lia.
      eapply Z.lt_le_trans; [apply Hd|]. apply Z.pow_le_mono_r; [lia|].
      unfold e0, fexp, emin, Float.prec, Float.emax in *. lia. }
    assert (Hnormal : -1074 < e0 -> 2 ^ 52 <= shr_m r).
    { intros Hn. rewrite Hq. apply Z.div_le_lower_bound; [lia|].
      rewrite <- Z.pow_add_r by lia.
      eapply Z.le_trans; [|apply Hd]. apply Z.pow_le_mono_r; [lia|].
      unfold e0, fexp, emin, Float.prec, Float.emax in *. lia. }
    destruct (Z.eq_dec m1 (2 ^ 53)) as [Hbig|Hsmall].
    + (* the mantissa was rounded up to 2^53 *)
      exists (2 ^ 52), (e0 + 1). rewrite Hbig.
      split; [|split; [lia|split; [lia|split; [lia|split; [|lia]]]]].
      * change (Zdigits2 (2 ^ 53)) with 54.
        replace (fexp Float.prec Float.emax (54 + e0) - e0) with 1
          by (unfold fexp, emin, Float.prec, Float.emax; lia).
        reflexivity.
      * replace (e0 + 1 - e) with (Z.succ (Z.pos p)) by lia.
        rewrite Z.pow_succ_r by lia. rewrite Hbig in Hnear. lia.
    + exists m1, e0. split; [|split; [lia|split; [lia|split; [lia|split; [|lia]]]]].
      * destruct m1 as [|p1|p1] eqn:Hm1eq; [| |lia].
        -- cbn [Zdigits2]. replace (fexp Float.prec Float.emax (0 + e0) - e0) with
             (fexp Float.prec Float.emax e0 - e0) by (f_equal; f_equal; lia).
           destruct (fexp Float.prec Float.emax e0 - e0) as [|q|q] eqn:Hf; try reflexivity.
           unfold fexp, emin, Float.prec, Float.emax in Hf. lia.
        -- cbn [Zdigits2]. pose proof (digits2_pos_bounds p1) as Hd1.
           assert (Hd53 : Z.pos (digits2_pos p1) <= 53).
           { destruct (Z.le_gt_cases (Z.pos (digits2_pos p1)) 53) as [H|H]; [exact H|].
             exfalso. assert (2 ^ 53 <= 2 ^ (Z.pos (digits2_pos p1) - 1))
               by (apply Z.pow_le_mono_r; lia). lia. }
           destruct (fexp Float.prec Float.emax (Z.pos (digits2_pos p1) + e0) - e0)
             as [|q|q] eqn:Hf; try reflexivity.
           unfold fexp, emin, Float.prec, Float.emax in Hf. lia.
      * rewrite <- Hp. exact Hnear.
  - left. split; [lia|]. cbn [shr_m loc_of_shr_record round_nearest_even].
    change (Zdigits2 (Z.pos m)) with (Z.pos (digits2_pos m)). fold e0. rewrite Hshift.
    reflexivity.
Qed.

(** *** The value of a float, in units of [2 ^ -1074] *)

Lemma binary64_exponent (s : bool) (m : positive) (e : Z) :
  binary64 (S754_finite s m e) -> -1074 <= e.
Proof.
  unfold binary64, valid_binary, bounded, canonical_mantissa. intros H.
  apply andb_prop in H as [H _]. apply Z.eqb_eq in H.
  unfold fexp, emin, Float.prec, Float.emax in H. lia.
Qed.

Lemma percentage_nonneg (p : float) :
  binary64 p -> Float.leb Float.zero p = true -> float_nonneg p.
Proof.
  destruct p as [s|s| |s m e]; intros Hv Hle; simpl; auto.
  - now destruct s.
  - discriminate.
  - split; [now destruct s | now apply binary64_exponent in Hv].
Qed.

(** The binary64 number nearest to [m * 2 ^ e] is an infinity or within a
    relative distance of [2 ^ -53]. *)
Lemma binary_round_units (m : positive) (e : Z) :
  -1074 <= e ->
  let z := binary_round Float.prec Float.emax false m e in
  float_nonneg z /\
  (z <> S754_infinity false ->
   2 ^ 53 * Z.abs (units z - Z.pos m * 2 ^ (e + 1074)) <= units z).
Proof.
  intros He z. subst z. unfold binary_round.
  set (e0 := fexp Float.prec Float.emax (Z.pos (digits2_pos m) + e)).
  assert (Hmin : -1074 <= e0) by (unfold e0, fexp, emin, Float.prec, Float.emax; lia).
  clearbody e0.
  assert (Halign : exists mz ez, shl_align m e e0 = (mz, ez) /\ -1074 <= ez <= e /\
                     Z.pos mz * 2 ^ (ez + 1074) = Z.pos m * 2 ^ (e + 1074)).
  { unfold shl_align. destruct (e0 - e) as [|d|d] eqn:Hd.
    - exists m, e. repeat split; lia.
    - exists m, e. repeat split; lia.
    - exists (Pos.iter xO m d), e0. split; [reflexivity|]. split; [lia|].
      rewrite shift_left_pos. replace (e + 1074) with (Z.pos d + (e0 + 1074)) by lia.
      rewrite (Z.pow_add_r 2 (Z.pos d) (e0 + 1074)) by lia. ring. }
  destruct Halign as (mz & ez & -> & Hez & Hval). rewrite <- Hval.
  destruct (binary_round_aux_cases false mz ez) as [[_ ->]|(_ & m1 & e1 & -> & Hm1 & Hlt & He1 & Hnear & Hnorm)].
  - unfold float_pack. destruct (ez <=? _); simpl.
    + split; [split; [reflexivity | lia]|]. intros _. rewrite Z.sub_diag. simpl. lia.
    + split; [reflexivity | congruence].
  - unfold float_pack. destruct m1 as [|p1|p1]; [lia| |lia].
    destruct (e1 <=? _); simpl; [|split; [reflexivity | congruence]].
    split; [split; [reflexivity | lia]|]. intros _.
    specialize (Hnorm ltac:(lia)).
    replace (e1 + 1074) with ((e1 - ez) + (ez + 1074)) by lia.
    rewrite Z.pow_add_r by lia.
    assert (Hpow : 0 < 2 ^ (ez + 1074)) by (apply Z.pow_pos_nonneg; lia).
    assert (Hd : 0 < 2 ^ (e1 - ez)) by (apply Z.pow_pos_nonneg; lia).
    replace (Z.pos p1 * (2 ^ (e1 - ez) * 2 ^ (ez + 1074)) - Z.pos mz * 2 ^ (ez + 1074))
      with ((Z.pos p1 * 2 ^ (e1 - ez) - Z.pos mz) * 2 ^ (ez + 1074)) by lia.
    rewrite Z.abs_mul, (Z.abs_eq (2 ^ (ez + 1074))) by lia.
    assert (2 ^ 53 * Z.abs (Z.pos p1 * 2 ^ (e1 - ez) - Z.pos mz) <= Z.pos p1 * 2 ^ (e1 - ez)).
    { change (2 ^ 53) with (2 * 2 ^ 52). nia. }
    nia.
Qed.

Lemma units_nonneg (x : float) : 0 <= units x.
Proof. destruct x as [s|s| |s m e]; simpl; lia. Qed.

Lemma shl_align_min (m : positive) (e ez : Z) :
  ez <= e -> Z.pos (fst (shl_align m e ez)) = Z.pos m * 2 ^ (e - ez).
Proof.
  intros H. unfold shl_align. destruct (ez - e) as [|d|d] eqn:Hd; simpl.
  - replace (e - ez) with 0 by lia. simpl. lia.
  - lia.
  - rewrite shift_left_pos. f_equal. f_equal. lia.
Qed.

(** The sum of two non-negative numbers of binary64. *)
Lemma add_units (a b : float) :
  float_nonneg a -> float_nonneg b ->
  float_nonneg (Float.add a b) /\
  (Float.add a b <> S754_infinity false ->
   a <> S754_infinity false /\ b <> S754_infinity false /\
   2 ^ 53 * Z.abs (units (Float.add a b) - (units a + units b)) <= units (Float.add a b)).
Proof.
  intros Ha Hb. unfold Float.add.
  destruct a as [sa|sa| |sa ma ea]; simpl in Ha;
    [|subst sa|contradiction|destruct Ha as [-> Hea]];
    (destruct b as [sb|sb| |sb mb eb]; simpl in Hb;
     [|subst sb|contradiction|destruct Hb as [-> Heb]]);
    cbn [SFadd].
  - destruct sa, sb; simpl; (split; [exact I|]); intros _;
      (split; [discriminate|]); (split; [discriminate|]); lia.
  - split; [reflexivity|]. intros H. congruence.
  - split; [simpl; auto|]. intros _. split; [discriminate|]. split; [discriminate|].
    pose proof (units_nonneg (S754_finite false mb eb)) as Hu.
    cbn [units] in *. rewrite Z.add_0_l, Z.sub_diag. simpl Z.abs. lia.
  - split; [reflexivity|]. intros H. congruence.
  - split; [reflexivity|]. intros H. congruence.
  - split; [reflexivity|]. intros H. congruence.
  - split; [simpl; auto|]. intros _. split; [discriminate|]. split; [discriminate|].
    pose proof (units_nonneg (S754_finite false ma ea)) as Hu.
    cbn [units] in *. rewrite Z.add_0_r, Z.sub_diag. simpl Z.abs. lia.
  - split; [reflexivity|]. intros H. congruence.
  - cbn [cond_Zopp]. set (ez := Z.min ea eb).
    assert (Hez : -1074 <= ez) by (unfold ez; lia).
    assert (Hsum : Z.pos (fst (shl_align ma ea ez)) + Z.pos (fst (shl_align mb eb ez)) =
                   Z.pos (fst (shl_align ma ea ez) + fst (shl_align mb eb ez))) by reflexivity.
    rewrite Hsum. cbn [binary_normalize].
    destruct (binary_round_units (fst (shl_align ma ea ez) + fst (shl_align mb eb ez)) ez Hez)
      as [Hnn Hbound].
    split; [exact Hnn|]. intros Hfin. split; [discriminate|]. split; [discriminate|].
    specialize (Hbound Hfin). rewrite <- Hsum in Hbound.
    rewrite !shl_align_min in Hbound by (unfold ez; lia).
    replace ((Z.pos ma * 2 ^ (ea - ez) + Z.pos mb * 2 ^ (eb - ez)) * 2 ^ (ez + 1074))
      with (Z.pos ma * 2 ^ (ea + 1074) + Z.pos mb * 2 ^ (eb + 1074)) in Hbound; [exact Hbound|].
    replace (ea + 1074) with ((ea - ez) + (ez + 1074)) by lia.
    replace (eb + 1074) with ((eb - ez) + (ez + 1074)) by lia.
    rewrite (Z.pow_add_r 2 (ea - ez)), (Z.pow_add_r 2 (eb - ez)) by (unfold ez; lia). ring.
Qed.

(** Adding a zero changes nothing but the sign of a zero. *)
Lemma add_zero_l (s : bool) (b : float) :
  float_nonneg b ->
  units (Float.add (S754_zero s) b) = units b /\
  (Float.add (S754_zero s) b = S754_infinity false -> b = S754_infinity false) /\
  (float_is_zero b -> float_is_zero (Float.add (S754_zero s) b)).
Proof.
  destruct b as [sb|sb| |sb mb eb]; simpl; try contradiction.
  - intros _. destruct s, sb; simpl; repeat split; auto; discriminate.
  - intros _. repeat split; auto.
  - intros _. repeat split; auto.
Qed.

Lemma add_zero_r (s : bool) (a : float) :
  float_nonneg a ->
  units (Float.add a (S754_zero s)) = units a /\
  (Float.add a (S754_zero s) = S754_infinity false -> a = S754_infinity false) /\
  (float_is_zero a -> float_is_zero (Float.add a (S754_zero s))).
Proof.
  destruct a as [sa|sa| |sa ma ea]; simpl; try contradiction.
  - intros _. destruct s, sa; simpl; repeat split; auto; discriminate.
  - intros _. repeat split; auto.
  - intros _. repeat split; auto.
Qed.

(** *** The sum of the percentages *)

Lemma pow_succ_nat (B : Z) (k : nat) : B ^ Z.of_nat (S k) = B * B ^ Z.of_nat k.
Proof. rewrite Nat2Z.inj_succ, Z.pow_succ_r by lia. reflexivity. Qed.

Lemma pow_add_nat (B : Z) (j k : nat) :
  B ^ Z.of_nat (j + k) = B ^ Z.of_nat j * B ^ Z.of_nat k.
Proof. rewrite Nat2Z.inj_add, Z.pow_add_r by lia. reflexivity. Qed.

Lemma pow_le_succ (B : Z) (k : nat) :
  0 < B -> 0 < B ^ Z.of_nat k <= (B + 1) ^ Z.of_nat k.
Proof.
  intros HB. split; [apply Z.pow_pos_nonneg; lia|].
  apply Z.pow_le_mono_l. lia.
Qed.

(** One more addition costs one more factor [(B + 1) / B]. *)
Lemma sum_bound_add (B A1 A2 a b z : Z) (k1 k2 : nat) :
  0 < B -> 0 <= A1 -> 0 <= A2 -> 0 <= a -> 0 <= b ->
  A1 * B ^ Z.of_nat (S k1) <= a * (B + 1) ^ Z.of_nat (S k1) ->
  A2 * B ^ Z.of_nat (S k2) <= b * (B + 1) ^ Z.of_nat (S k2) ->
  (a + b) * B <= z * (B + 1) ->
  (A1 + A2) * B ^ Z.of_nat (S k1 + S k2) <= z * (B + 1) ^ Z.of_nat (S k1 + S k2).
Proof.
  intros HB HA1 HA2 Ha Hb H1 H2 Hz.
  rewrite !pow_add_nat. rewrite !pow_succ_nat in *.
  pose proof (pow_le_succ B k1 HB) as [Hp1 Hq1].
  pose proof (pow_le_succ B k2 HB) as [Hp2 Hq2].
  set (p1 := B ^ Z.of_nat k1) in *. set (q1 := (B + 1) ^ Z.of_nat k1) in *.
  set (p2 := B ^ Z.of_nat k2) in *. set (q2 := (B + 1) ^ Z.of_nat k2) in *.
  clearbody p1 q1 p2 q2.
  assert (Hz0 : 0 <= z) by nia.
  assert (S1 : A1 * (B * p1) * (B * p2) <= a * ((B + 1) * q1) * (B * q2)).
  { apply Z.le_trans with (a * ((B + 1) * q1) * (B * p2)).
    - apply Z.mul_le_mono_nonneg_r; [nia | exact H1].
    - apply Z.mul_le_mono_nonneg_l; [nia | nia]. }
  assert (S2 : A2 * (B * p2) * (B * p1) <= b * ((B + 1) * q2) * (B * q1)).
  { apply Z.le_trans with (b * ((B + 1) * q2) * (B * p1)).
    - apply Z.mul_le_mono_nonneg_r; [nia | exact H2].
    - apply Z.mul_le_mono_nonneg_l; [nia | nia]. }
  assert (S3 : (a + b) * B * ((B + 1) * (q1 * q2)) <= z * (B + 1) * ((B + 1) * (q1 * q2))).
  { apply Z.mul_le_mono_nonneg_r; [|exact Hz].
    apply Z.mul_nonneg_nonneg; [lia | apply Z.mul_nonneg_nonneg; lia]. }
  replace ((A1 + A2) * (B * p1 * (B * p2)))
    with (A1 * (B * p1) * (B * p2) + A2 * (B * p2) * (B * p1)) by ring.
  replace (z * ((B + 1) * q1 * ((B + 1) * q2)))
    with (z * (B + 1) * ((B + 1) * (q1 * q2))) by ring.
  replace (a * ((B + 1) * q1) * (B * q2)) with (a * B * ((B + 1) * (q1 * q2))) in S1 by ring.
  replace (b * ((B + 1) * q2) * (B * q1)) with (b * B * ((B + 1) * (q1 * q2))) in S2 by ring.
  replace ((a + b) * B * ((B + 1) * (q1 * q2)))
    with (a * B * ((B + 1) * (q1 * q2)) + b * B * ((B + 1) * (q1 * q2))) in S3 by ring.
  lia.
Qed.

Lemma Zsum_app (l1 l2 : list Z) : Zsum (l1 ++ l2) = Zsum l1 + Zsum l2.
Proof. induction l1 as [|x l1 IH]; simpl; lia. Qed.

Lemma Zsum_perm (l l' : list Z) : l ≡ₚ l' -> Zsum l = Zsum l'.
Proof. induction 1; simpl; lia. Qed.

Lemma Zsum_units_nonneg (l : list float) : 0 <= Zsum (map units l).
Proof.
  induction l as [|x l IH]; simpl; [lia|]. pose proof (units_nonneg x). lia.
Qed.

(** A float sum of non-negative numbers is, when finite, below the exact
    sum by a factor [2 ^ 53 / (2 ^ 53 + 1)] per item at most. *)
Lemma float_sum_units (l : list float) (s : float) :
  float_sum l s ->
  Forall float_nonneg l ->
  float_nonneg s /\
  (l = [] -> float_is_zero s) /\
  (s <> S754_infinity false ->
   Zsum (map units l) * (2 ^ 53) ^ Z.of_nat (length l) <=
   units s * (2 ^ 53 + 1) ^ Z.of_nat (length l)).
Proof.
  induction 1 as [|x|l1 l2 a b H1 IH1 H2 IH2|l l' a Hperm H IH]; intros Hall.
  - split; [exact I|]. split; [intros _; exact I|]. intros _. simpl. lia.
  - apply Forall_cons in Hall as [Hx _]. split; [exact Hx|]. split; [discriminate|].
    intros _. simpl. pose proof (units_nonneg x). lia.
  - apply Forall_app in Hall as [Hall1 Hall2].
    destruct (IH1 Hall1) as (Hna & Hza & Hba). destruct (IH2 Hall2) as (Hnb & Hzb & Hbb).
    destruct (add_units a b Hna Hnb) as [Hnz Hadd].
    split; [exact Hnz|]. split.
    + intros Hnil. apply app_eq_nil in Hnil as [-> ->].
      specialize (Hza eq_refl). specialize (Hzb eq_refl).
      destruct a as [sa| | |]; try contradiction.
      now apply (add_zero_l sa b Hnb).
    + intros Hfin. destruct (Hadd Hfin) as (Hfa & Hfb & Hrel).
      specialize (Hba Hfa). specialize (Hbb Hfb).
      rewrite map_app, Zsum_app, length_app.
      pose proof (units_nonneg a) as Hua. pose proof (units_nonneg b) as Hub.
      pose proof (units_nonneg (Float.add a b)) as Huz.
      pose proof (Zsum_units_nonneg l1) as Hs1. pose proof (Zsum_units_nonneg l2) as Hs2.
      destruct l1 as [|x1 l1]; [|destruct l2 as [|x2 l2]].
      * specialize (Hza eq_refl). destruct a as [sa| | |]; try contradiction.
        destruct (add_zero_l sa b Hnb) as (Heq & _ & _). rewrite Heq. simpl. exact Hbb.
      * specialize (Hzb eq_refl). destruct b as [sb| | |]; try contradiction.
        destruct (add_zero_r sb a Hna) as (Heq & _ & _). rewrite Heq.
        simpl Zsum at 2. rewrite Z.add_0_r. simpl length at 2 4. rewrite Nat.add_0_r.
        exact Hba.
      * apply (sum_bound_add (2 ^ 53) _ _ (units a) (units b)); try assumption; lia.
  - assert (Hall' : Forall float_nonneg l) by (now rewrite Hperm).
    destruct (IH Hall') as (Hn & Hz & Hb). split; [exact Hn|]. split.
    + intros ->. apply Hz. now apply Permutation_nil_r.
    + intros Hfin. rewrite <- (Zsum_perm _ _ (Permutation_map units Hperm)).
      rewrite <- (Permutation_length Hperm). now apply Hb.
Qed.

(** *** The counts [int(total_images * perc)] *)

(** [float(n)] is exact below [2 ^ 53]. *)
Lemma of_int_exact (n : Z) :
  0 < n < 2 ^ 53 ->
  exists (m : positive) (e : Z),
    Float.of_int n = S754_finite false m e /\ -52 <= e <= 0 /\ Z.pos m = n * 2 ^ (- e).
Proof.
  intros Hn. destruct n as [|p|p]; [lia| |lia].
  unfold Float.of_int. cbn [binary_normalize]. unfold binary_round.
  pose proof (digits2_pos_bounds p) as Hd.
  assert (Hd53 : Z.pos (digits2_pos p) <= 53).
  { destruct (Z.le_gt_cases (Z.pos (digits2_pos p)) 53) as [H|H]; [exact H|].
    exfalso. assert (2 ^ 53 <= 2 ^ (Z.pos (digits2_pos p) - 1))
      by (apply Z.pow_le_mono_r; lia). lia. }
  replace (fexp Float.prec Float.emax (Z.pos (digits2_pos p) + 0))
    with (Z.pos (digits2_pos p) - 53)
    by (unfold fexp, emin, Float.prec, Float.emax; lia).
  assert (Halign : exists mz ez, shl_align p 0 (Z.pos (digits2_pos p) - 53) = (mz, ez) /\
                     -52 <= ez <= 0 /\ Z.pos mz = Z.pos p * 2 ^ (- ez) /\
                     ez = Z.pos (digits2_pos p) - 53).
  { unfold shl_align. destruct (Z.pos (digits2_pos p) - 53 - 0) as [|d|d] eqn:Hshift.
    - exists p, 0. repeat split; simpl; lia.
    - lia.
    - exists (Pos.iter xO p d), (Z.pos (digits2_pos p) - 53). split; [reflexivity|].
      split; [lia|]. split; [|reflexivity]. rewrite shift_left_pos. f_equal. f_equal. lia. }
  destruct Halign as (mz & ez & -> & Hez & Hmz & Hezd).
  assert (Hlt : Z.pos mz < 2 ^ 53).
  { rewrite Hmz. replace 53 with (Z.pos (digits2_pos p) + - ez) by lia.
    rewrite Z.pow_add_r by lia. apply Z.mul_lt_mono_pos_r; [|apply Hd].
    apply Z.pow_pos_nonneg; lia. }
  pose proof (digits2_pos_bounds mz) as Hdz.
  assert (Hdz53 : Z.pos (digits2_pos mz) <= 53).
  { destruct (Z.le_gt_cases (Z.pos (digits2_pos mz)) 53) as [H|H]; [exact H|].
    exfalso. assert (2 ^ 53 <= 2 ^ (Z.pos (digits2_pos mz) - 1))
      by (apply Z.pow_le_mono_r; lia). lia. }
  destruct (binary_round_aux_cases false mz ez) as [[_ ->]|(Hcontra & _)].
  - exists mz, ez. unfold float_pack.
    replace (ez <=? Float.emax - Float.prec) with true
      by (symmetry; apply Z.leb_le; unfold Float.emax, Float.prec; lia).
    split; [reflexivity|]. split; [exact Hez | exact Hmz].
  - exfalso. unfold fexp, emin, Float.prec, Float.emax in Hcontra. lia.
Qed.

Lemma shiftl_units (m : positive) (e : Z) :
  -1074 <= e -> Z.shiftl (Z.pos m) e * 2 ^ 1074 <= Z.pos m * 2 ^ (e + 1074).
Proof.
  intros He. destruct (Z.le_gt_cases 0 e) as [H|H].
  - rewrite Z.shiftl_mul_pow2, Z.pow_add_r by lia. lia.
  - rewrite Z.shiftl_div_pow2 by lia.
    replace 1074 with (- e + (e + 1074)) at 1 by lia.
    rewrite Z.pow_add_r by lia.
    pose proof (Z.mul_div_le (Z.pos m) (2 ^ (- e)) ltac:(apply Z.pow_pos_nonneg; lia)).
    assert (0 <= 2 ^ (e + 1074)) by (apply Z.pow_nonneg; lia). nia.
Qed.

(** The count [int(n * p)] for a percentage [p], against the exact
    product. *)
Lemma mul_count (n : Z) (p : float) (c : Z) :
  0 <= n < 2 ^ 53 -> float_nonneg p ->
  Float.to_int (Float.mul (Float.of_int n) p) = inr c ->
  0 <= c /\ c * 2 ^ 1074 * (2 ^ 53 - 1) <= n * units p * 2 ^ 53.
Proof.
  intros Hn Hp Hc.
  assert (Hzero : forall s : bool, 0 <= 0 /\ 0 * 2 ^ 1074 * (2 ^ 53 - 1) <= n * units p * 2 ^ 53).
  { intros _. pose proof (units_nonneg p). split; [lia|].
    assert (0 <= n * units p) by (apply Z.mul_nonneg_nonneg; lia). lia. }
  destruct (Z.eq_dec n 0) as [->|Hn0].
  - change (Float.of_int 0) with (S754_zero false) in Hc.
    destruct p as [sp|sp| |sp mp ep]; simpl in Hc; try discriminate;
      injection Hc as <-; apply (Hzero false).
  - destruct (of_int_exact n ltac:(lia)) as (mn & en & Hof & Hen & Hmn). rewrite Hof in Hc.
    destruct p as [sp|sp| |sp mp ep]; simpl in Hp; try contradiction.
    + simpl in Hc. injection Hc as <-. apply (Hzero false).
    + simpl in Hc. discriminate.
    + destruct Hp as [-> Hep]. unfold Float.mul in Hc. cbn [SFmul xorb] in Hc.
      cbn [units].
      assert (Hk : 0 < 2 ^ (- en)) by (apply Z.pow_pos_nonneg; lia).
      destruct (binary_round_aux_cases false (mn * mp) (en + ep))
        as [[He0 Hz]|(_ & m1 & e1 & Hz & Hm1 & Hlt & He1 & Hnear & Hnorm)];
        rewrite Hz in Hc; clear Hz.
      * (* exact product *)
        assert (Hmin : -1074 <= en + ep)
          by (unfold fexp, emin, Float.prec, Float.emax in He0; lia).
        unfold float_pack in Hc. destruct (en + ep <=? _); [|discriminate].
        simpl in Hc. injection Hc as <-.
        split; [apply Z.shiftl_nonneg; lia|].
        pose proof (shiftl_units (mn * mp) (en + ep) Hmin) as Hs.
        assert (Hval : Z.pos (mn * mp) * 2 ^ (en + ep + 1074) = n * (Z.pos mp * 2 ^ (ep + 1074))).
        { rewrite Pos2Z.inj_mul, Hmn.
          replace (ep + 1074) with (- en + (en + ep + 1074)) by lia.
          rewrite (Z.pow_add_r 2 (- en)) by lia. ring. }
        rewrite Hval in Hs.
        assert (0 <= Z.shiftl (Z.pos (mn * mp)) (en + ep)) by (apply Z.shiftl_nonneg; lia).
        nia.
      * unfold float_pack in Hc. destruct m1 as [|p1|p1]; [| |lia].
        { simpl in Hc. injection Hc as <-. apply (Hzero false). }
        destruct (e1 <=? _); [|discriminate]. simpl in Hc. injection Hc as <-.
        split; [apply Z.shiftl_nonneg; lia|].
        destruct (Z.eq_dec e1 (-1074)) as [->|Hne].
        -- (* a subnormal product is below 1 *)
           rewrite Z.shiftl_div_pow2 by lia. rewrite Z.div_small.
           ++ apply (Hzero false).
           ++ split; [lia|]. apply Z.le_lt_trans with (2 ^ 52 + (2 ^ 52 - 1)); [lia|].
              change (2 ^ 52 + (2 ^ 52 - 1)) with (2 ^ 53 - 1).
              assert (2 ^ 53 <= 2 ^ (- -1074)) by (apply Z.pow_le_mono_r; lia). lia.
        -- specialize (Hnorm ltac:(lia)).
           pose proof (shiftl_units p1 e1 He1) as Hs.
           assert (Hd : 0 < 2 ^ (e1 - (en + ep))) by (apply Z.pow_pos_nonneg; lia).
           assert (Hrel : Z.pos p1 * 2 ^ (e1 - (en + ep)) * (2 ^ 53 - 1) <=
                          Z.pos (mn * mp) * 2 ^ 53).
           { change (2 ^ 53) with (2 * 2 ^ 52) in *. nia. }
           (* scale by [2 ^ (ep + 1074)] and cancel [2 ^ -en] *)
           assert (Hscale : 0 < 2 ^ (ep + 1074)) by (apply Z.pow_pos_nonneg; lia).
           assert (Hexp : 2 ^ (e1 - (en + ep)) * 2 ^ (ep + 1074) = 2 ^ (- en) * 2 ^ (e1 + 1074)).
           { rewrite <- !Z.pow_add_r by lia. f_equal. lia. }
           assert (H1 : Z.pos p1 * 2 ^ (e1 + 1074) * (2 ^ 53 - 1) * 2 ^ (- en) <=
                        n * (Z.pos mp * 2 ^ (ep + 1074)) * 2 ^ 53 * 2 ^ (- en)).
           { replace (Z.pos p1 * 2 ^ (e1 + 1074) * (2 ^ 53 - 1) * 2 ^ (- en))
               with (Z.pos p1 * (2 ^ (- en) * 2 ^ (e1 + 1074)) * (2 ^ 53 - 1)) by ring.
             rewrite <- Hexp.
             replace (n * (Z.pos mp * 2 ^ (ep + 1074)) * 2 ^ 53 * 2 ^ (- en))
               with (Z.pos mn * Z.pos mp * 2 ^ 53 * 2 ^ (ep + 1074)) by (rewrite Hmn; ring).
             rewrite <- Pos2Z.inj_mul.
             replace (Z.pos p1 * (2 ^ (e1 - (en + ep)) * 2 ^ (ep + 1074)) * (2 ^ 53 - 1))
               with (Z.pos p1 * 2 ^ (e1 - (en + ep)) * (2 ^ 53 - 1) * 2 ^ (ep + 1074)) by ring.
             apply Z.mul_le_mono_nonneg_r; [lia | exact Hrel]. }
           apply Z.mul_le_mono_pos_r in H1; [|exact Hk].
           assert (0 <= Z.shiftl (Z.pos p1) e1) by (apply Z.shiftl_nonneg; lia).
           nia.
Qed.

Lemma subset_sizes_units (n : Z) (percentages : list float) (sizes : list Z) :
  0 <= n < 2 ^ 53 -> Forall float_nonneg percentages ->
  subset_sizes n percentages = inr sizes ->
  Zsum sizes * 2 ^ 1074 * (2 ^ 53 - 1) <= n * Zsum (map units percentages) * 2 ^ 53.
Proof.
  intros Hn Hall H. apply mapM_ok in H.
  induction H as [|p c ps cs Hc _ IH]; simpl; [lia|].
  apply Forall_cons in Hall as [Hp Hall].
  destruct (mul_count n p c Hn Hp Hc) as [_ Hcount]. specialize (IH Hall). lia.
Qed.

(** A non-negative number that compares equal to [1] is [1]. *)
Lemma eqb_one (s : float) :
  float_nonneg s -> Float.eqb s (Float.of_int 1) = true ->
  s <> S754_infinity false /\ units s = 2 ^ 1074.
Proof.
  change (Float.of_int 1) with (S754_finite false 4503599627370496 (-52)).
  destruct s as [sg|sg| |sg m e]; simpl; try contradiction.
  - intros _. unfold Float.eqb, SFeqb. simpl. discriminate.
  - intros ->. unfold Float.eqb, SFeqb. simpl. discriminate.
  - intros [-> He]. unfold Float.eqb, SFeqb. cbn [SFcompare].
    destruct (Z.compare_spec e (-52)) as [->|H|H]; try discriminate.
    destruct (Pos.compare_cont Eq m 4503599627370496) eqn:Hm; try discriminate.
    apply Pos.compare_eq in Hm. subst m.
    intros _. split; [discriminate|]. vm_compute. reflexivity.
Qed.

(** [(1 + 1/B) ^ k <= 1 / (1 - k/B)] *)
Lemma pow_succ_bound (B : Z) (k : nat) :
  Z.of_nat k <= B ->
  (B + 1) ^ Z.of_nat k * (B - Z.of_nat k) <= B * B ^ Z.of_nat k.
Proof.
  intros Hk. induction k as [|k IH]; [simpl; lia|].
  rewrite !pow_succ_nat. specialize (IH ltac:(lia)).
  assert (HB : 0 < B) by lia.
  pose proof (pow_le_succ B k HB) as [Hp Hq].
  set (p := B ^ Z.of_nat k) in *. set (q := (B + 1) ^ Z.of_nat k) in *. clearbody p q.
  rewrite Nat2Z.inj_succ. unfold Z.succ.
  apply Z.le_trans with (q * (B * (B - Z.of_nat k))); [|nia].
  replace ((B + 1) * q * (B - (Z.of_nat k + 1))) with (q * ((B + 1) * (B - (Z.of_nat k + 1))))
    by ring.
  apply Z.mul_le_mono_nonneg_l; [lia | nia].
Qed.

(** The arithmetic of the sum check: counts that are at most
    [(1 + 2^-53) / (1 - 2^-53)] above [n * p], for percentages whose exact
    sum is at most [(1 + 2^-53) ^ k], add up to [n] at most as long as
    [(n + 1) * (k + 1) < 2 ^ 53]. *)
Lemma counts_fit (n S U : Z) (k : nat) :
  0 <= n -> 0 <= S -> 0 <= U ->
  (n + 1) * (Z.of_nat k + 1) < 2 ^ 53 ->
  S * 2 ^ 1074 * (2 ^ 53 - 1) <= n * U * 2 ^ 53 ->
  U * (2 ^ 53) ^ Z.of_nat k <= 2 ^ 1074 * (2 ^ 53 + 1) ^ Z.of_nat k ->
  S <= n.
Proof.
  set (B := 2 ^ 53). set (T := 2 ^ 1074).
  assert (HB : 0 < B) by (apply Z.pow_pos_nonneg; lia).
  assert (HT : 0 < T) by (apply Z.pow_pos_nonneg; lia).
  clearbody B T. intros Hn HS HU Hsize Hcounts Hsum.
  assert (Hk : Z.of_nat k < B) by nia.
  pose proof (pow_succ_bound B k ltac:(lia)) as Hpow.
  pose proof (pow_le_succ B k HB) as [Hp Hq].
  set (p := B ^ Z.of_nat k) in *. set (q := (B + 1) ^ Z.of_nat k) in *. clearbody p q.
  destruct (Z.le_gt_cases S n) as [H|H]; [exact H|]. exfalso.
  (* S (B - 1) p <= n B q *)
  assert (H1 : S * (B - 1) * p * T <= n * B * q * T).
  { apply Z.le_trans with (n * U * B * p).
    - replace (S * (B - 1) * p * T) with (S * T * (B - 1) * p) by ring.
      apply Z.mul_le_mono_nonneg_r; [lia | exact Hcounts].
    - replace (n * U * B * p) with (n * B * (U * p)) by ring.
      replace (n * B * q * T) with (n * B * (T * q)) by ring.
      apply Z.mul_le_mono_nonneg_l; [nia | exact Hsum]. }
  apply Z.mul_le_mono_pos_r in H1; [|exact HT].
  (* times (B - k), then the bound on q *)
  assert (H2 : S * (B - 1) * (B - Z.of_nat k) * p <= n * B * B * p).
  { apply Z.le_trans with (n * B * (q * (B - Z.of_nat k))).
    - replace (S * (B - 1) * (B - Z.of_nat k) * p) with (S * (B - 1) * p * (B - Z.of_nat k))
        by ring.
      replace (n * B * (q * (B - Z.of_nat k))) with (n * B * q * (B - Z.of_nat k)) by ring.
      apply Z.mul_le_mono_nonneg_r; [lia | exact H1].
    - replace (n * B * B * p) with (n * B * (B * p)) by ring.
      apply Z.mul_le_mono_nonneg_l; [nia | exact Hpow]. }
  apply Z.mul_le_mono_pos_r in H2; [|exact Hp].
  assert (H3 : (n + 1) * ((B - 1) * (B - Z.of_nat k)) <= n * B * B).
  { apply Z.le_trans with (S * (B - 1) * (B - Z.of_nat k)); [|exact H2].
    rewrite <- Z.mul_assoc. apply Z.mul_le_mono_nonneg_r; [nia | lia]. }
  nia.
Qed.

(** When the sum check passes, the counts fit in the dataset. *)
Lemma sum_check_counts_fit (np_sum : list float -> float) (total : Z)
    (percentages : list float) (sizes : list Z) :
  0 <= total ->
  Forall binary64 percentages ->
  Forall (fun p => Float.leb Float.zero p = true) percentages ->
  float_sum percentages (np_sum percentages) ->
  (total + 1) * (Z.of_nat (length percentages) + 1) < 2 ^ 53 ->
  Float.eqb (np_sum percentages) (Float.of_int 1) = true ->
  subset_sizes total percentages = inr sizes ->
  Zsum sizes <= total.
Proof.
  intros Ht Hbin Hle Hsum Hsize Hone Hsizes.
  assert (Hall : Forall float_nonneg percentages).
  { apply Forall_forall. intros p Hp. apply percentage_nonneg.
    - exact (proj1 (Forall_forall _ _) Hbin p Hp).
    - exact (proj1 (Forall_forall _ _) Hle p Hp). }
  destruct (float_sum_units _ _ Hsum Hall) as (Hnn & _ & Hbound).
  destruct (eqb_one _ Hnn Hone) as [Hfin Hunits].
  specialize (Hbound Hfin). rewrite Hunits in Hbound.
  apply (counts_fit total (Zsum sizes) (Zsum (map units percentages)) (length percentages)).
  - exact Ht.
  - apply Zsum_nonneg. apply (subset_sizes_nonneg total percentages); assumption.
  - apply Zsum_units_nonneg.
  - exact Hsize.
  - apply subset_sizes_units; [nia | exact Hall | exact Hsizes].
  - exact Hbound.
Qed.

Lemma np_sum_in_order_float_sum (xs : list float) : float_sum xs (np_sum_in_order xs).
Proof.
  unfold np_sum_in_order.
  assert (H : forall acc l, float_sum l acc ->
              float_sum (l ++ xs) (fold_left Float.add xs acc)).
  { induction xs as [|x xs IH]; intros acc l Hl; simpl.
    - now rewrite app_nil_r.
    - replace (l ++ x :: xs) with ((l ++ [x]) ++ xs) by (now rewrite <- app_assoc).
      apply IH. apply float_sum_add; [exact Hl | apply float_sum_item]. }
  apply (H Float.zero [] float_sum_nil).
Qed.

(** For two percentages, [1.0] and [2 ^ -60], the sum check passes; of
    [2 ^ 60] images they ask for [2 ^ 60] and for one more. *)
Example counts_may_exceed_total :
  Float.eqb (np_sum_in_order [Float.of_int 1; Float.lit 1 (2 ^ 60)]) (Float.of_int 1) = true /\
  subset_sizes (2 ^ 60) [Float.of_int 1; Float.lit 1 (2 ^ 60)] = inr [2 ^ 60; 1].
Proof. split; vm_compute; reflexivity. Qed.

(** ** [split] *)

Lemma pool_ok (shuffle : list Z -> list Z) (h : Heap) (self : CocoDataset) (random : bool) :
  (forall l, shuffle l ≡ₚ l) -> dataset_ok h self ->
  pool shuffle self random ⊆ keys (images self) /\ NoDup (pool shuffle self random) /\
  length (pool shuffle self random) = length (keys (images self)).
Proof.
  intros Hsh Hok.
  assert (Hnd : NoDup (keys (images self))).
  { rewrite (ok_images _ _ Hok). apply to_dict_keys_NoDup. }
  unfold pool. destruct random.
  - split; [|split].
    + intros k Hk. now rewrite <- (Hsh (keys (images self))).
    + now rewrite (Hsh (keys (images self))).
    + now rewrite (Hsh (keys (images self))).
  - split; [|split]; [reflexivity | exact Hnd | reflexivity].
Qed.

Lemma split_ok_inv (np_sum : list float -> float) (shuffle : list Z -> list Z)
    (h : Heap) (self : CocoDataset) (percentages : list float) (random : bool)
    (r : Heap * list CocoDataset) :
  split np_sum shuffle h self percentages random = inr r ->
  Float.eqb (np_sum percentages) (Float.of_int 1) = true /\
  exists sizes, subset_sizes (total_images self) percentages = inr sizes /\
    split_loop h self (pool shuffle self random) sizes = inr r.
Proof.
  unfold split. destruct (Float.eqb _ _); simpl; [|discriminate].
  intros H. apply bind_ok in H as (sizes & Hs & H). split; [reflexivity|].
  exists sizes. split; [exact Hs | exact H].
Qed.

Lemma split_image_ids (np_sum : list float -> float) (shuffle : list Z -> list Z)
    (h : Heap) (self : CocoDataset) (percentages : list float) (random : bool)
    (h' : Heap) (subsets : list CocoDataset) (sizes : list Z) :
  (forall l, shuffle l ≡ₚ l) -> dataset_ok h self ->
  subset_sizes (total_images self) percentages = inr sizes ->
  split_loop h self (pool shuffle self random) sizes = inr (h', subsets) ->
  map (image_ids h') subsets = slices (pool shuffle self random) sizes.
Proof.
  intros Hsh Hok Hs H.
  destruct (pool_ok shuffle h self random Hsh Hok) as (Hsub & Hnd & _).
  apply split_loop_spec in H as [_ H]; [|assumption..].
  induction H as [|idx s idxs ss Hspec _ IH]; simpl; [reflexivity|].
  now rewrite IH, (spec_image_ids _ _ _ _ _ Hspec).
Qed.

(** The images that the loop consumes: all requested sizes as long as the
    pool lasts. *)
Lemma slices_total_length (sizes : list Z) :
  forall pool, Forall (fun z => 0 <= z) sizes ->
  Z.of_nat (length (concat (slices pool sizes))) =
  Z.min (Zsum sizes) (Z.of_nat (length pool)).
Proof.
  induction sizes as [|ss sizes IH]; intros pool Hpos; simpl; [lia|].
  apply Forall_cons in Hpos as [Hss Hpos]. pose proof (Zsum_nonneg _ Hpos).
  rewrite length_app, Nat2Z.inj_add, IH by exact Hpos.
  unfold slice_to, slice_from. destruct (Z.leb_spec 0 ss); [|lia].
  rewrite length_take, length_drop. lia.
Qed.

(** Whenever [split] returns for non-negative percentages, the image-id
    sets of the subsets are pairwise disjoint, and the subsets hold in all
    [min (sum of the counts, total)] images, where the counts are
    [int(total_images * perc)]: as long as the counts fit in the dataset,
    subset number [i] holds exactly [int(total_images * perc_i)] images. *)
Lemma split_subsets_disjoint (np_sum : list float -> float) (shuffle : list Z -> list Z)
    (h : Heap) (self : CocoDataset) (percentages : list float) (random : bool)
    (h' : Heap) (subsets : list CocoDataset) :
  (forall l, shuffle l ≡ₚ l) ->
  dataset_ok h self ->
  Forall (fun p => Float.leb Float.zero p = true) percentages ->
  split np_sum shuffle h self percentages random = inr (h', subsets) ->
  exists sizes : list Z,
    Float.eqb (np_sum percentages) (Float.of_int 1) = true /\
    subset_sizes (total_images self) percentages = inr sizes /\
    (forall (i j : nat) (s1 s2 : CocoDataset) (k : Z),
        i <> j -> subsets !! i = Some s1 -> subsets !! j = Some s2 ->
        k ∈ image_ids h' s1 -> k ∉ image_ids h' s2) /\
    Z.of_nat (size (union_of_ids h' subsets)) = Z.min (Zsum sizes) (total_images self) /\
    (Zsum sizes <= total_images self ->
       map (fun s => Z.of_nat (length (image_ids h' s))) subsets = sizes /\
       Z.of_nat (size (union_of_ids h' subsets)) = Zsum sizes).
Proof.
  intros Hsh Hok Hnonneg H.
  apply split_ok_inv in H as (Hsum & sizes & Hsizes & Hloop).
  exists sizes. split; [exact Hsum|]. split; [exact Hsizes|].
  pose proof (split_image_ids np_sum shuffle h self percentages random h' subsets sizes
                Hsh Hok Hsizes Hloop) as Hids.
  destruct (pool_ok shuffle h self random Hsh Hok) as (Hsub & Hnd & Hlen).
  assert (Hpos : Forall (fun z => 0 <= z) sizes).
  { apply (subset_sizes_nonneg (total_images self) percentages); [|assumption..].
    unfold total_images. lia. }
  assert (Hsize : Z.of_nat (size (union_of_ids h' subsets)) =
                  Z.min (Zsum sizes) (total_images self)).
  { unfold union_of_ids. rewrite Hids, size_list_to_set by now apply slices_NoDup.
    rewrite slices_total_length by exact Hpos. unfold total_images. now rewrite Hlen. }
  split; [|split; [exact Hsize|]].
  - intros i j s1 s2 k Hij Hi Hj.
    apply (concat_NoDup_disjoint (map (image_ids h') subsets) i j).
    + rewrite Hids. now apply slices_NoDup.
    + exact Hij.
    + now rewrite list_lookup_fmap, Hi.
    + now rewrite list_lookup_fmap, Hj.
  - intros Hfit. split; [|lia].
    rewrite <- (slices_lengths sizes (pool shuffle self random) Hpos).
    + rewrite <- Hids, map_map. reflexivity.
    + rewrite Hlen. exact Hfit.
Qed.

(** C1. For non-negative percentages of binary64 whose float sum, as
    [np.sum] adds it up, compares equal to 1, and for a dataset with
    [(total_images + 1) * (number of percentages + 1) < 2 ^ 53], a [split]
    that returns gives subsets whose image-id sets are pairwise disjoint;
    subset number [i] holds exactly [int(total_images * perc_i)] images, and
    the union holds the sum of these counts, which is at most
    [total_images] and may be less. *)
Theorem split_partition (np_sum : list float -> float) (shuffle : list Z -> list Z)
    (h : Heap) (self : CocoDataset) (percentages : list float) (random : bool)
    (h' : Heap) (subsets : list CocoDataset) :
  (forall l, shuffle l ≡ₚ l) ->
  dataset_ok h self ->
  Forall binary64 percentages ->
  Forall (fun p => Float.leb Float.zero p = true) percentages ->
  float_sum percentages (np_sum percentages) ->
  (total_images self + 1) * (Z.of_nat (length percentages) + 1) < 2 ^ 53 ->
  split np_sum shuffle h self percentages random = inr (h', subsets) ->
  exists sizes : list Z,
    Float.eqb (np_sum percentages) (Float.of_int 1) = true /\
    subset_sizes (total_images self) percentages = inr sizes /\
    (forall (i j : nat) (s1 s2 : CocoDataset) (k : Z),
        i <> j -> subsets !! i = Some s1 -> subsets !! j = Some s2 ->
        k ∈ image_ids h' s1 -> k ∉ image_ids h' s2) /\
    map (fun s => Z.of_nat (length (image_ids h' s))) subsets = sizes /\
    Z.of_nat (size (union_of_ids h' subsets)) = Zsum sizes /\
    Zsum sizes <= total_images self.
Proof.
  intros Hsh Hok Hbin Hnonneg Hsum Hsize H.
  destruct (split_subsets_disjoint np_sum shuffle h self percentages random h' subsets
              Hsh Hok Hnonneg H) as (sizes & Hone & Hsizes & Hdisj & _ & Hfit).
  assert (Hle : Zsum sizes <= total_images self).
  { apply (sum_check_counts_fit np_sum (total_images self) percentages sizes);
      try assumption. unfold total_images. lia. }
  destruct (Hfit Hle) as [Hlen Hunion].
  exists sizes. repeat (split; [assumption|]). exact Hle.
Qed.

Lemma first_annotation_key (src : list Annotation) (k : Z) (a : Annotation) :
  first_annotation src k = Some a -> ann_image_id a = k.
Proof.
  unfold first_annotation. intros H.
  destruct (group ann_image_id k src) as [|a0 g] eqn:Hg; [discriminate|].
  injection H as ->.
  assert (Hin : a ∈ group ann_image_id k src) by (rewrite Hg; apply list_elem_of_here).
  now apply group_elem in Hin.
Qed.

(** One annotation per image id: over distinct ids, a list that holds the
    first annotation of each id holds, for each id, that annotation only. *)
Lemma one_annotation_per_id (src : list Annotation) (idx : list Z) (anns : list Annotation)
    (k : Z) :
  NoDup idx ->
  Forall2 (fun k a => first_annotation src k = Some a) idx anns ->
  k ∈ idx ->
  exists a, first_annotation src k = Some a /\ group ann_image_id k anns = [a].
Proof.
  intros Hnd H. revert Hnd.
  induction H as [|k0 a0 idx anns H0 Hrest IH]; intros Hnd Hk.
  - now apply elem_of_nil in Hk.
  - apply NoDup_cons in Hnd as [Hk0 Hnd].
    pose proof (first_annotation_key _ _ _ H0) as Hkey0.
    unfold group. rewrite filter_cons.
    destruct (decide (has_key ann_image_id k a0)) as [Hd|Hd]; unfold has_key in Hd.
    + assert (Hkk : k0 = k) by congruence. clear Hd Hkey0. subst k0.
      exists a0. split; [exact H0|]. f_equal.
      apply (proj2 (group_nil ann_image_id k anns)).
      intros Hin. apply Hk0. clear -Hrest Hin.
      induction Hrest as [|k1 a1 idx anns H1 _ IH]; [now apply elem_of_nil in Hin|].
      simpl in Hin. apply elem_of_cons in Hin as [->|Hin].
      * rewrite (first_annotation_key _ _ _ H1). apply list_elem_of_here.
      * apply list_elem_of_further. now apply IH.
    + apply elem_of_cons in Hk as [->|Hk]; [congruence|].
      apply IH; assumption.
Qed.

(** C2. In every subset that [split] returns, every image of the subset
    has exactly one annotation: the first annotation that the store of the
    source holds for that image id.  The other annotations of the image are
    not in the subset. *)
Theorem split_keeps_first_annotation (np_sum : list float -> float)
    (shuffle : list Z -> list Z) (h : Heap) (self : CocoDataset)
    (percentages : list float) (random : bool) (h' : Heap)
    (subsets : list CocoDataset) (s : CocoDataset) (k : Z) :
  (forall l, shuffle l ≡ₚ l) ->
  dataset_ok h self ->
  split np_sum shuffle h self percentages random = inr (h', subsets) ->
  s ∈ subsets ->
  k ∈ image_ids h' s ->
  exists a : Annotation,
    head (group ann_image_id k (store_annotations h self)) = Some a /\
    group ann_image_id k (store_annotations h' s) = [a] /\
    annotations s = tree_annotations s.
Proof.
  intros Hsh Hok H Hs Hk.
  apply split_ok_inv in H as (_ & sizes & _ & Hloop).
  destruct (pool_ok shuffle h self random Hsh Hok) as (Hsub & Hnd & _).
  apply split_loop_spec in Hloop as [_ Hall]; [|assumption..].
  pose proof (slices_each_NoDup sizes _ Hnd) as Hnds.
  assert (Hex : exists idx, NoDup idx /\
            subset_spec (store_annotations h self) (tree_images self) h' idx s).
  { clear -Hall Hnds Hs. induction Hall as [|idx s0 idxs ss Hspec _ IH].
    - now apply elem_of_nil in Hs.
    - apply Forall_cons in Hnds as [Hnd0 Hnds].
      apply elem_of_cons in Hs as [->|Hs]; [eauto | now apply IH]. }
  destruct Hex as (idx & Hndi & Hspec).
  rewrite (spec_image_ids _ _ _ _ _ Hspec) in Hk.
  destruct (one_annotation_per_id _ idx _ k Hndi (spec_annotations _ _ _ _ _ Hspec) Hk)
    as (a & Ha & Hg).
  exists a. split; [exact Ha|]. split; [exact Hg|]. apply (spec_alias _ _ _ _ _ Hspec).
Qed.

Lemma mapM_raise_inv {A B} (f : A -> Err B) (l : list A) (e : PyError) :
  mapM f l = inl e -> exists x, x ∈ l /\ f x = inl e.
Proof.
  induction l as [|x l IH]; simpl; [discriminate|].
  destruct (f x) as [e'|y] eqn:Hx; simpl.
  - intros [= <-]. exists x. split; [apply list_elem_of_here | exact Hx].
  - destruct (mapM f l) as [e'|ys]; simpl; [|discriminate].
    intros [= <-]. destruct (IH eq_refl) as (x' & Hin & Hx').
    exists x'. split; [now apply list_elem_of_further | exact Hx'].
Qed.

Lemma first_of_error {A} (d : dict (list A)) (k : Z) (e : PyError) :
  first_of d k = inl e -> lookup_error e.
Proof.
  unfold first_of, dict_getitem, list_getitem.
  destruct (dict_lookup d k) as [g|]; simpl.
  - destruct (Z.ltb _ _); [destruct (lookup _ g)|]; try discriminate;
      intros [= <-]; exact I.
  - intros [= <-]. exact I.
Qed.

Lemma split_loop_error (self : CocoDataset) (sizes : list Z) :
  forall (h : Heap) (pool : list Z) (e : PyError),
  split_loop h self pool sizes = inl e -> lookup_error e.
Proof.
  induction sizes as [|ss sizes IH]; intros h pool e H; [discriminate|].
  rewrite split_loop_cons in H. cbv zeta in H.
  destruct (mapM (first_of (images self)) _) as [e1|irefs] eqn:H1; cbn [bind] in H.
  { injection H as <-. apply mapM_raise_inv in H1 as (k & _ & Hk).
    exact (first_of_error _ _ _ Hk). }
  destruct (mapM _ (keys _)) as [e2|picked] eqn:H2; cbn [bind] in H.
  { injection H as <-. apply mapM_raise_inv in H2 as (k & _ & Hk).
    exact (first_of_error _ _ _ Hk). }
  destruct (split_loop _ self _ sizes) as [e3|[h2 subs]] eqn:H3; cbn [bind] in H.
  - injection H as <-. exact (IH _ _ _ H3).
  - discriminate.
Qed.

Lemma subset_sizes_error (total : Z) (percentages : list float) (e : PyError) :
  subset_sizes total percentages = inl e -> e = ValueError \/ e = OverflowError.
Proof.
  intros H. apply mapM_raise_inv in H as (p & _ & Hp).
  unfold Float.to_int in Hp.
  destruct (Float.mul _ p); try discriminate; injection Hp as <-; auto.
Qed.

(** C4. [split] raises the [AssertionError] of its first statement (the
    spec's InvalidSplitError) exactly when the sum of the percentages that
    [np.sum] returns is not equal to 1, compared without any tolerance; when
    it is equal to 1 no [AssertionError] is raised, whatever else happens. *)
Theorem split_invalid_percentages (np_sum : list float -> float)
    (shuffle : list Z -> list Z) (h : Heap) (self : CocoDataset)
    (percentages : list float) (random : bool) :
  (exists msg, split np_sum shuffle h self percentages random = inl (AssertionError msg))
  <-> Float.eqb (np_sum percentages) (Float.of_int 1) = false.
Proof.
  unfold split. destruct (Float.eqb _ _); simpl.
  - split; [|discriminate]. intros [msg H]. exfalso.
    destruct (subset_sizes _ percentages) as [e|sizes] eqn:Hs; cbn [bind] in H.
    + injection H as ->. apply subset_sizes_error in Hs as [Hs|Hs]; discriminate.
    + apply split_loop_error in H. exact H.
  - split; [reflexivity|]. intros _. eauto.
Qed.

Lemma first_absent_exists (present : Z -> bool) (ks : list Z) (k : Z) :
  k ∈ ks -> present k = false -> exists k', first_absent present ks = Some k'.
Proof.
  intros Hin Hk. destruct (first_absent present ks) as [k'|] eqn:H; [eauto|].
  apply first_absent_None in H.
  pose proof (proj1 (Forall_forall _ _) H k Hin) as Hp. simpl in Hp. congruence.
Qed.

(** C10. When the percentages pass the assertion and some image id that is
    selected into a subset has no annotation in the store of the source,
    [split] returns no subset: it raises the [KeyError] of a selected image
    id without annotations (the first one that the loop meets). *)
Theorem split_raises_on_unannotated_image (np_sum : list float -> float)
    (shuffle : list Z -> list Z) (h : Heap) (self : CocoDataset)
    (percentages : list float) (random : bool) (sizes : list Z) (k : Z) :
  (forall l, shuffle l ≡ₚ l) ->
  dataset_ok h self ->
  Float.eqb (np_sum percentages) (Float.of_int 1) = true ->
  subset_sizes (total_images self) percentages = inr sizes ->
  k ∈ selected shuffle self random sizes ->
  group ann_image_id k (store_annotations h self) = [] ->
  exists k' : Z,
    k' ∈ selected shuffle self random sizes /\
    group ann_image_id k' (store_annotations h self) = [] /\
    split np_sum shuffle h self percentages random = inl (KeyError (IntKey k')).
Proof.
  intros Hsh Hok Hsum Hsizes Hk Hnone.
  destruct (pool_ok shuffle h self random Hsh Hok) as (Hsub & Hnd & _).
  destruct (first_absent_exists (in_group ann_image_id (store_annotations h self))
              _ k Hk) as [k' Hk'].
  { unfold in_group. now rewrite Hnone. }
  exists k'. destruct (first_absent_Some _ _ _ Hk') as [Hin Habs].
  split; [exact Hin|]. split.
  - unfold in_group in Habs. now destruct (group ann_image_id k' _).
  - unfold split. rewrite Hsum. simpl. fold (total_images self). rewrite Hsizes.
    cbn [bind]. fold (pool shuffle self random).
    now apply split_loop_raises.
Qed.

(** [split] returns when the percentages pass the assertion, the subset
    sizes are computed and every selected image id has an annotation. *)
Lemma split_returns (np_sum : list float -> float) (shuffle : list Z -> list Z)
    (h : Heap) (self : CocoDataset) (percentages : list float) (random : bool)
    (sizes : list Z) :
  (forall l, shuffle l ≡ₚ l) ->
  dataset_ok h self ->
  Float.eqb (np_sum percentages) (Float.of_int 1) = true ->
  subset_sizes (total_images self) percentages = inr sizes ->
  Forall (fun k => group ann_image_id k (store_annotations h self) <> [])
         (selected shuffle self random sizes) ->
  exists r, split np_sum shuffle h self percentages random = inr r.
Proof.
  intros Hsh Hok Hsum Hsizes Hall.
  destruct (pool_ok shuffle h self random Hsh Hok) as (Hsub & Hnd & _).
  unfold split. rewrite Hsum. simpl. fold (total_images self). rewrite Hsizes.
  cbn [bind]. fold (pool shuffle self random).
  apply split_loop_total; [assumption..|].
  apply first_absent_None. eapply Forall_impl; [exact Hall|].
  intros k Hk; simpl in Hk. unfold in_group.
  now destruct (group ann_image_id k _).
Qed.

(** ** Scenarios of [split] *)

Lemma no_shuffle_perm (l : list Z) : no_shuffle l ≡ₚ l.
Proof. reflexivity. Qed.

Example ten_images_split_eq :
  ten_images_split = inr (ten_images_split_heap, ten_images_subsets).
Proof. vm_compute. reflexivity. Qed.

(** The split of the 10-image store by [(0.5, 0.3, 0.2)] without shuffling:
    subsets of 5, 3 and 2 images, in that order. *)
Lemma split_partition_witness :
  split np_sum_in_order no_shuffle (fst ten_images) (snd ten_images) half_third_fifth false
    = inr (ten_images_split_heap, ten_images_subsets) /\
  map (image_ids ten_images_split_heap) ten_images_subsets =
    [[1; 2; 3; 4; 5]; [6; 7; 8]; [9; 10]] /\
  map (fun s => Z.of_nat (length (image_ids ten_images_split_heap s))) ten_images_subsets =
    [5; 3; 2] /\
  Z.of_nat (size (union_of_ids ten_images_split_heap ten_images_subsets)) = 10.
Proof.
  assert (Hsplit : split np_sum_in_order no_shuffle (fst ten_images) (snd ten_images)
                     half_third_fifth false
                   = inr (ten_images_split_heap, ten_images_subsets))
    by (vm_compute; reflexivity).
  split; [exact Hsplit|]. split; [vm_compute; reflexivity|].
  destruct (split_partition np_sum_in_order no_shuffle (fst ten_images) (snd ten_images)
              half_third_fifth false ten_images_split_heap ten_images_subsets
              no_shuffle_perm (init_ok _ _ _ _ _))
    as (sizes & _ & Hsizes & _ & Hlen & Hsize & _).
  - repeat constructor.
  - repeat constructor.
  - apply np_sum_in_order_float_sum.
  - vm_compute. reflexivity.
  - exact Hsplit.
  - assert (Hs : sizes = [5; 3; 2]) by (vm_compute in Hsizes; congruence).
    rewrite Hs in Hlen, Hsize. split; [exact Hlen | exact Hsize].
Defined.

(** Of three images, the percentages [(0.5, 0.5)] select two: the last
    image is in no subset. *)
Example split_may_drop_images :
  exists h' subsets,
    split np_sum_in_order no_shuffle
      (fst (CocoDatasetClassification_init empty_heap "data"
              (map example_image [1; 2; 3])
              (map (fun i => example_annotation i i 1) [1; 2; 3]) example_categories))
      (snd (CocoDatasetClassification_init empty_heap "data"
              (map example_image [1; 2; 3])
              (map (fun i => example_annotation i i 1) [1; 2; 3]) example_categories))
      [Float.lit 5 10; Float.lit 5 10] false = inr (h', subsets) /\
    map (image_ids h') subsets = [[1]; [2]].
Proof. eexists _, _. split; vm_compute; reflexivity. Qed.

(** Image 1 of the 10-image store has two annotations; the first subset
    keeps the first of them only. *)
Lemma split_keeps_first_annotation_witness :
  exists s : CocoDataset,
    s ∈ ten_images_subsets /\
    1 ∈ image_ids ten_images_split_heap s /\
    group ann_image_id 1 (store_annotations (fst ten_images) (snd ten_images)) =
      [example_annotation 1 1 1; example_annotation 2 1 2] /\
    group ann_image_id 1 (store_annotations ten_images_split_heap s) =
      [example_annotation 1 1 1].
Proof.
  eexists. split; [apply list_elem_of_here|].
  assert (Hk : 1 ∈ image_ids ten_images_split_heap
                     (List.hd (snd ten_images) ten_images_subsets))
    by (vm_compute; apply list_elem_of_here).
  split; [exact Hk|]. split; [vm_compute; reflexivity|].
  destruct (split_keeps_first_annotation np_sum_in_order no_shuffle
              (fst ten_images) (snd ten_images) half_third_fifth false
              ten_images_split_heap ten_images_subsets
              (List.hd (snd ten_images) ten_images_subsets) 1
              no_shuffle_perm (init_ok _ _ _ _ _) ten_images_split_eq
              (list_elem_of_here _ _) Hk) as (a & Ha & Hg & _).
  vm_compute in Ha. injection Ha as <-. exact Hg.
Defined.

(** The percentages [(0.7, 0.2, 0.1)] add up to [0.9999999999999999] in
    binary64: the assertion fails without tolerance. *)
Example split_rejects_rounded_sum :
  split np_sum_in_order no_shuffle (fst ten_images) (snd ten_images)
    [Float.lit 7 10; Float.lit 2 10; Float.lit 1 10] false =
  inl (AssertionError "Summation of percentages must be equal to 1.").
Proof. vm_compute. reflexivity. Qed.

(** The whole of the two-image store is selected by the percentage [1.0];
    image 2 has no annotation and [split] raises its [KeyError]. *)
Lemma split_raises_on_unannotated_image_witness :
  2 ∈ selected no_shuffle (snd two_images) false [2] /\
  group ann_image_id 2 (store_annotations (fst two_images) (snd two_images)) = [] /\
  split np_sum_in_order no_shuffle (fst two_images) (snd two_images) [Float.of_int 1] false =
    inl (KeyError (IntKey 2)).
Proof.
  assert (Hsel : 2 ∈ selected no_shuffle (snd two_images) false [2])
    by (vm_compute; apply list_elem_of_further, list_elem_of_here).
  assert (Hnone : group ann_image_id 2
                    (store_annotations (fst two_images) (snd two_images)) = [])
    by (vm_compute; reflexivity).
  split; [exact Hsel|]. split; [exact Hnone|].
  destruct (split_raises_on_unannotated_image np_sum_in_order no_shuffle
              (fst two_images) (snd two_images) [Float.of_int 1] false [2] 2
              no_shuffle_perm (init_ok _ _ _ _ _)) as (k' & Hin & Hg & Hraise);
    [vm_compute; reflexivity | vm_compute; reflexivity | exact Hsel | exact Hnone |].
  rewrite Hraise. vm_compute in Hin.
  apply elem_of_cons in Hin as [->|Hin]; [vm_compute in Hg; discriminate|].
  apply list_elem_of_singleton in Hin. now subst k'.
Defined.

(** C3 fails on the code.  The single subset of the one-image store holds,
    as its image record, the very image object of the source, whereas its
    annotation record is a fresh copy: renaming the image through the subset
    renames the image of the source. *)
Example split_shares_image_objects :
  exists (h' : Heap) (s : CocoDataset) (l : loc),
    split np_sum_in_order no_shuffle (fst one_image) (snd one_image) [Float.of_int 1] false
      = inr (h', [s]) /\
    l ∈ tree_images s /\
    l ∈ tree_images (snd one_image) /\
    tree_annotations s ## tree_annotations (snd one_image) /\
    store_images h' (snd one_image) = [example_image 1] /\
    store_images (rename_image h' l "renamed.jpg") (snd one_image) <> [example_image 1].
Proof.
  eexists _, _, 0%nat. split; [vm_compute; reflexivity|].
  split; [vm_compute; apply list_elem_of_here|].
  split; [vm_compute; apply list_elem_of_here|].
  split; [|split; [vm_compute; reflexivity | vm_compute; discriminate]].
  vm_compute. intros l H1 H2.
  apply list_elem_of_singleton in H1. apply list_elem_of_singleton in H2. congruence.
Qed.

(** Every image record of every subset is an image object of the source. *)
Lemma split_subsets_share_source_images (np_sum : list float -> float)
    (shuffle : list Z -> list Z) (h : Heap) (self : CocoDataset)
    (percentages : list float) (random : bool) (h' : Heap)
    (subsets : list CocoDataset) (s : CocoDataset) :
  (forall l, shuffle l ≡ₚ l) ->
  dataset_ok h self ->
  split np_sum shuffle h self percentages random = inr (h', subsets) ->
  s ∈ subsets -> tree_images s ⊆ tree_images self.
Proof.
  intros Hsh Hok H Hs.
  apply split_ok_inv in H as (_ & sizes & _ & Hloop).
  destruct (pool_ok shuffle h self random Hsh Hok) as (Hsub & Hnd & _).
  apply split_loop_spec in Hloop as [_ Hall]; [|assumption..].
  induction Hall as [|idx s0 idxs ss Hspec _ IH].
  - now apply elem_of_nil in Hs.
  - apply elem_of_cons in Hs as [->|Hs]; [apply (spec_shared _ _ _ _ _ Hspec) | now apply IH].
Qed.

(** ** [CocoDatasetClassification.__getitem__] *)

Lemma list_getitem_out_of_range {A} (l : list A) (idx : Z) :
  idx < - Z.of_nat (length l) \/ Z.of_nat (length l) <= idx ->
  list_getitem l idx = inl IndexError.
Proof.
  intros H. unfold list_getitem.
  destruct (Z.ltb_spec idx 0).
  - destruct (Z.leb_spec 0 (idx + Z.of_nat (length l))); [lia | reflexivity].
  - destruct (Z.leb_spec 0 idx); [|lia]. simpl.
    destruct (Z.ltb_spec idx (Z.of_nat (length l))); [lia | reflexivity].
Qed.

Lemma list_getitem_in_range {A} (l : list A) (idx : Z) :
  - Z.of_nat (length l) <= idx < Z.of_nat (length l) ->
  exists x, list_getitem l idx = inr x /\
    l !! Z.to_nat (if idx <? 0 then idx + Z.of_nat (length l) else idx) = Some x.
Proof.
  intros H. unfold list_getitem.
  set (i := if idx <? 0 then idx + Z.of_nat (length l) else idx).
  assert (Hi : 0 <= i < Z.of_nat (length l)) by (subst i; destruct (Z.ltb_spec idx 0); lia).
  destruct (Z.leb_spec 0 i); [|lia]. destruct (Z.ltb_spec i (Z.of_nat (length l))); [|lia].
  simpl. destruct (lookup_lt_is_Some_2 l (Z.to_nat i)) as [x Hx]; [lia|].
  rewrite Hx. eauto.
Qed.

(** A negative index in range is the index counted from the end. *)
Lemma list_getitem_negative {A} (l : list A) (idx : Z) :
  - Z.of_nat (length l) <= idx < 0 ->
  list_getitem l idx = list_getitem l (idx + Z.of_nat (length l)).
Proof.
  intros H. unfold list_getitem.
  destruct (Z.ltb_spec idx 0); [|lia].
  destruct (Z.ltb_spec (idx + Z.of_nat (length l)) 0); [lia | reflexivity].
Qed.

Lemma first_of_present {A} (key : A -> Z) (items : list A) (k : Z) :
  k ∈ keys (to_dict key items) ->
  exists g x, dict_getitem (to_dict key items) k = inr g /\ list_getitem g 0 = inr x.
Proof.
  intros Hk. apply (proj1 (to_dict_keys_elem _ _ _)) in Hk.
  unfold dict_getitem. rewrite to_dict_lookup.
  destruct (group key k items) as [|x g] eqn:Hg.
  - apply group_nil in Hg. contradiction.
  - exists (x :: g), x. split; [reflexivity|].
    destruct (list_getitem_in_range (x :: g) 0) as (y & Hy & Hl); [simpl; lia|].
    simpl in Hl. now injection Hl as ->.
Qed.

(** C9, as the code has it.  [get(index)] raises [IndexError] (the spec's
    IndexOutOfRangeError) exactly for the indexes outside
    [[-length(), length())]; inside that range it returns, given
    collaborators that return, and a negative index [i] addresses the sample
    at [length() + i]. *)
Theorem getitem_index_range (ndarray Tensor : Type) (read_image : string -> Err ndarray)
    (path_join : string -> string -> string) (to_chw_tensor : ndarray -> Tensor)
    (preprocessing augmentations : option (ndarray -> Annotation -> Err (ndarray * Annotation)))
    (h : Heap) (self : CocoDataset) (idx : Z) :
  classification_ok h self ->
  (forall p, exists image, read_image p = inr image) ->
  transform_ok ndarray (keys (categories self)) preprocessing ->
  transform_ok ndarray (keys (categories self)) augmentations ->
  let get := getitem ndarray Tensor read_image path_join to_chw_tensor
               preprocessing augmentations h self in
  (idx < - len self \/ len self <= idx -> get idx = inl IndexError) /\
  (- len self <= idx < len self -> exists r, get idx = inr r) /\
  (- len self <= idx < 0 -> get idx = get (idx + len self)).
Proof.
  intros Hok Hread Hpre Haug get. subst get. unfold getitem, len.
  split; [|split].
  - intros H. now rewrite list_getitem_out_of_range.
  - intros H.
    destruct (list_getitem_in_range (annotations self) idx H) as (aref & -> & Hl).
    cbn [bind]. apply list_elem_of_lookup_2 in Hl.
    pose proof (proj1 (Forall_forall _ _) (cls_image_ids _ _ Hok) aref Hl) as Himg.
    pose proof (proj1 (Forall_forall _ _) (cls_category_ids _ _ Hok) aref Hl) as Hcat.
    cbv beta in Himg, Hcat.
    rewrite (cls_images _ _ Hok) in Himg |- *.
    destruct (first_of_present _ _ _ Himg) as (g & l0 & Hg & Hl0).
    rewrite Hg. cbn [bind]. rewrite Hl0. cbn [bind].
    destruct (Hread (path_join (data_directory_path self)
                       (img_file_name (image_at h l0)))) as [image ->]. cbn [bind].
    destruct (Hpre image _ Hcat) as (image1 & a1 & -> & Hcat1). cbn [bind].
    destruct (Haug image1 _ Hcat1) as (image2 & a2 & -> & Hcat2). cbn [bind].
    rewrite (cls_categories _ _ Hok) in Hcat2 |- *.
    destruct (first_of_present _ _ _ Hcat2) as (gc & c0 & Hgc & Hc0).
    rewrite Hgc. cbn [bind]. rewrite Hc0. cbn [bind].
    eauto.
  - intros H. now rewrite list_getitem_negative.
Qed.

Lemma one_image_classification_ok : classification_ok (fst one_image) (snd one_image).
Proof.
  split; [reflexivity | reflexivity | |]; vm_compute;
    repeat constructor.
Qed.

(** The index [-1] is outside [[0, length())] and [get(-1)] returns the
    last sample. *)
Lemma getitem_negative_index_returns :
  len (snd one_image) = 1 /\
  ~ (0 <= -1 < len (snd one_image)) /\
  getitem string string read_path path_join_slash (fun image => image) None None
    (fst one_image) (snd one_image) (-1) = inr ("data/image.jpg"%string, 0).
Proof. split; [reflexivity|]. split; [vm_compute; intros [H _]; now apply H|]. reflexivity. Qed.

Lemma getitem_index_range_witness :
  getitem string string read_path path_join_slash (fun image => image) None None
    (fst one_image) (snd one_image) 1 = inl IndexError /\
  getitem string string read_path path_join_slash (fun image => image) None None
    (fst one_image) (snd one_image) (-2) = inl IndexError /\
  (exists r, getitem string string read_path path_join_slash (fun image => image) None None
               (fst one_image) (snd one_image) (-1) = inr r) /\
  getitem string string read_path path_join_slash (fun image => image) None None
    (fst one_image) (snd one_image) (-1) =
  getitem string string read_path path_join_slash (fun image => image) None None
    (fst one_image) (snd one_image) 0.
Proof.
  assert (Hread : forall p, exists image, read_path p = inr image)
    by (intros p; exists p; reflexivity).
  assert (Hnone : transform_ok string (keys (categories (snd one_image))) None)
    by (intros image a Ha; exists image, a; split; [reflexivity | exact Ha]).
  pose proof (getitem_index_range string string read_path path_join_slash
                (fun image => image) None None (fst one_image) (snd one_image) 1
                one_image_classification_ok Hread Hnone Hnone) as (Hhigh & _ & _).
  pose proof (getitem_index_range string string read_path path_join_slash
                (fun image => image) None None (fst one_image) (snd one_image) (-2)
                one_image_classification_ok Hread Hnone Hnone) as (Hlow & _ & _).
  pose proof (getitem_index_range string string read_path path_join_slash
                (fun image => image) None None (fst one_image) (snd one_image) (-1)
                one_image_classification_ok Hread Hnone Hnone) as (_ & Hin & Hneg).
  split; [apply Hhigh; right; vm_compute; discriminate|].
  split; [apply Hlow; left; reflexivity|].
  split; [apply Hin; split; vm_compute; [discriminate | reflexivity]|].
  apply Hneg. split; vm_compute; [discriminate | reflexivity].
Defined.

(** ** The train phase *)

Lemma filter_none {A} (P : A -> Prop) `{forall x, Decision (P x)} (l : list A) :
  Forall (fun x => ~ P x) l -> filter P l = [].
Proof.
  induction 1 as [|x l Hx _ IH]; [reflexivity|].
  rewrite filter_cons. destruct (decide (P x)); [contradiction | exact IH].
Qed.

Lemma accumulate_ok (loss_train losses : gmap string float) :
  (forall key, is_Some (losses !! key) -> is_Some (loss_train !! key)) ->
  exists acc, accumulate loss_train losses = inr acc /\
    forall key, acc !! key =
      match losses !! key, loss_train !! key with
      | Some value, Some total => Some (Float.add total value)
      | _, _ => None
      end.
Proof.
  intros Hsub. unfold accumulate. rewrite filter_none.
  - eexists. split; [reflexivity|]. intros key. rewrite map_lookup_imap.
    destruct (losses !! key); reflexivity.
  - apply Forall_forall. intros key Hkey Hnone.
    apply list_elem_of_fmap in Hkey as ([k v] & -> & Hkv).
    apply elem_of_map_to_list in Hkv. simpl in Hnone.
    destruct (Hsub k) as [t Ht]; [eauto | congruence].
Qed.

Lemma initial_losses_names : has_loss_names initial_losses.
Proof.
  intros key. unfold initial_losses. split.
  - intros [v Hv]. apply elem_of_list_to_map_2 in Hv.
    apply list_elem_of_fmap in Hv as (name & [= -> _] & Hname). exact Hname.
  - intros Hkey. destruct (initial_losses !! key) as [v|] eqn:Hv; [eauto|].
    exfalso. apply not_elem_of_list_to_map_2 in Hv. apply Hv.
    rewrite <- list_fmap_compose. simpl. exact Hkey.
Qed.

Lemma initial_losses_lookup (key : string) :
  key ∈ loss_names -> initial_losses !! key = Some Float.zero.
Proof.
  intros Hkey. destruct (proj2 (initial_losses_names key) Hkey) as [v Hv].
  rewrite Hv. f_equal. unfold initial_losses in Hv.
  apply elem_of_list_to_map_2 in Hv.
  apply list_elem_of_fmap in Hv as (name & [= _ ->] & _). reflexivity.
Qed.

Lemma loss_mask_name : "loss_mask"%string ∈ loss_names.
Proof. unfold loss_names. do 2 apply list_elem_of_further. apply list_elem_of_here. Qed.

(** A dict with a term passes [backward]. *)
Lemma backward_ok (losses : gmap string float) (key : string) :
  is_Some (losses !! key) -> backward losses = ok tt.
Proof.
  intros [v Hv]. unfold backward.
  destruct (map_to_list losses) as [|kv l] eqn:Hl; [|reflexivity].
  apply map_to_list_empty_iff in Hl. subst losses. rewrite lookup_empty in Hv. discriminate.
Qed.

Section TrainProperties.

Variable Model ndarray Tensor Target MaskTensor InstanceMask : Type.
Variable forward_losses : Model -> list Tensor -> list Target -> gmap string float.
Variable optimizer_step : Model -> list Tensor -> list Target -> Model.

Lemma with_model_id (self : Trainer Model) : with_model Model self (model Model self) = self.
Proof. now destruct self. Qed.

Lemma train_batches_ok (bs : list (list Tensor * list Target)) :
  forall (self : Trainer Model) (loss_train : gmap string float),
  has_loss_names loss_train ->
  Forall has_loss_names (batch_losses forward_losses optimizer_step (model Model self) bs) ->
  exists totals,
    train_batches Model Tensor Target forward_losses optimizer_step bs loss_train self =
      (inr totals, with_model Model self (model_after Model Tensor Target optimizer_step (model Model self) bs)) /\
    has_loss_names totals /\
    forall key total, loss_train !! key = Some total ->
      totals !! key =
        Some (term_sum key total
                (batch_losses forward_losses optimizer_step (model Model self) bs)).
Proof.
  induction bs as [|[x_pred y_true] bs IH]; intros self loss_train Hnames Hall.
  - exists loss_train. simpl. rewrite with_model_id. split; [reflexivity|].
    split; [exact Hnames | auto].
  - simpl in Hall. apply Forall_cons in Hall as [Hfirst Hall].
    destruct (accumulate_ok loss_train (forward_losses (model Model self) x_pred y_true))
      as (acc & Hacc & Hlookup).
    { intros key Hkey. apply Hnames. now apply Hfirst. }
    assert (Hacc_names : has_loss_names acc).
    { intros key. rewrite Hlookup. specialize (Hfirst key). specialize (Hnames key).
      destruct (forward_losses _ x_pred y_true !! key) as [v|],
               (loss_train !! key) as [t|].
      - split; [intros _; apply Hfirst; eauto | intros _; eauto].
      - split; [intros [? H]; discriminate|].
        intros H. apply Hnames in H. destruct H as [? H]. discriminate.
      - split; [intros [? H]; discriminate|].
        intros H. apply Hfirst in H. destruct H as [? H]. discriminate.
      - split; [intros [? H]; discriminate|].
        intros H. apply Hfirst in H. destruct H as [? H]. discriminate. }
    destruct (IH (with_model Model self (optimizer_step (model Model self) x_pred y_true)) acc
                Hacc_names Hall) as (totals & Hrun & Htot_names & Htot).
    exists totals. split; [|split; [exact Htot_names|]].
    + simpl. unfold mbind, get_model, set_model, lift. simpl.
      rewrite (backward_ok _ "loss_mask") by (apply Hfirst, loss_mask_name).
      rewrite Hacc. exact Hrun.
    + intros key total Hkey. simpl.
      destruct (proj2 (Hfirst key)) as [value Hvalue].
      { apply Hnames. eauto. }
      rewrite (Htot key (Float.add total value)).
      * unfold term_sum. simpl. now rewrite Hvalue.
      * rewrite Hlookup, Hvalue, Hkey. reflexivity.
Qed.

End TrainProperties.

Lemma has_loss_names_insert (losses : gmap string float) (key : string) (value : float) :
  has_loss_names losses -> key ∈ loss_names -> has_loss_names (<[key := value]> losses).
Proof.
  intros Hnames Hkey k. destruct (decide (key = k)) as [->|Hne].
  - rewrite lookup_insert_eq. split; [intros _; exact Hkey | eauto].
  - rewrite lookup_insert_ne by exact Hne. apply Hnames.
Qed.

(** C7. When the model returns the five named loss terms for every batch
    and the sample count is not zero, the train phase returns, for each
    named term, the sum of that term over the batches (added in batch order
    onto 0) divided by [dataset.sampler.num_samples]. *)
Theorem train_mean_losses (Model Tensor Target : Type)
    (forward_losses : Model -> list Tensor -> list Target -> gmap string float)
    (optimizer_step : Model -> list Tensor -> list Target -> Model)
    (data : DataLoader Tensor Target) (self : Trainer Model) :
  Forall has_loss_names
    (batch_losses forward_losses optimizer_step (model Model self) (batches _ _ data)) ->
  num_samples _ _ data <> 0 ->
  exists (result : gmap string float) (self' : Trainer Model),
    train Model Tensor Target forward_losses optimizer_step data self = (inr result, self') /\
    has_loss_names result /\
    forall key, key ∈ loss_names ->
      result !! key =
        Some (Float.div
                (term_sum key Float.zero
                   (batch_losses forward_losses optimizer_step (model Model self)
                      (batches _ _ data)))
                (Float.of_int (num_samples _ _ data))).
Proof.
  intros Hall Hn.
  destruct (train_batches_ok Model Tensor Target forward_losses optimizer_step
              (batches _ _ data) self initial_losses initial_losses_names Hall)
    as (totals & Hrun & Hnames & Htotals).
  exists ((fun total => Float.div total (Float.of_int (num_samples _ _ data))) <$> totals).
  eexists. split; [|split].
  - unfold train, mbind. rewrite Hrun. unfold lift, mean_losses.
    destruct (map_to_list totals) as [|kv l] eqn:Hl.
    + apply map_to_list_empty_iff in Hl. subst totals. exfalso.
      destruct (proj2 (Hnames "loss_mask"%string)) as [v Hv].
      * unfold loss_names. do 2 apply list_elem_of_further. apply list_elem_of_here.
      * rewrite lookup_empty in Hv. discriminate.
    + destruct (Z.eqb_spec (num_samples _ _ data) 0); [contradiction | reflexivity].
  - intros key. rewrite lookup_fmap. rewrite <- (Hnames key).
    destruct (totals !! key); simpl; split; intros [? H]; eauto; discriminate.
  - intros key Hkey. rewrite lookup_fmap.
    rewrite (Htotals key Float.zero (initial_losses_lookup key Hkey)). reflexivity.
Qed.

(** The scenario: the reported mean of [loss_mask] is [2.0], that of
    [loss_classifier] is [1.0]. *)
Lemma train_mean_losses_witness :
  exists (result : gmap string float) (self' : Trainer unit),
    train unit unit unit scenario_losses scenario_step scenario_loader
      (Trainer_init unit tt false) = (inr result, self') /\
    result !! "loss_mask"%string = Some (Float.of_int 2) /\
    result !! "loss_classifier"%string = Some (Float.of_int 1) /\
    result !! "loss_box_reg"%string = Some Float.zero.
Proof.
  destruct (train_mean_losses unit unit unit scenario_losses scenario_step scenario_loader
              (Trainer_init unit tt false)) as (result & self' & Hrun & _ & Hmean).
  - change (Forall has_loss_names [scenario_losses tt [tt; tt] [tt; tt]]).
    apply Forall_cons. split; [|constructor]. unfold scenario_losses.
    apply has_loss_names_insert;
      [apply has_loss_names_insert; [apply initial_losses_names|]|];
      unfold loss_names; repeat (apply list_elem_of_here || apply list_elem_of_further).
  - discriminate.
  - exists result, self'. split; [exact Hrun|].
    split; [|split]; rewrite Hmean;
      try (unfold loss_names; repeat (apply list_elem_of_here || apply list_elem_of_further));
      vm_compute; reflexivity.
Defined.

(* ===================================================================== *)
(** ** The COCO-evaluation phase *)

Lemma mask_sum_zero (pixels : list N) :
  (mask_sum pixels =? 0)%N = all_background pixels.
Proof.
  induction pixels as [|p pixels IH]; simpl; [reflexivity|].
  rewrite <- IH. destruct p as [|q]; [reflexivity|].
  now destruct (mask_sum pixels).
Qed.

Section CocoEvalProperties.

Variable Model ndarray Tensor Target MaskTensor InstanceMask : Type.
Variable predict : Model -> Tensor -> Prediction MaskTensor.
Variable mask_pixels : MaskTensor -> list N.
Variable extract_bbox_segmentation : list N -> list float * Segmentation.
Variable read_image : string -> Err ndarray.
Variable path_join : string -> string -> string.
Variable seg_preprocessing : option (ndarray -> list Annotation -> Err (ndarray * list Annotation)).
Variable seg_augmentations : option (ndarray -> list Annotation -> Err (ndarray * list Annotation)).
Variable generate_instance_mask : ndarray -> Annotation -> Err InstanceMask.
Variable to_chw_tensor : ndarray -> Tensor.

#[local] Abbreviation record_instances' :=
  (record_instances MaskTensor mask_pixels extract_bbox_segmentation).
#[local] Abbreviation record_images' :=
  (record_images Model ndarray Tensor Target MaskTensor InstanceMask predict mask_pixels
     extract_bbox_segmentation read_image path_join seg_preprocessing seg_augmentations
     generate_instance_mask to_chw_tensor).
#[local] Abbreviation image_predictions' :=
  (image_predictions Model ndarray Tensor Target MaskTensor InstanceMask predict read_image
     path_join seg_preprocessing seg_augmentations generate_instance_mask to_chw_tensor).
#[local] Abbreviation numbered' := (numbered MaskTensor mask_pixels extract_bbox_segmentation).
#[local] Abbreviation kept_instances' := (kept_instances MaskTensor mask_pixels).
#[local] Abbreviation all_kept' := (all_kept MaskTensor mask_pixels).

Lemma numbered_app (first_id : Z) (l1 l2 : list (Z * Instance MaskTensor)) :
  numbered' first_id (l1 ++ l2) =
  numbered' first_id l1 ++ numbered' (first_id + Z.of_nat (length l1)) l2.
Proof.
  revert first_id. induction l1 as [|[image_id inst] l1 IH]; intros first_id; simpl.
  - now rewrite Z.add_0_r.
  - rewrite IH. do 3 f_equal. lia.
Qed.

Lemma numbered_ids (first_id : Z) (l : list (Z * Instance MaskTensor)) :
  map ann_id (numbered' first_id l) =
  map (fun i => first_id + Z.of_nat i) (seq 0 (length l)).
Proof.
  revert first_id. induction l as [|[image_id [[[box label] mask] score]] l IH];
    intros first_id; simpl; [reflexivity|].
  rewrite Z.add_0_r. f_equal. rewrite IH, <- seq_shift, map_map.
  apply map_ext. intros i. lia.
Qed.

Lemma numbered_ids_bounds (first_id : Z) (l : list (Z * Instance MaskTensor)) :
  Forall (fun a => first_id <= ann_id a < first_id + Z.of_nat (length l))
         (numbered' first_id l).
Proof.
  revert first_id. induction l as [|[image_id [[[box label] mask] score]] l IH];
    intros first_id; simpl; constructor.
  - simpl. lia.
  - eapply Forall_impl; [apply IH|]. intros a Ha; simpl in Ha. lia.
Qed.

Lemma add_fresh_annotation (store : COCOData) (id image_id category_id : Z)
    (bbox : list float) (segmentation : Segmentation) (score : float) (area iscrowd : Z) :
  Forall (fun a => ann_id a < id) (data_annotations store) ->
  add_annotation_instance store id image_id category_id bbox segmentation score area iscrowd =
  inr (with_annotations store
         (data_annotations store ++
          [ {| ann_id := id; ann_image_id := image_id; ann_category_id := category_id;
               ann_bbox := bbox; ann_segmentation := segmentation;
               ann_area := Float.of_int area; ann_iscrowd := iscrowd;
               ann_score := Some score |} ])).
Proof.
  intros Hlt. unfold add_annotation_instance.
  assert (Hex : existsb (fun a => ann_id a =? id) (data_annotations store) = false).
  { induction Hlt as [|a l Ha _ IH]; simpl; [reflexivity|].
    rewrite IH. destruct (Z.eqb_spec (ann_id a) id); [lia | reflexivity]. }
  now rewrite Hex.
Qed.

Lemma kept_instances_cons (image_id : Z) (inst : Instance MaskTensor)
    (instances : list (Instance MaskTensor)) :
  kept_instances' image_id (inst :: instances) =
  if all_background (mask_pixels (instance_mask MaskTensor inst))
  then kept_instances' image_id instances
  else (image_id, inst) :: kept_instances' image_id instances.
Proof.
  unfold kept_instances. rewrite filter_cons.
  destruct (decide (all_background (mask_pixels (instance_mask MaskTensor inst)) = false))
    as [H|H].
  - now rewrite H.
  - apply not_false_is_true in H. now rewrite H.
Qed.

(** The instances of one image: the all-background ones are skipped, the
    others are appended with consecutive ids, and no id is a duplicate. *)
Lemma record_instances_eq (image_id : Z) (instances : list (Instance MaskTensor)) :
  forall (store : COCOData) (next : Z),
  Forall (fun a => ann_id a < next) (data_annotations store) ->
  record_instances' image_id instances store next =
  inr (with_annotations store
         (data_annotations store ++ numbered' next (kept_instances' image_id instances)),
       next + Z.of_nat (length (kept_instances' image_id instances))).
Proof.
  induction instances as [|[[[box label] mask] score] instances IH]; intros store next Hlt.
  - simpl. rewrite app_nil_r, Z.add_0_r. now destruct store.
  - rewrite kept_instances_cons. cbn [record_instances instance_mask fst snd].
    rewrite mask_sum_zero.
    destruct (all_background (mask_pixels mask)) eqn:Hbg; [now apply IH|].
    destruct (extract_bbox_segmentation (mask_pixels mask)) as [bbox segmentation] eqn:Hex.
    rewrite add_fresh_annotation by exact Hlt. cbn [bind].
    rewrite IH.
    + cbn [numbered instance_annotation length with_annotations data_annotations
           data_images data_categories].
      rewrite Hex. cbn [snd]. rewrite <- app_assoc. cbn [app].
      do 2 f_equal. lia.
    + cbn [with_annotations data_annotations]. apply Forall_app. split.
      * eapply Forall_impl; [exact Hlt|]. intros a Ha; simpl in Ha. lia.
      * constructor; [simpl; lia | constructor].
Qed.

Lemma record_images_eq (m : Model) (data : DataLoader Tensor Target)
    (samples : list Image) :
  forall (store : COCOData) (next : Z),
  Forall (fun a => ann_id a < next) (data_annotations store) ->
  record_images' m data samples store next =
  let* preds := image_predictions' m data samples in
  ok (with_annotations store (data_annotations store ++ numbered' next (all_kept' preds)),
      next + Z.of_nat (length (all_kept' preds))).
Proof.
  induction samples as [|sample samples IH]; intros store next Hlt.
  - simpl. rewrite app_nil_r, Z.add_0_r. now destruct store.
  - unfold image_predictions. simpl.
    destruct (seg_getitem _ _ _ _ _ _ _ _ _ _ _) as [e|[image enriched]]; [reflexivity|].
    cbn [bind]. rewrite record_instances_eq by exact Hlt. cbn [bind].
    rewrite IH.
    + unfold image_predictions.
      destruct (mapM _ samples) as [e|preds]; [reflexivity|]. cbn [bind].
      unfold all_kept. simpl. rewrite length_app, numbered_app, <- app_assoc.
      do 2 f_equal. lia.
    + simpl. apply Forall_app. split.
      * eapply Forall_impl; [exact Hlt|]. intros a Ha; simpl in Ha. lia.
      * eapply Forall_impl; [apply numbered_ids_bounds|]. intros a Ha; simpl in Ha. lia.
Qed.

End CocoEvalProperties.

(** C8. When the COCO-evaluation phase returns, the predictions store
    holds one annotation per predicted instance whose mask is not entirely
    background, in the order of the images and of their instances, and no
    annotation for an instance whose mask is entirely background; the ids
    of its annotations are 1, 2, ..., k. *)
Theorem coco_eval_annotation_ids
    (Model ndarray Tensor Target MaskTensor InstanceMask : Type)
    (predict : Model -> Tensor -> Prediction MaskTensor)
    (mask_pixels : MaskTensor -> list N)
    (extract_bbox_segmentation : list N -> list float * Segmentation)
    (read_image : string -> Err ndarray)
    (path_join : string -> string -> string)
    (seg_preprocessing seg_augmentations :
       option (ndarray -> list Annotation -> Err (ndarray * list Annotation)))
    (generate_instance_mask : ndarray -> Annotation -> Err InstanceMask)
    (to_chw_tensor : ndarray -> Tensor)
    (m : Model) (data : DataLoader Tensor Target) (gt pred : COCOData) :
  coco_eval Model ndarray Tensor Target MaskTensor InstanceMask predict mask_pixels
    extract_bbox_segmentation read_image path_join seg_preprocessing seg_augmentations
    generate_instance_mask to_chw_tensor m data = inr (gt, pred) ->
  exists preds : list (Z * list (Instance MaskTensor)),
    image_predictions Model ndarray Tensor Target MaskTensor InstanceMask predict read_image
      path_join seg_preprocessing seg_augmentations generate_instance_mask to_chw_tensor
      m data (data_images (seg_tree (dataset _ _ data))) = inr preds /\
    data_annotations pred =
      numbered MaskTensor mask_pixels extract_bbox_segmentation 1
        (all_kept MaskTensor mask_pixels preds) /\
    Forall (fun kept => all_background (mask_pixels (instance_mask MaskTensor (snd kept))) = false)
           (all_kept MaskTensor mask_pixels preds) /\
    map ann_id (data_annotations pred) =
      map Z.of_nat (seq 1 (length (data_annotations pred))) /\
    NoDup (map ann_id (data_annotations pred)).
Proof.
  unfold coco_eval, from_dict. cbv zeta.
  rewrite record_images_eq by constructor.
  destruct (image_predictions _ _ _ _ _ _ _ _ _ _ _ _ _ m data _) as [e|preds];
    [discriminate|].
  cbn [bind]. intros [= <- <-]. exists preds. split; [reflexivity|].
  cbn [with_annotations data_annotations app].
  assert (Hids : map ann_id (numbered MaskTensor mask_pixels extract_bbox_segmentation 1
                               (all_kept MaskTensor mask_pixels preds)) =
                 map Z.of_nat
                   (seq 1 (length (numbered MaskTensor mask_pixels extract_bbox_segmentation 1
                                     (all_kept MaskTensor mask_pixels preds))))).
  { rewrite numbered_ids.
    replace (length (numbered _ _ _ 1 (all_kept MaskTensor mask_pixels preds)))
      with (length (all_kept MaskTensor mask_pixels preds)).
    - rewrite <- seq_shift, map_map. apply map_ext. intros i. lia.
    - rewrite <- (length_map ann_id), numbered_ids, length_map, length_seq. reflexivity. }
  split; [reflexivity|]. split; [|split; [exact Hids|]].
  - unfold all_kept. apply Forall_concat. apply Forall_forall. intros l Hl.
    apply list_elem_of_fmap in Hl as ([image_id insts] & -> & _).
    unfold kept_instances. apply Forall_forall. intros kept Hkept.
    apply list_elem_of_fmap in Hkept as (inst & -> & Hinst).
    apply list_elem_of_filter in Hinst as [Hbg _]. exact Hbg.
  - rewrite Hids. apply NoDup_fmap; [intros x y; lia | apply NoDup_seq].
Qed.

(** ** [fit] *)

(** A value equal to the best one is not an improvement. *)
Lemma ltb_tie (x best : float) : Float.eqb x best = true -> Float.ltb x best = false.
Proof.
  unfold Float.eqb, Float.ltb, SFeqb, SFltb.
  destruct (SFcompare x best) as [[]|]; intros H; try discriminate; reflexivity.
Qed.

Lemma improvements_app (best : float) (epoch : Z) (l1 l2 : list float) :
  improvements best epoch (l1 ++ l2) =
  improvements best epoch l1 ++
  improvements (running_best best l1) (epoch + Z.of_nat (length l1)) l2.
Proof.
  revert best epoch. induction l1 as [|x l1 IH]; intros best epoch; simpl.
  - now rewrite Z.add_0_r.
  - replace (epoch + Z.of_nat (S (length l1))) with (epoch + 1 + Z.of_nat (length l1))
      by lia.
    destruct (Float.ltb x best); simpl; now rewrite IH.
Qed.

Lemma improvements_bounds (best : float) (epoch : Z) (losses : list float) (e : Z) :
  e ∈ improvements best epoch losses -> epoch <= e < epoch + Z.of_nat (length losses).
Proof.
  revert best epoch. induction losses as [|x losses IH]; intros best epoch; simpl.
  - intros H. now apply elem_of_nil in H.
  - destruct (Float.ltb x best).
    + intros H. apply elem_of_cons in H as [->|H]; [lia|]. apply IH in H. lia.
    + intros H. apply IH in H. lia.
Qed.

(** An epoch is among the improvements exactly when its loss is strictly
    less than the best value of the epochs before it. *)
Lemma improvements_spec (best : float) (losses : list float) (i : nat) (x : float) :
  losses !! i = Some x ->
  Z.of_nat i ∈ improvements best 0 losses <->
  Float.ltb x (running_best best (take i losses)) = true.
Proof.
  intros Hi.
  rewrite <- (take_drop_middle losses i x Hi) at 1.
  assert (Hlen : length (take i losses) = i).
  { rewrite length_take. apply lookup_lt_Some in Hi. lia. }
  rewrite improvements_app, Hlen. simpl.
  rewrite elem_of_app. split.
  - intros [H|H].
    + apply improvements_bounds in H. lia.
    + destruct (Float.ltb x _); [reflexivity|].
      apply improvements_bounds in H. lia.
  - intros ->. right. apply list_elem_of_here.
Qed.

Section FitProperties.

Variable Model ndarray Tensor Target MaskTensor InstanceMask : Type.
Variable forward_losses : Model -> list Tensor -> list Target -> gmap string float.
Variable optimizer_step : Model -> list Tensor -> list Target -> Model.
Variable predict : Model -> Tensor -> Prediction MaskTensor.
Variable mask_pixels : MaskTensor -> list N.
Variable extract_bbox_segmentation : list N -> list float * Segmentation.
Variable read_image : string -> Err ndarray.
Variable path_join : string -> string -> string.
Variable seg_preprocessing : option (ndarray -> list Annotation -> Err (ndarray * list Annotation)).
Variable seg_augmentations : option (ndarray -> list Annotation -> Err (ndarray * list Annotation)).
Variable generate_instance_mask : ndarray -> Annotation -> Err InstanceMask.
Variable to_chw_tensor : ndarray -> Tensor.

#[local] Abbreviation train' := (train Model Tensor Target forward_losses optimizer_step).
#[local] Abbreviation evaluate' := (evaluate Model Tensor Target forward_losses).
#[local] Abbreviation fit_epoch' :=
  (fit_epoch Model ndarray Tensor Target MaskTensor InstanceMask forward_losses
     optimizer_step predict mask_pixels extract_bbox_segmentation read_image path_join
     seg_preprocessing seg_augmentations generate_instance_mask to_chw_tensor).
#[local] Abbreviation fit_epochs' :=
  (fit_epochs Model ndarray Tensor Target MaskTensor InstanceMask forward_losses
     optimizer_step predict mask_pixels extract_bbox_segmentation read_image path_join
     seg_preprocessing seg_augmentations generate_instance_mask to_chw_tensor).
#[local] Abbreviation fit' :=
  (fit Model ndarray Tensor Target MaskTensor InstanceMask forward_losses
     optimizer_step predict mask_pixels extract_bbox_segmentation read_image path_join
     seg_preprocessing seg_augmentations generate_instance_mask to_chw_tensor).

Lemma mbind_ok {A B} (m : Method Model A) (k : A -> Method Model B)
    (self self' : Trainer Model) (b : B) :
  mbind Model m k self = (inr b, self') ->
  exists a s1, m self = (inr a, s1) /\ k a s1 = (inr b, self').
Proof.
  unfold mbind. destruct (m self) as [[e|a] s1]; [discriminate | eauto].
Qed.

Lemma train_batches_frame (bs : list (list Tensor * list Target)) :
  forall loss_train self r self',
  train_batches Model Tensor Target forward_losses optimizer_step bs loss_train self
    = (r, self') ->
  same_record Model self self'.
Proof.
  induction bs as [|[x_pred y_true] bs IH]; intros loss_train self r self' H; simpl in H.
  - injection H as <- <-. repeat split.
  - unfold mbind, get_model, set_model, lift in H. simpl in H.
    destruct (backward _) as [e|[]]; [injection H as <- <-; repeat split|].
    destruct (accumulate _ _) as [e|acc].
    + injection H as <- <-. repeat split.
    + apply IH in H. exact H.
Qed.

Lemma evaluate_batches_frame (bs : list (list Tensor * list Target)) :
  forall loss_valid self r self',
  evaluate_batches Model Tensor Target forward_losses bs loss_valid self = (r, self') ->
  self' = self.
Proof.
  induction bs as [|[x_pred y_true] bs IH]; intros loss_valid self r self' H; simpl in H.
  - now injection H as <- <-.
  - unfold mbind, get_model, lift in H. simpl in H.
    destruct (accumulate _ _) as [e|acc].
    + now injection H as <- <-.
    + now apply IH in H.
Qed.

Lemma train_frame (data : DataLoader Tensor Target) (self self' : Trainer Model) r :
  train' data self = (r, self') -> same_record Model self self'.
Proof.
  unfold train, mbind.
  destruct (train_batches _ _ _ _ _ _ _ self) as [[e|totals] s1] eqn:H1.
  - intros [= <- <-]. now apply train_batches_frame in H1.
  - unfold lift. intros [= <- <-]. now apply train_batches_frame in H1.
Qed.

Lemma evaluate_frame (data : DataLoader Tensor Target) (self self' : Trainer Model) r :
  evaluate' data self = (r, self') -> self' = self.
Proof.
  unfold evaluate, mbind.
  destruct (evaluate_batches _ _ _ _ _ _ self) as [[e|totals] s1] eqn:H1.
  - intros [= <- <-]. now apply evaluate_batches_frame in H1.
  - unfold lift. intros [= <- <-]. now apply evaluate_batches_frame in H1.
Qed.

#[local] Abbreviation saved := (saved_epochs).
#[local] Abbreviation cocos := (coco_epochs).
#[local] Abbreviation tracked := (tracked_losses).

(** One epoch that completes: the tracked loss of its validation losses is
    compared with the best loss, and the calls it adds to the trace. *)
Lemma fit_epoch_ok (training_data validation_data : DataLoader Tensor Target)
    (coco_eval_frequency : option Z) (epoch : Z) (self self' : Trainer Model) :
  fit_epoch' training_data validation_data coco_eval_frequency epoch self = (inr tt, self') ->
  exists main : float,
    tracked (trace Model self') = tracked (trace Model self) ++ [main] /\
    saved (trace Model self') =
      saved (trace Model self) ++
      (if Float.ltb main (best_loss Model self) then [epoch] else []) /\
    cocos (trace Model self') =
      cocos (trace Model self) ++
      (if scheduled coco_eval_frequency epoch then [epoch] else []) /\
    best_loss Model self' =
      (if Float.ltb main (best_loss Model self) then main else best_loss Model self) /\
    recorder Model self' = recorder Model self.
Proof.
  unfold fit_epoch. intros H.
  apply mbind_ok in H as (loss_training & s1 & Htrain & H).
  apply train_frame in Htrain as (Hr1 & Hb1 & Ht1).
  apply mbind_ok in H as ([] & s2 & Hemit1 & H).
  unfold emit in Hemit1. injection Hemit1 as <-.
  apply mbind_ok in H as (loss_validation & s3 & Heval & H).
  apply evaluate_frame in Heval. subst s3.
  apply mbind_ok in H as ([] & s4 & Hemit2 & H).
  unfold emit in Hemit2. injection Hemit2 as <-. cbn [model recorder best_loss trace] in H.
  apply mbind_ok in H as ([] & s5 & Hcoco & H).
  apply mbind_ok in H as ([] & s6 & Hrec & H).
  apply mbind_ok in H as (main & s7 & Hmain & H).
  unfold lift in Hmain. injection Hmain as Hmain <-.
  apply mbind_ok in H as (best & s8 & Hbest & H).
  unfold get_best_loss in Hbest. injection Hbest as <- <-.
  assert (Hmain' : loss_validation !! main_metric = Some main).
  { unfold losses_getitem in Hmain. destruct (loss_validation !! main_metric);
      [now injection Hmain as -> | discriminate]. }
  (* the COCO-evaluation phase *)
  assert (H5 : recorder Model s5 = recorder Model self /\
               best_loss Model s5 = best_loss Model self /\
               exists evs,
                 trace Model s5 =
                   trace Model self ++
                   [Trained epoch loss_training; Evaluated epoch loss_validation] ++ evs /\
                 saved evs = [] /\ tracked evs = [] /\
                 cocos evs = if scheduled coco_eval_frequency epoch then [epoch] else []).
  { destruct coco_eval_frequency as [frequency|]; cbn [scheduled] in Hcoco |- *.
    - destruct (frequency =? 0); [discriminate|].
      destruct (epoch mod frequency =? 0).
      + unfold mbind, get_model, lift, emit, ok in Hcoco.
        cbn [model recorder best_loss trace] in Hcoco.
        destruct (coco_eval _ _ _ _ _ _ _ _ _ _ _ _ _ _ _ _ _) as [e|stores];
          [discriminate|].
        injection Hcoco as <-. cbn [recorder best_loss trace].
        rewrite Hr1, Hb1, Ht1. repeat split.
        eexists. rewrite <- !app_assoc. split; [reflexivity|]. repeat split.
      + unfold ret in Hcoco. injection Hcoco as <-. cbn [recorder best_loss trace].
        rewrite Hr1, Hb1, Ht1. repeat split.
        exists []. rewrite <- !app_assoc. repeat split.
    - unfold ret in Hcoco. injection Hcoco as <-. cbn [recorder best_loss trace].
      rewrite Hr1, Hb1, Ht1. repeat split.
      exists []. rewrite <- !app_assoc. repeat split. }
  destruct H5 as (Hr5 & Hb5 & evs & Ht5 & Hs5 & Hk5 & Hc5).
  (* the recorder *)
  assert (H6 : recorder Model s6 = recorder Model self /\
               best_loss Model s6 = best_loss Model self /\
               exists recorded,
                 trace Model s6 = trace Model s5 ++ recorded /\
                 saved recorded = [] /\ cocos recorded = [] /\ tracked recorded = []).
  { destruct (recorder Model s5) eqn:Hrec5.
    - unfold mbind, emit in Hrec. cbn [model recorder best_loss trace] in Hrec.
      injection Hrec as <-. cbn [recorder best_loss trace].
      rewrite Hrec5, <- Hr5, Hb5. repeat split.
      eexists. rewrite <- app_assoc. split; [reflexivity|]. repeat split.
    - unfold ret in Hrec. injection Hrec as <-.
      rewrite Hrec5, <- Hr5, Hb5. repeat split. exists []. rewrite app_nil_r. repeat split. }
  destruct H6 as (Hr6 & Hb6 & recorded & Ht6 & Hs6 & Hc6 & Hk6).
  exists main.
  assert (Hproj :
    tracked (trace Model s6) = tracked (trace Model self) ++ [main] /\
    saved (trace Model s6) = saved (trace Model self) /\
    cocos (trace Model s6) =
      cocos (trace Model self) ++
      (if scheduled coco_eval_frequency epoch then [epoch] else [])).
  { rewrite Ht6, Ht5. unfold tracked_losses, saved_epochs, coco_epochs in *.
    rewrite !omap_app, Hs6, Hc6, Hk6, Hs5, Hc5, Hk5. simpl.
    rewrite Hmain'. rewrite !app_nil_r. repeat split; reflexivity. }
  destruct Hproj as (Hk & Hs & Hc). rewrite Hb6 in H.
  destruct (Float.ltb main (best_loss Model self)).
  - apply mbind_ok in H as ([] & s9 & Hset & H).
    unfold set_best_loss in Hset. injection Hset as <-.
    unfold emit in H. injection H as <-. cbn [model recorder best_loss trace].
    unfold tracked_losses, saved_epochs, coco_epochs in *.
    rewrite !omap_app, Hk, Hs, Hc. simpl. rewrite ?app_nil_r. repeat split; auto.
  - unfold ret in H. injection H as <-.
    rewrite Hk, Hs, Hc, app_nil_r. repeat split; auto.
Qed.

(** The epochs of a run that completes, from [start] on. *)
Lemma fit_epochs_ok (training_data validation_data : DataLoader Tensor Target)
    (coco_eval_frequency : option Z) (n : nat) :
  forall (start : nat) (self self' : Trainer Model),
  fit_epochs' training_data validation_data coco_eval_frequency
    (map Z.of_nat (seq start n)) self = (inr tt, self') ->
  exists losses : list float,
    length losses = n /\
    tracked (trace Model self') = tracked (trace Model self) ++ losses /\
    saved (trace Model self') =
      saved (trace Model self) ++
      improvements (best_loss Model self) (Z.of_nat start) losses /\
    cocos (trace Model self') =
      cocos (trace Model self) ++
      filter (fun epoch => scheduled coco_eval_frequency epoch = true)
             (map Z.of_nat (seq start n)) /\
    best_loss Model self' = running_best (best_loss Model self) losses /\
    recorder Model self' = recorder Model self.
Proof.
  induction n as [|n IH]; intros start self self' H.
  - simpl in H. unfold ret in H. injection H as <-. exists [].
    rewrite !app_nil_r. repeat split.
  - cbn [seq map fit_epochs] in H.
    apply mbind_ok in H as ([] & s1 & Hepoch & H).
    apply fit_epoch_ok in Hepoch as (main & Hk1 & Hs1 & Hc1 & Hb1 & Hr1).
    apply IH in H as (losses & Hlen & Hk & Hs & Hc & Hb & Hr).
    exists (main :: losses). split; [simpl; now rewrite Hlen|].
    rewrite Hk, Hs, Hc, Hb, Hr, Hk1, Hs1, Hc1, Hb1, Hr1, <- !app_assoc.
    cbn [seq map improvements running_best fold_left]. rewrite filter_cons.
    replace (Z.of_nat start + 1) with (Z.of_nat (S start)) by lia.
    destruct (Float.ltb main (best_loss Model self));
      destruct (scheduled coco_eval_frequency (Z.of_nat start));
      [rewrite decide_True by reflexivity | rewrite decide_False by discriminate
      |rewrite decide_True by reflexivity | rewrite decide_False by discriminate];
      repeat split.
Qed.

(** A run of [fit] that completes. *)
Lemma fit_ok (training_data validation_data : DataLoader Tensor Target)
    (epochs : Z) (coco_eval_frequency : option Z) (self self' : Trainer Model) :
  fit' training_data validation_data epochs coco_eval_frequency self = (inr tt, self') ->
  exists losses : list float,
    length losses = Z.to_nat epochs /\
    tracked (trace Model self') = tracked (trace Model self) ++ losses /\
    saved (trace Model self') =
      saved (trace Model self) ++ improvements (best_loss Model self) 0 losses /\
    cocos (trace Model self') =
      cocos (trace Model self) ++
      filter (fun epoch => scheduled coco_eval_frequency epoch = true) (range epochs) /\
    best_loss Model self' = running_best (best_loss Model self) losses.
Proof.
  unfold fit, range. intros H.
  apply mbind_ok in H as ([] & s1 & Hloop & H).
  apply fit_epochs_ok in Hloop as (losses & Hlen & Hk & Hs & Hc & Hb & Hr).
  exists losses. split; [exact Hlen|].
  assert (Hend : trace Model self' = trace Model s1 \/
                 trace Model self' = trace Model s1 ++ [RecorderClosed]).
  { destruct (recorder Model s1).
    - unfold emit in H. injection H as <-. now right.
    - unfold ret in H. injection H as <-. now left. }
  assert (Hbest : best_loss Model self' = best_loss Model s1).
  { destruct (recorder Model s1).
    - unfold emit in H. now injection H as <-.
    - unfold ret in H. now injection H as <-. }
  rewrite Hbest, Hb.
  destruct Hend as [-> | ->]; unfold tracked_losses, saved_epochs, coco_epochs in *;
    rewrite ?omap_app; simpl; rewrite ?app_nil_r; rewrite Hk, Hs, Hc; repeat split.
Qed.

End FitProperties.

(** C5. In a run of [fit] that completes, the model is saved at an epoch
    exactly when the tracked term ([loss_mask]) of the validation losses of
    that epoch is strictly less than the best value seen so far, which
    starts as [self.best_loss] and is then updated; an equal value does not
    save. *)
Theorem fit_saves_on_strict_improvement
    (Model ndarray Tensor Target MaskTensor InstanceMask : Type)
    (forward_losses : Model -> list Tensor -> list Target -> gmap string float)
    (optimizer_step : Model -> list Tensor -> list Target -> Model)
    (predict : Model -> Tensor -> Prediction MaskTensor)
    (mask_pixels : MaskTensor -> list N)
    (extract_bbox_segmentation : list N -> list float * Segmentation)
    (read_image : string -> Err ndarray)
    (path_join : string -> string -> string)
    (seg_preprocessing seg_augmentations :
       option (ndarray -> list Annotation -> Err (ndarray * list Annotation)))
    (generate_instance_mask : ndarray -> Annotation -> Err InstanceMask)
    (to_chw_tensor : ndarray -> Tensor)
    (training_data validation_data : DataLoader Tensor Target)
    (epochs : Z) (coco_eval_frequency : option Z) (self self' : Trainer Model) :
  fit Model ndarray Tensor Target MaskTensor InstanceMask forward_losses optimizer_step
    predict mask_pixels extract_bbox_segmentation read_image path_join seg_preprocessing
    seg_augmentations generate_instance_mask to_chw_tensor
    training_data validation_data epochs coco_eval_frequency self = (inr tt, self') ->
  exists losses : list float,
    length losses = Z.to_nat epochs /\
    tracked_losses (trace Model self') = tracked_losses (trace Model self) ++ losses /\
    saved_epochs (trace Model self') =
      saved_epochs (trace Model self) ++ improvements (best_loss Model self) 0 losses /\
    best_loss Model self' = running_best (best_loss Model self) losses /\
    forall (i : nat) (x : float), losses !! i = Some x ->
      (Z.of_nat i ∈ improvements (best_loss Model self) 0 losses <->
       Float.ltb x (running_best (best_loss Model self) (take i losses)) = true) /\
      (Float.eqb x (running_best (best_loss Model self) (take i losses)) = true ->
       Z.of_nat i ∉ improvements (best_loss Model self) 0 losses).
Proof.
  intros H. apply fit_ok in H as (losses & Hlen & Hk & Hs & _ & Hb).
  exists losses. repeat (split; [assumption|]).
  intros i x Hi. pose proof (improvements_spec (best_loss Model self) losses i x Hi) as Hspec.
  split; [exact Hspec|].
  intros Htie Hin. apply Hspec in Hin. apply ltb_tie in Htie. congruence.
Qed.

(** C6. In a run of [fit] that completes, the COCO-evaluation phase runs at
    the epochs [e] of [range(epochs)] with [e % coco_eval_frequency == 0],
    in order, and at no epoch when the frequency is [None]. *)
Theorem fit_coco_eval_schedule
    (Model ndarray Tensor Target MaskTensor InstanceMask : Type)
    (forward_losses : Model -> list Tensor -> list Target -> gmap string float)
    (optimizer_step : Model -> list Tensor -> list Target -> Model)
    (predict : Model -> Tensor -> Prediction MaskTensor)
    (mask_pixels : MaskTensor -> list N)
    (extract_bbox_segmentation : list N -> list float * Segmentation)
    (read_image : string -> Err ndarray)
    (path_join : string -> string -> string)
    (seg_preprocessing seg_augmentations :
       option (ndarray -> list Annotation -> Err (ndarray * list Annotation)))
    (generate_instance_mask : ndarray -> Annotation -> Err InstanceMask)
    (to_chw_tensor : ndarray -> Tensor)
    (training_data validation_data : DataLoader Tensor Target)
    (epochs : Z) (coco_eval_frequency : option Z) (self self' : Trainer Model) :
  fit Model ndarray Tensor Target MaskTensor InstanceMask forward_losses optimizer_step
    predict mask_pixels extract_bbox_segmentation read_image path_join seg_preprocessing
    seg_augmentations generate_instance_mask to_chw_tensor
    training_data validation_data epochs coco_eval_frequency self = (inr tt, self') ->
  coco_epochs (trace Model self') =
    coco_epochs (trace Model self) ++
    match coco_eval_frequency with
    | None => []
    | Some frequency => filter (fun e => e mod frequency = 0) (range epochs)
    end.
Proof.
  intros H. apply fit_ok in H as (losses & _ & _ & _ & Hc & _).
  rewrite Hc. f_equal. destruct coco_eval_frequency as [frequency|]; simpl.
  - apply list_filter_iff. intros e. apply Z.eqb_eq.
  - apply filter_none. apply Forall_forall. intros e _. discriminate.
Qed.

(** The scenario: saves at the epochs 0, 1 and 3, not at epoch 2. *)
Lemma fit_saves_on_strict_improvement_witness :
  exists self' : Trainer nat,
    toy_fit 4 None = (inr tt, self') /\
    tracked_losses (trace nat self') =
      [Float.of_int 5; Float.of_int 3; Float.of_int 4; Float.of_int 2] /\
    saved_epochs (trace nat self') = [0; 1; 3] /\
    best_loss nat self' = Float.of_int 2.
Proof.
  exists (snd (toy_fit 4 None)).
  assert (Hrun : toy_fit 4 None = (inr tt, snd (toy_fit 4 None)))
    by (vm_compute; reflexivity).
  split; [exact Hrun|].
  destruct (fit_saves_on_strict_improvement _ _ _ _ _ _ _ _ _ _ _ _ _ _ _ _ _ _ _ _ _ _ _
              Hrun) as (losses & _ & Hk & Hs & Hb & _).
  assert (Hlosses : losses = [Float.of_int 5; Float.of_int 3; Float.of_int 4; Float.of_int 2]).
  { vm_compute in Hk. rewrite <- Hk. vm_compute. reflexivity. }
  subst losses. split; [|split].
  - rewrite Hk. vm_compute. reflexivity.
  - rewrite Hs. vm_compute. reflexivity.
  - rewrite Hb. vm_compute. reflexivity.
Defined.

(** The scenario: with the frequency 2 over 5 epochs the COCO evaluation
    runs at the epochs 0, 2 and 4 only. *)
Lemma fit_coco_eval_schedule_witness :
  exists self' : Trainer nat,
    toy_fit 5 (Some 2) = (inr tt, self') /\
    coco_epochs (trace nat self') = [0; 2; 4].
Proof.
  exists (snd (toy_fit 5 (Some 2))).
  assert (Hrun : toy_fit 5 (Some 2) = (inr tt, snd (toy_fit 5 (Some 2))))
    by (vm_compute; reflexivity).
  split; [exact Hrun|].
  rewrite (fit_coco_eval_schedule _ _ _ _ _ _ _ _ _ _ _ _ _ _ _ _ _ _ _ _ _ _ _ Hrun).
  vm_compute. reflexivity.
Defined.

(** Without a frequency the COCO evaluation never runs. *)
Example fit_without_coco_eval :
  coco_epochs (trace nat (snd (toy_fit 5 None))) = [].
Proof. vm_compute. reflexivity. Qed.

(** A frequency of 0 raises [ZeroDivisionError] in the first epoch. *)
Example fit_frequency_zero :
  fst (toy_fit 5 (Some 0)) = inl ZeroDivisionError.
Proof. vm_compute. reflexivity. Qed.

(** Two images with three predicted instances each, one of them entirely
    background: four annotations, with the ids 1, 2, 3, 4. *)
Lemma coco_eval_annotation_ids_witness :
  exists gt pred : COCOData,
    toy_coco_eval = inr (gt, pred) /\
    map ann_id (data_annotations pred) = [1; 2; 3; 4] /\
    map ann_image_id (data_annotations pred) = [1; 1; 2; 2] /\
    map ann_category_id (data_annotations pred) = [2; 1; 2; 1].
Proof.
  eexists _, _. split; [vm_compute; reflexivity|].
  match goal with
  | |- map ann_id (data_annotations ?p) = _ /\ _ =>
      assert (Hrun : toy_coco_eval = inr (toy_data, p)) by (vm_compute; reflexivity);
      destruct (coco_eval_annotation_ids _ _ _ _ _ _ _ _ _ _ _ _ _ _ _ _ _ _ _ Hrun)
        as (preds & _ & _ & _ & Hids & _)
  end.
  split; [rewrite Hids; vm_compute; reflexivity|].
  split; vm_compute; reflexivity.
Defined.

(* ===================================================================== *)

(** * Further properties *)

(** ** [split]: what the subsets hold and when it raises *)

Lemma mapM_length {A B} (f : A -> Err B) (l : list A) (ys : list B) :
  mapM f l = inr ys -> length ys = length l.
Proof. intros H. apply mapM_ok in H. symmetry. exact (Forall2_length _ _ _ H). Qed.

Lemma slices_length (sizes : list Z) : forall pool, length (slices pool sizes) = length sizes.
Proof. induction sizes as [|ss sizes IH]; intros pool; simpl; [reflexivity | now rewrite IH]. Qed.

(** What a split that returns has done: the sizes it computed, and the
    subsets it built for the id lists taken off the pool. *)
Lemma split_subsets_spec (np_sum : list float -> float) (shuffle : list Z -> list Z)
    (h : Heap) (self : CocoDataset) (percentages : list float) (random : bool)
    (h' : Heap) (subsets : list CocoDataset) :
  (forall l, shuffle l ≡ₚ l) ->
  dataset_ok h self ->
  split np_sum shuffle h self percentages random = inr (h', subsets) ->
  exists sizes,
    subset_sizes (total_images self) percentages = inr sizes /\
    heap_le h h' /\
    Forall2 (subset_spec (store_annotations h self) (tree_images self) h')
            (slices (pool shuffle self random) sizes) subsets.
Proof.
  intros Hsh Hok H.
  apply split_ok_inv in H as (_ & sizes & Hsizes & Hloop).
  destruct (pool_ok shuffle h self random Hsh Hok) as (Hsub & Hnd & _).
  apply split_loop_spec in Hloop as [Hle Hall]; [|assumption..].
  exists sizes. auto.
Qed.

Lemma subset_spec_elem (src : list Annotation) (src_images : list loc) (h' : Heap)
    (idxs : list (list Z)) (subsets : list CocoDataset) (s : CocoDataset) :
  Forall2 (subset_spec src src_images h') idxs subsets -> s ∈ subsets ->
  exists idx, idx ∈ idxs /\ subset_spec src src_images h' idx s.
Proof.
  induction 1 as [|idx s0 idxs subsets Hspec _ IH]; intros Hs.
  - now apply elem_of_nil in Hs.
  - apply elem_of_cons in Hs as [->|Hs].
    + exists idx. split; [apply list_elem_of_here | exact Hspec].
    + destruct (IH Hs) as (idx' & Hin & Hspec'). exists idx'.
      split; [now apply list_elem_of_further | exact Hspec'].
Qed.

(** X1. A [split] that returns gives one subset per percentage, and the
    image ids of the subsets, read subset after subset, are a prefix of the
    pool, which is [list(self.images.keys())], shuffled when [random] is
    set: each subset takes the segment of the pool that follows the
    segment of the subset before it.  Without shuffling and with distinct
    image ids the subsets follow the image list of the store. *)
Theorem split_takes_consecutive_segments (np_sum : list float -> float)
    (shuffle : list Z -> list Z) (h : Heap) (self : CocoDataset)
    (percentages : list float) (random : bool) (h' : Heap) (subsets : list CocoDataset) :
  (forall l, shuffle l ≡ₚ l) ->
  dataset_ok h self ->
  split np_sum shuffle h self percentages random = inr (h', subsets) ->
  length subsets = length percentages /\
  concat (map (image_ids h') subsets) `prefix_of`
    (if random then shuffle (keys (images self)) else keys (images self)) /\
  (random = false -> NoDup (image_ids h self) ->
   concat (map (image_ids h') subsets) `prefix_of` image_ids h self).
Proof.
  intros Hsh Hok H.
  pose proof H as H0.
  apply split_ok_inv in H0 as (_ & sizes & Hsizes & Hloop).
  destruct (split_subsets_spec _ _ _ _ _ _ _ _ Hsh Hok H) as (sizes' & Hsizes' & _ & Hall).
  rewrite Hsizes in Hsizes'. injection Hsizes' as <-.
  pose proof (split_image_ids np_sum _ _ _ _ _ _ _ _ Hsh Hok Hsizes Hloop) as Hids.
  assert (Hprefix : concat (map (image_ids h') subsets) `prefix_of` pool shuffle self random).
  { rewrite Hids. exists (remainder (pool shuffle self random) sizes).
    symmetry. apply slices_remainder. }
  split; [|split].
  - rewrite <- (Forall2_length _ _ _ Hall), slices_length.
    unfold subset_sizes in Hsizes. now apply mapM_length in Hsizes.
  - exact Hprefix.
  - intros -> Hnd. unfold pool in Hprefix.
    rewrite (ok_images _ _ Hok), to_dict_keys in Hprefix by exact Hnd. exact Hprefix.
Qed.

Lemma split_takes_consecutive_segments_witness :
  length ten_images_subsets = 3%nat /\
  concat (map (image_ids ten_images_split_heap) ten_images_subsets) `prefix_of`
    image_ids (fst ten_images) (snd ten_images) /\
  concat (map (image_ids ten_images_split_heap) ten_images_subsets) =
    [1; 2; 3; 4; 5; 6; 7; 8; 9; 10].
Proof.
  destruct (split_takes_consecutive_segments np_sum_in_order no_shuffle
              (fst ten_images) (snd ten_images) half_third_fifth false
              ten_images_split_heap ten_images_subsets
              no_shuffle_perm (init_ok _ _ _ _ _) ten_images_split_eq) as (Hlen & _ & Hpre).
  split; [exact Hlen|]. split; [|vm_compute; reflexivity].
  apply Hpre; [reflexivity|]. vm_compute.
  repeat (apply NoDup_cons; split; [intros Hin; repeat (apply elem_of_cons in Hin as [Hin|Hin]; [discriminate|]); now apply elem_of_nil in Hin|]).
  apply NoDup_nil_2.
Defined.

(** X2. In every subset of a [split] that returns, the annotation list of
    the store is aligned with its image list: the annotation at position
    [i] belongs to the image at position [i].  The index [subset.images]
    has the image ids of the store of the subset as keys, and [len(subset)]
    is the number of its images. *)
Theorem split_subset_annotations_follow_images (np_sum : list float -> float)
    (shuffle : list Z -> list Z) (h : Heap) (self : CocoDataset)
    (percentages : list float) (random : bool) (h' : Heap)
    (subsets : list CocoDataset) (s : CocoDataset) :
  (forall l, shuffle l ≡ₚ l) ->
  dataset_ok h self ->
  split np_sum shuffle h self percentages random = inr (h', subsets) ->
  s ∈ subsets ->
  map ann_image_id (store_annotations h' s) = image_ids h' s /\
  keys (images s) = image_ids h' s /\
  len s = Z.of_nat (length (image_ids h' s)).
Proof.
  intros Hsh Hok H Hs.
  destruct (split_subsets_spec _ _ _ _ _ _ _ _ Hsh Hok H) as (sizes & _ & _ & Hall).
  destruct (subset_spec_elem _ _ _ _ _ _ Hall Hs) as (idx & _ & Hspec).
  destruct Hspec as [Hids Hkeys Hanns _ _ Halias _].
  assert (Hmap : map ann_image_id (store_annotations h' s) = idx).
  { apply Forall2_map_eq. eapply Forall2_impl; [exact Hanns|].
    intros k a Ha. now apply first_annotation_key in Ha. }
  split; [now rewrite Hmap, Hids|]. split; [now rewrite Hkeys, Hids|].
  unfold len. rewrite Halias, Hids, <- Hmap. unfold store_annotations.
  now rewrite !length_map.
Qed.

Lemma split_subset_annotations_follow_images_witness :
  exists s : CocoDataset,
    s ∈ ten_images_subsets /\
    map ann_image_id (store_annotations ten_images_split_heap s) = [1; 2; 3; 4; 5] /\
    len s = 5 /\
    len (snd ten_images) = 11.
Proof.
  exists (List.hd (snd ten_images) ten_images_subsets).
  split; [apply list_elem_of_here|].
  destruct (split_subset_annotations_follow_images np_sum_in_order no_shuffle
              (fst ten_images) (snd ten_images) half_third_fifth false
              ten_images_split_heap ten_images_subsets
              (List.hd (snd ten_images) ten_images_subsets)
              no_shuffle_perm (init_ok _ _ _ _ _) ten_images_split_eq
              (list_elem_of_here _ _)) as (Hmap & _ & Hlen).
  split; [rewrite Hmap; vm_compute; reflexivity|].
  split; [rewrite Hlen; vm_compute; reflexivity | vm_compute; reflexivity].
Defined.

(** X3. A [split] that returns only allocates objects: every record that
    existed before the call is as it was, and the images and annotations of
    the store of the source dataset read as before. *)
Theorem split_leaves_source_unchanged (np_sum : list float -> float)
    (shuffle : list Z -> list Z) (h : Heap) (self : CocoDataset)
    (percentages : list float) (random : bool) (h' : Heap) (subsets : list CocoDataset) :
  (forall l, shuffle l ≡ₚ l) ->
  dataset_ok h self ->
  split np_sum shuffle h self percentages random = inr (h', subsets) ->
  heap_le h h' /\
  store_images h' self = store_images h self /\
  store_annotations h' self = store_annotations h self.
Proof.
  intros Hsh Hok H.
  destruct (split_subsets_spec _ _ _ _ _ _ _ _ Hsh Hok H) as (sizes & _ & Hle & _).
  split; [exact Hle|]. split.
  - unfold store_images. apply map_ext_Forall.
    eapply Forall_impl; [apply (ok_image_refs _ _ Hok)|].
    intros l Hl. now apply heap_le_image_at.
  - apply store_annotations_mono; [exact Hle | apply (ok_annotation_refs _ _ Hok)].
Qed.

Lemma split_leaves_source_unchanged_witness :
  heap_le (fst ten_images) ten_images_split_heap /\
  store_images ten_images_split_heap (snd ten_images) =
    store_images (fst ten_images) (snd ten_images) /\
  store_annotations ten_images_split_heap (snd ten_images) =
    store_annotations (fst ten_images) (snd ten_images).
Proof.
  exact (split_leaves_source_unchanged np_sum_in_order no_shuffle
           (fst ten_images) (snd ten_images) half_third_fifth false
           ten_images_split_heap ten_images_subsets
           no_shuffle_perm (init_ok _ _ _ _ _) ten_images_split_eq).
Defined.

(** The annotation objects picked for a subset are objects of the copy
    that [deepcopy] has just made. *)
Lemma picked_refs_fresh (h : Heap) (self : CocoDataset) (idx : list Z) (picked : list loc) :
  dataset_ok h self ->
  mapM (first_of (to_dict (annotation_image_key (fst (deepcopy h self)))
                          (tree_annotations (snd (deepcopy h self))))) idx = inr picked ->
  Forall (fun l => (length (annotation_objs h) <= l <
                    length (annotation_objs (fst (deepcopy h self))))%nat) picked.
Proof.
  intros Hok Hm. apply pick_first_ok in Hm.
  pose proof (ok_annotation_refs _ _ Hok) as Hrefs.
  induction Hm as [|k l idx picked Hl _ IH]; constructor; [|exact IH].
  rewrite copied_group in Hl by exact Hrefs.
  destruct (group (annotation_image_key h) k (tree_annotations self)) as [|l0 g] eqn:Hg;
    [discriminate|].
  cbn [map head] in Hl. injection Hl as <-.
  assert (Hin : l0 ∈ group (annotation_image_key h) k (tree_annotations self))
    by (rewrite Hg; apply list_elem_of_here).
  apply group_elem in Hin as [Hin _].
  pose proof (proj1 (Forall_forall _ _) Hrefs l0 Hin) as Hl0. cbv beta in Hl0.
  unfold deepcopy. cbn [fst annotation_objs]. rewrite length_app. lia.
Qed.

(** The annotation objects of the subsets built by the loop of [split]
    are allocated by the loop, and no two subsets hold the same one. *)
Lemma split_loop_annotation_refs (self : CocoDataset) (sizes : list Z) :
  forall (h : Heap) (pool : list Z) (h' : Heap) (subsets : list CocoDataset),
  dataset_ok h self -> pool ⊆ keys (images self) -> NoDup pool ->
  split_loop h self pool sizes = inr (h', subsets) ->
  Forall (fun s => Forall (fun l => (length (annotation_objs h) <= l)%nat)
                          (tree_annotations s)) subsets /\
  (forall (i j : nat) (s1 s2 : CocoDataset),
      i <> j -> subsets !! i = Some s1 -> subsets !! j = Some s2 ->
      tree_annotations s1 ## tree_annotations s2).
Proof.
  induction sizes as [|ss sizes IH]; intros h pool h' subsets Hok Hsub Hnd H.
  - injection H as <- <-. split; [constructor|]. intros i j s1 s2 _ Hi. discriminate.
  - rewrite split_loop_cons in H. cbv zeta in H.
    apply bind_ok in H as (irefs & Hirefs & H).
    apply bind_ok in H as (picked & Hpicked & H).
    apply bind_ok in H as ([h2 subs] & Hrec & H).
    injection H as <- <-.
    pose proof (deepcopy_heap_le h self) as Hle1.
    destruct (slice_NoDup pool ss Hnd) as [Hnd1 Hnd2].
    apply picked_refs_fresh in Hpicked; [|exact Hok].
    apply IH in Hrec as [Hfresh Hdisj].
    + assert (Hrest : Forall (fun s => Forall (fun l =>
                 (length (annotation_objs (fst (deepcopy h self))) <= l)%nat)
                 (tree_annotations s)) subs) by exact Hfresh.
      split.
      * constructor; cbn [tree_annotations].
        -- eapply Forall_impl; [exact Hpicked|]. intros l Hl; cbv beta in Hl. lia.
        -- eapply Forall_impl; [exact Hrest|]. intros s Hs; cbv beta in Hs.
           eapply Forall_impl; [exact Hs|]. intros l Hl; cbv beta in Hl.
           pose proof (heap_le_annotation_length _ _ Hle1). lia.
      * assert (Hhead : forall j s2 l, subs !! j = Some s2 -> l ∈ picked ->
                          l ∈ tree_annotations s2 -> False).
        { intros j s2 l Hj Hl1 Hl2.
          apply list_elem_of_lookup_2 in Hj.
          pose proof (proj1 (Forall_forall _ _) Hrest s2 Hj) as Hs2. cbv beta in Hs2.
          pose proof (proj1 (Forall_forall _ _) Hs2 l Hl2) as Hge. cbv beta in Hge.
          pose proof (proj1 (Forall_forall _ _) Hpicked l Hl1) as Hlt. cbv beta in Hlt. lia. }
        intros [|i] [|j] s1 s2 Hij Hi Hj; simpl in Hi, Hj.
        -- contradiction.
        -- injection Hi as <-. cbn [tree_annotations]. intros l Hl1 Hl2.
           exact (Hhead j s2 l Hj Hl1 Hl2).
        -- injection Hj as <-. cbn [tree_annotations]. intros l Hl1 Hl2.
           exact (Hhead i s1 l Hi Hl2 Hl1).
        -- apply (Hdisj i j); [lia | exact Hi | exact Hj].
    + now apply (dataset_ok_mono h).
    + intros k Hk. apply Hsub. now apply slice_from_subseteq in Hk.
    + exact Hnd2.
Qed.

(** X4. The annotation records of the subsets are copies made by
    [deepcopy]: no subset holds an annotation object of the source dataset,
    and no two subsets hold the same annotation object. *)
Theorem split_copies_annotation_objects (np_sum : list float -> float)
    (shuffle : list Z -> list Z) (h : Heap) (self : CocoDataset)
    (percentages : list float) (random : bool) (h' : Heap) (subsets : list CocoDataset) :
  (forall l, shuffle l ≡ₚ l) ->
  dataset_ok h self ->
  split np_sum shuffle h self percentages random = inr (h', subsets) ->
  (forall s, s ∈ subsets -> tree_annotations s ## tree_annotations self) /\
  (forall (i j : nat) (s1 s2 : CocoDataset),
      i <> j -> subsets !! i = Some s1 -> subsets !! j = Some s2 ->
      tree_annotations s1 ## tree_annotations s2).
Proof.
  intros Hsh Hok H.
  apply split_ok_inv in H as (_ & sizes & _ & Hloop).
  destruct (pool_ok shuffle h self random Hsh Hok) as (Hsub & Hnd & _).
  apply split_loop_annotation_refs in Hloop as [Hfresh Hdisj]; [|assumption..].
  split; [|exact Hdisj].
  intros s Hs l Hl1 Hl2.
  pose proof (proj1 (Forall_forall _ _) Hfresh s Hs) as Hs'. cbv beta in Hs'.
  pose proof (proj1 (Forall_forall _ _) Hs' l Hl1) as Hge. cbv beta in Hge.
  pose proof (proj1 (Forall_forall _ _) (ok_annotation_refs _ _ Hok) l Hl2) as Hlt.
  simpl in Hlt. lia.
Qed.

Lemma split_copies_annotation_objects_witness :
  (forall s, s ∈ ten_images_subsets ->
     tree_annotations s ## tree_annotations (snd ten_images)) /\
  map tree_annotations ten_images_subsets =
    [[11; 13; 14; 15; 16]; [28; 29; 30]; [53; 54]]%nat /\
  tree_annotations (snd ten_images) = [0; 1; 2; 3; 4; 5; 6; 7; 8; 9; 10]%nat.
Proof.
  split; [|split; vm_compute; reflexivity].
  exact (proj1 (split_copies_annotation_objects np_sum_in_order no_shuffle
                  (fst ten_images) (snd ten_images) half_third_fifth false
                  ten_images_split_heap ten_images_subsets
                  no_shuffle_perm (init_ok _ _ _ _ _) ten_images_split_eq)).
Defined.

Lemma slices_subseteq (sizes : list Z) (pool : list Z) : concat (slices pool sizes) ⊆ pool.
Proof.
  intros k Hk. rewrite <- (slices_remainder sizes pool). apply elem_of_app. now left.
Qed.

Lemma in_group_false {A} (key : A -> Z) (items : list A) (k : Z) :
  in_group key items k = false <-> group key k items = [].
Proof. unfold in_group. destruct (group key k items); split; congruence. Qed.

(** The loop of [split] returns, or it raises the [KeyError] of the first
    selected image id without annotation. *)
Lemma split_loop_outcome (self : CocoDataset) (sizes : list Z) (h : Heap) (pool : list Z) :
  dataset_ok h self -> pool ⊆ keys (images self) -> NoDup pool ->
  match first_absent (in_group ann_image_id (store_annotations h self))
                     (concat (slices pool sizes)) with
  | Some k => split_loop h self pool sizes = inl (KeyError (IntKey k))
  | None => exists r, split_loop h self pool sizes = inr r
  end.
Proof.
  intros Hok Hsub Hnd.
  destruct (first_absent _ _) as [k|] eqn:Hfirst.
  - now apply split_loop_raises.
  - now apply split_loop_total.
Qed.

(** X5. The exceptions of [split], on a dataset whose index [self.images]
    is the one [__post_init__] builds: the [AssertionError] of the sum
    check, the [ValueError] or [OverflowError] of [int(total_images * perc)]
    for a product that is NaN or infinite, and the [KeyError] of an image id
    of the dataset that no annotation of the store refers to.  There is no
    other. *)
Theorem split_raises_only (np_sum : list float -> float)
    (shuffle : list Z -> list Z) (h : Heap) (self : CocoDataset)
    (percentages : list float) (random : bool) (e : PyError) :
  (forall l, shuffle l ≡ₚ l) ->
  dataset_ok h self ->
  split np_sum shuffle h self percentages random = inl e ->
  (e = AssertionError "Summation of percentages must be equal to 1." /\
   Float.eqb (np_sum percentages) (Float.of_int 1) = false) \/
  ((e = ValueError \/ e = OverflowError) /\
   subset_sizes (total_images self) percentages = inl e) \/
  (exists k : Z, e = KeyError (IntKey k) /\ k ∈ keys (images self) /\
     group ann_image_id k (store_annotations h self) = []).
Proof.
  intros Hsh Hok. unfold split.
  destruct (Float.eqb (np_sum percentages) (Float.of_int 1)); cbn [negb].
  - fold (total_images self). fold (pool shuffle self random).
    destruct (subset_sizes (total_images self) percentages) as [e'|sizes] eqn:Hsizes;
      cbn [bind].
    + intros [= ->]. right. left. split; [|reflexivity].
      now apply subset_sizes_error in Hsizes.
    + intros Hloop. right. right.
      destruct (pool_ok shuffle h self random Hsh Hok) as (Hsub & Hnd & _).
      pose proof (split_loop_outcome self sizes h _ Hok Hsub Hnd) as Hout.
      destruct (first_absent _ _) as [k|] eqn:Hfirst.
      * rewrite Hout in Hloop. injection Hloop as <-.
        apply first_absent_Some in Hfirst as [Hin Habs].
        exists k. split; [reflexivity|]. split.
        -- apply Hsub. now apply slices_subseteq in Hin.
        -- now apply in_group_false.
      * destruct Hout as [r Hr]. congruence.
  - intros [= <-]. now left.
Qed.

Lemma two_images_split_raises :
  split np_sum_in_order no_shuffle (fst two_images) (snd two_images) [Float.of_int 1] false =
  inl (KeyError (IntKey 2)).
Proof. vm_compute. reflexivity. Qed.

Lemma split_raises_only_witness :
  split np_sum_in_order no_shuffle (fst two_images) (snd two_images) [Float.of_int 1] false =
    inl (KeyError (IntKey 2)) /\
  exists k : Z, KeyError (IntKey 2) = KeyError (IntKey k) /\
    k ∈ keys (images (snd two_images)) /\
    group ann_image_id k (store_annotations (fst two_images) (snd two_images)) = [].
Proof.
  pose proof two_images_split_raises as Hrun.
  split; [exact Hrun|].
  destruct (split_raises_only np_sum_in_order no_shuffle (fst two_images) (snd two_images)
              [Float.of_int 1] false (KeyError (IntKey 2))
              no_shuffle_perm (init_ok _ _ _ _ _) Hrun) as [[H _]|[[[H|H] _]|H]];
    [discriminate | discriminate | discriminate | exact H].
Defined.

(** X6. [split] returns exactly when the sum check passes, every count
    [int(total_images * perc)] is computed, and every image id selected
    into a subset has an annotation in the store. *)
Theorem split_returns_iff (np_sum : list float -> float)
    (shuffle : list Z -> list Z) (h : Heap) (self : CocoDataset)
    (percentages : list float) (random : bool) :
  (forall l, shuffle l ≡ₚ l) ->
  dataset_ok h self ->
  (exists r, split np_sum shuffle h self percentages random = inr r) <->
  Float.eqb (np_sum percentages) (Float.of_int 1) = true /\
  exists sizes : list Z,
    subset_sizes (total_images self) percentages = inr sizes /\
    Forall (fun k => group ann_image_id k (store_annotations h self) <> [])
           (selected shuffle self random sizes).
Proof.
  intros Hsh Hok.
  destruct (pool_ok shuffle h self random Hsh Hok) as (Hsub & Hnd & _).
  split.
  - intros [r H]. apply split_ok_inv in H as (Hsum & sizes & Hsizes & Hloop).
    split; [exact Hsum|]. exists sizes. split; [exact Hsizes|].
    pose proof (split_loop_outcome self sizes h _ Hok Hsub Hnd) as Hout.
    destruct (first_absent _ _) as [k|] eqn:Hfirst; [congruence|].
    apply first_absent_None in Hfirst. unfold selected.
    eapply Forall_impl; [exact Hfirst|]. intros k Hk Hnil; simpl in Hk.
    apply in_group_false in Hnil. congruence.
  - intros (Hsum & sizes & Hsizes & Hall). unfold split. rewrite Hsum. cbn [negb].
    fold (total_images self). fold (pool shuffle self random).
    rewrite Hsizes. cbn [bind].
    pose proof (split_loop_outcome self sizes h _ Hok Hsub Hnd) as Hout.
    destruct (first_absent _ _) as [k|] eqn:Hfirst; [|exact Hout].
    apply first_absent_Some in Hfirst as [Hin Habs]. exfalso.
    apply in_group_false in Habs.
    exact (proj1 (Forall_forall _ _) Hall k Hin Habs).
Qed.

Lemma ten_images_annotated :
  Float.eqb (np_sum_in_order half_third_fifth) (Float.of_int 1) = true /\
  subset_sizes (total_images (snd ten_images)) half_third_fifth = inr [5; 3; 2] /\
  Forall (fun k => group ann_image_id k
                     (store_annotations (fst ten_images) (snd ten_images)) <> [])
         (selected no_shuffle (snd ten_images) false [5; 3; 2]).
Proof.
  split; [vm_compute; reflexivity|]. split; [vm_compute; reflexivity|].
  assert (H : forallb (fun k => match group ann_image_id k
                                        (store_annotations (fst ten_images) (snd ten_images)) with
                                | [] => false
                                | _ :: _ => true
                                end)
                      (selected no_shuffle (snd ten_images) false [5; 3; 2]) = true)
    by (vm_compute; reflexivity).
  apply Forall_forall. intros k Hk. apply list_elem_of_In in Hk.
  pose proof (proj1 (forallb_forall _ _) H k Hk) as Hg. cbv beta in Hg.
  intros Hnil. rewrite Hnil in Hg. discriminate.
Qed.

Lemma split_returns_iff_witness :
  (exists r, split np_sum_in_order no_shuffle (fst ten_images) (snd ten_images)
               half_third_fifth false = inr r) /\
  ~ (exists r, split np_sum_in_order no_shuffle (fst two_images) (snd two_images)
                 [Float.of_int 1] false = inr r).
Proof.
  split.
  - apply (split_returns_iff np_sum_in_order no_shuffle (fst ten_images) (snd ten_images)
             half_third_fifth false no_shuffle_perm (init_ok _ _ _ _ _)).
    split; [exact (proj1 ten_images_annotated)|]. exists [5; 3; 2].
    exact (proj2 ten_images_annotated).
  - intros [r Hr]. rewrite two_images_split_raises in Hr. discriminate.
Defined.

(** ** [CocoDatasetClassification]: samples and well-formed datasets *)

Lemma list_getitem_head {A} (x : A) (g : list A) : list_getitem (x :: g) 0 = inr x.
Proof.
  destruct (list_getitem_in_range (x :: g) 0) as (y & Hy & Hl); [simpl; lia|].
  simpl in Hl. now injection Hl as ->.
Qed.

Section GetitemProperties.

Variable ndarray Tensor : Type.
Variable read_image : string -> Err ndarray.
Variable path_join : string -> string -> string.
Variable to_chw_tensor : ndarray -> Tensor.
Variable preprocessing augmentations :
  option (ndarray -> Annotation -> Err (ndarray * Annotation)).

#[local] Abbreviation getitem' :=
  (getitem ndarray Tensor read_image path_join to_chw_tensor preprocessing augmentations).

(** [__getitem__] without its index lookups: the image is the first image
    record of the store with the id of the annotation, and the label is the
    category id of the transformed annotation, less one, when the store has
    a category of that id. *)
Lemma getitem_eq (h : Heap) (self : CocoDataset) (idx : Z) (aref : loc) :
  images self = to_dict (image_key h) (tree_images self) ->
  categories self = to_dict (category_key h) (tree_categories self) ->
  list_getitem (annotations self) idx = inr aref ->
  getitem' h self idx =
  match head (group (image_key h) (ann_image_id (annotation_at h aref)) (tree_images self)) with
  | None => raise (KeyError (IntKey (ann_image_id (annotation_at h aref))))
  | Some iref =>
      let* image := read_image (path_join (data_directory_path self)
                                  (img_file_name (image_at h iref))) in
      let* (image, annotation) :=
        apply_transform ndarray preprocessing image (annotation_at h aref) in
      let* (image, annotation) := apply_transform ndarray augmentations image annotation in
      if decide (ann_category_id annotation ∈ map (category_key h) (tree_categories self))
      then ok (to_chw_tensor image, ann_category_id annotation - 1)
      else raise (KeyError (IntKey (ann_category_id annotation)))
  end.
Proof.
  intros Himg Hcat Hidx. unfold getitem. rewrite Hidx. cbn [bind ok].
  rewrite Himg, Hcat. unfold dict_getitem at 1. rewrite to_dict_lookup.
  destruct (group (image_key h) _ (tree_images self)) as [|iref g] eqn:Hg; [reflexivity|].
  cbn [bind ok head]. rewrite list_getitem_head. cbn [bind ok].
  destruct (read_image _) as [e|image]; [reflexivity|]. cbn [bind ok].
  destruct (apply_transform ndarray preprocessing image _) as [e|[image1 a1]];
    [reflexivity|]. cbn [bind ok].
  destruct (apply_transform ndarray augmentations image1 a1) as [e|[image2 a2]];
    [reflexivity|]. cbn [bind ok].
  unfold dict_getitem. rewrite to_dict_lookup.
  destruct (group (category_key h) (ann_category_id a2) (tree_categories self))
    as [|cref gc] eqn:Hgc.
  - apply group_nil in Hgc. rewrite decide_False by exact Hgc. reflexivity.
  - assert (Hin : cref ∈ group (category_key h) (ann_category_id a2) (tree_categories self))
      by (rewrite Hgc; apply list_elem_of_here).
    apply group_elem in Hin as [Hin Hkey]. unfold category_key in Hkey.
    cbn [bind ok]. rewrite list_getitem_head. cbn [bind ok]. rewrite Hkey.
    rewrite decide_True; [reflexivity|].
    destruct (decide (ann_category_id a2 ∈ map (category_key h) (tree_categories self)))
      as [Hyes|Hno]; [exact Hyes|].
    apply group_nil in Hno. congruence.
Qed.

End GetitemProperties.


(** X8. [__getitem__] raises a [KeyError] for an annotation that refers to
    a missing record: with the image id as key when the store has no image
    of that id, before any file is read; with the category id as key when,
    after the image was read and transformed, the store has no category with
    the category id of the transformed annotation. *)
Theorem getitem_dangling_reference_raises (ndarray Tensor : Type)
    (read_image : string -> Err ndarray) (path_join : string -> string -> string)
    (to_chw_tensor : ndarray -> Tensor)
    (preprocessing augmentations : option (ndarray -> Annotation -> Err (ndarray * Annotation)))
    (h : Heap) (self : CocoDataset) (idx : Z) (aref : loc) :
  images self = to_dict (image_key h) (tree_images self) ->
  categories self = to_dict (category_key h) (tree_categories self) ->
  list_getitem (annotations self) idx = inr aref ->
  let get := getitem ndarray Tensor read_image path_join to_chw_tensor
               preprocessing augmentations h self in
  (ann_image_id (annotation_at h aref) ∉ image_ids h self ->
   get idx = inl (KeyError (IntKey (ann_image_id (annotation_at h aref))))) /\
  (forall (iref : loc) (image image1 image2 : ndarray) (a1 a2 : Annotation),
     head (group (image_key h) (ann_image_id (annotation_at h aref)) (tree_images self))
       = Some iref ->
     read_image (path_join (data_directory_path self) (img_file_name (image_at h iref)))
       = inr image ->
     apply_transform ndarray preprocessing image (annotation_at h aref) = inr (image1, a1) ->
     apply_transform ndarray augmentations image1 a1 = inr (image2, a2) ->
     ann_category_id a2 ∉ map (category_key h) (tree_categories self) ->
     get idx = inl (KeyError (IntKey (ann_category_id a2)))).
Proof.
  intros Himg Hcat Hidx get. subst get.
  rewrite (getitem_eq _ _ _ _ _ _ _ _ _ _ aref Himg Hcat Hidx). split.
  - intros Hnone. apply group_nil in Hnone. now rewrite Hnone.
  - intros iref image image1 image2 a1 a2 Hfirst Hread Hpre Haug Hnone.
    rewrite Hfirst, Hread. cbn [bind]. rewrite Hpre. cbn [bind]. rewrite Haug. cbn [bind].
    now rewrite decide_False by exact Hnone.
Qed.


Lemma getitem_dangling_reference_raises_witness :
  getitem string string read_path path_join_slash (fun image => image) None None
    (fst dangling_references) (snd dangling_references) 0 = inl (KeyError (IntKey 5)) /\
  getitem string string read_path path_join_slash (fun image => image) None None
    (fst dangling_references) (snd dangling_references) 1 = inl (KeyError (IntKey 9)).
Proof.
  split.
  - apply (proj1 (getitem_dangling_reference_raises string string read_path path_join_slash
                    (fun image => image) None None
                    (fst dangling_references) (snd dangling_references) 0 0%nat
                    eq_refl eq_refl eq_refl)).
    vm_compute. intros H. apply list_elem_of_singleton in H. discriminate.
  - apply (proj2 (getitem_dangling_reference_raises string string read_path path_join_slash
                    (fun image => image) None None
                    (fst dangling_references) (snd dangling_references) 1 1%nat
                    eq_refl eq_refl eq_refl)
             0%nat "data/image.jpg"%string "data/image.jpg"%string "data/image.jpg"%string
             (example_annotation 2 1 9) (example_annotation 2 1 9));
      try reflexivity.
    vm_compute. intros H.
    repeat (apply elem_of_cons in H as [H|H]; [discriminate|]). now apply elem_of_nil in H.
Defined.

Lemma init_store_categories (h : Heap) (dir : string) (imgs : list Image)
    (anns : list Annotation) (cats : list Category) :
  map (category_at (fst (CocoDatasetClassification_init h dir imgs anns cats)))
      (tree_categories (snd (CocoDatasetClassification_init h dir imgs anns cats))) = cats.
Proof. unfold category_at. simpl. apply alloc_lookup. Qed.




(** ** Well-formed datasets *)

Lemma heap_le_category_at (h h' : Heap) (l : loc) :
  heap_le h h' -> (l < length (category_objs h))%nat -> category_at h' l = category_at h l.
Proof. intros (_&_&Hc) Hl. now apply prefix_lookup_total. Qed.

Lemma heap_le_category_length (h h' : Heap) :
  heap_le h h' -> (length (category_objs h) <= length (category_objs h'))%nat.
Proof. intros (_&_&Hc). now apply prefix_length. Qed.

Lemma deepcopy_category_at (h : Heap) (self : CocoDataset) (l : loc) :
  (l < length (category_objs h))%nat ->
  category_at (fst (deepcopy h self)) (length (category_objs h) + l)%nat = category_at h l.
Proof.
  intros Hl. unfold category_at, deepcopy. cbn [fst category_objs].
  rewrite lookup_total_app_r by lia. f_equal. lia.
Qed.

Lemma dict_append_shift (n : nat) (k : Z) (x : loc) (d : dict (list loc)) :
  map (shift_group n) (dict_append k x d) =
  dict_append k (n + x)%nat (map (shift_group n) d).
Proof.
  induction d as [|[k' g] d IH]; simpl; [reflexivity|].
  destruct (k =? k'); simpl.
  - unfold shift_group. simpl. now rewrite map_app.
  - now rewrite IH.
Qed.

Lemma to_dict_acc_shift (key key' : loc -> Z) (n : nat) (l : list loc) :
  Forall (fun x => key' (n + x)%nat = key x) l ->
  forall d : dict (list loc),
  map (shift_group n) (fold_left (fun d x => dict_append (key x) x d) l d) =
  fold_left (fun d x => dict_append (key' x) x d) (map (Nat.add n) l)
            (map (shift_group n) d).
Proof.
  induction 1 as [|x l Hx _ IH]; intros d; simpl; [reflexivity|].
  rewrite IH. now rewrite dict_append_shift, Hx.
Qed.

(** Grouping the copies gives the copies of the groups. *)
Lemma to_dict_shift (key key' : loc -> Z) (n : nat) (l : list loc) :
  Forall (fun x => key' (n + x)%nat = key x) l ->
  map (shift_group n) (to_dict key l) = to_dict key' (map (Nat.add n) l).
Proof. intros H. unfold to_dict. now rewrite (to_dict_acc_shift key key'). Qed.

Lemma keys_shift (n : nat) (d : dict (list loc)) : keys (map (shift_group n) d) = keys d.
Proof. unfold keys. rewrite map_map. now apply map_ext. Qed.

(** [__post_init__] builds a well-formed dataset from an annotation file
    whose annotations refer to images and categories of the file. *)
Lemma init_well_formed (h : Heap) (dir : string) (imgs : list Image)
    (anns : list Annotation) (cats : list Category) :
  Forall (fun a => ann_image_id a ∈ map img_id imgs /\ ann_category_id a ∈ map cat_id cats)
         anns ->
  well_formed (fst (CocoDatasetClassification_init h dir imgs anns cats))
              (snd (CocoDatasetClassification_init h dir imgs anns cats)).
Proof.
  intros Hrefs.
  set (h' := fst (CocoDatasetClassification_init h dir imgs anns cats)).
  set (self := snd (CocoDatasetClassification_init h dir imgs anns cats)).
  pose proof (init_store_annotations h dir imgs anns cats) as Hanns.
  pose proof (init_store_images h dir imgs anns cats) as Himgs.
  pose proof (init_store_categories h dir imgs anns cats) as Hcats.
  fold h' self in Hanns, Himgs, Hcats. unfold store_annotations, store_images in *.
  assert (Hall : Forall (fun l => ann_image_id (annotation_at h' l) ∈ map img_id imgs /\
                                  ann_category_id (annotation_at h' l) ∈ map cat_id cats)
                        (tree_annotations self)).
  { rewrite <- Hanns in Hrefs. now apply Forall_fmap in Hrefs. }
  split.
  - apply init_ok.
  - split; [reflexivity | reflexivity | |].
    + change (annotations self) with (tree_annotations self).
      eapply Forall_impl; [exact Hall|]. intros l [Hl _]; cbv beta.
      change (images self) with (to_dict (image_key h') (tree_images self)).
      apply to_dict_keys_elem. unfold image_key. rewrite <- Himgs, map_map in Hl. exact Hl.
    + change (annotations self) with (tree_annotations self).
      eapply Forall_impl; [exact Hall|]. intros l [_ Hl]; cbv beta.
      change (categories self) with (to_dict (category_key h') (tree_categories self)).
      apply to_dict_keys_elem. unfold category_key. rewrite <- Hcats, map_map in Hl. exact Hl.
  - reflexivity.
  - apply Forall_forall. intros l Hl. apply elem_of_seq in Hl.
    simpl. rewrite length_app. lia.
Qed.

(** The indexes of the subsets built by the loop of [split] are the
    groupings of their own lists. *)
Lemma split_loop_indexes (self : CocoDataset) (sizes : list Z) :
  forall (h : Heap) (pool : list Z) (h' : Heap) (subsets : list CocoDataset),
  dataset_ok h self ->
  categories self = to_dict (category_key h) (tree_categories self) ->
  Forall (fun l => (l < length (category_objs h))%nat) (tree_categories self) ->
  pool ⊆ keys (images self) -> NoDup pool ->
  split_loop h self pool sizes = inr (h', subsets) ->
  Forall (fun s =>
            images s = to_dict (image_key h') (tree_images s) /\
            categories s = to_dict (category_key h') (tree_categories s) /\
            keys (categories s) = keys (categories self) /\
            Forall (fun l => (l < length (category_objs h'))%nat) (tree_categories s))
         subsets.
Proof.
  induction sizes as [|ss sizes IH]; intros h pool h' subsets Hok Hcat Hcrefs Hsub Hnd H.
  - injection H as <- <-. constructor.
  - rewrite split_loop_cons in H. cbv zeta in H.
    pose proof (deepcopy_heap_le h self) as Hle1.
    assert (Hcopy : forall l, (l < length (category_objs h))%nat ->
              category_at (fst (deepcopy h self)) (length (category_objs h) + l)%nat =
              category_at h l) by (intros l; apply deepcopy_category_at).
    assert (Hlen1 : length (category_objs (fst (deepcopy h self))) =
                    (length (category_objs h) + length (category_objs h))%nat)
      by (unfold deepcopy; cbn [fst category_objs]; apply length_app).
    assert (Hcats : categories (snd (deepcopy h self)) =
                    map (shift_group (length (category_objs h))) (categories self))
      by reflexivity.
    assert (Htree : tree_categories (snd (deepcopy h self)) =
                    map (Nat.add (length (category_objs h))) (tree_categories self))
      by reflexivity.
    remember (fst (deepcopy h self)) as h1 eqn:Hh1.
    remember (snd (deepcopy h self)) as subset eqn:Hsubset.
    apply bind_ok in H as (irefs & Hirefs & H).
    apply bind_ok in H as (picked & Hpicked & H).
    apply bind_ok in H as ([h2 subs] & Hrec & H).
    injection H as <- <-.
    destruct (slice_NoDup pool ss Hnd) as [Hnd1 Hnd2].
    destruct (pick_images h self (slice_to pool ss) Hok) as (irefs' & Hi' & Hmap & Hshared).
    { intros k Hk. apply Hsub. now apply slice_to_subseteq in Hk. }
    rewrite Hirefs in Hi'. injection Hi' as <-.
    assert (Hok1 : dataset_ok h1 self) by now apply (dataset_ok_mono h).
    assert (Hsub2 : slice_from pool ss ⊆ keys (images self)).
    { intros k Hk. apply Hsub. now apply slice_from_subseteq in Hk. }
    assert (Hcat1 : categories self = to_dict (category_key h1) (tree_categories self)).
    { rewrite Hcat. apply to_dict_ext. eapply Forall_impl; [exact Hcrefs|].
      intros l Hl; cbv beta in Hl. unfold category_key.
      now rewrite (heap_le_category_at h h1 l Hle1 Hl). }
    assert (Hcrefs1 : Forall (fun l => (l < length (category_objs h1))%nat)
                             (tree_categories self)).
    { eapply Forall_impl; [exact Hcrefs|]. intros l Hl; cbv beta in Hl. lia. }
    pose proof (split_loop_spec self sizes _ _ _ _ Hok1 Hsub2 Hnd2 Hrec) as [Hle2 _].
    constructor.
    + cbn [images tree_images categories tree_categories]. split; [|split; [|split]].
      * apply to_dict_ext. apply Forall_forall. intros l Hl. apply Hshared in Hl.
        pose proof (proj1 (Forall_forall _ _) (ok_image_refs _ _ Hok) l Hl) as Hv.
        cbv beta in Hv. unfold image_key.
        rewrite (heap_le_image_at h1 h2 l Hle2); [reflexivity|].
        pose proof (heap_le_image_length _ _ Hle1). lia.
      * rewrite Hcats, Htree, Hcat.
        apply to_dict_shift. eapply Forall_impl; [exact Hcrefs|].
        intros l Hl; cbv beta in Hl. unfold category_key.
        rewrite (heap_le_category_at h1 h2); [|exact Hle2|lia].
        now rewrite Hcopy.
      * rewrite Hcats. apply keys_shift.
      * rewrite Htree. apply Forall_forall.
        intros l Hl. apply list_elem_of_fmap in Hl as (l0 & -> & Hl0).
        pose proof (proj1 (Forall_forall _ _) Hcrefs l0 Hl0) as Hv. cbv beta in Hv.
        pose proof (heap_le_category_length _ _ Hle2) as Hlen. lia.
    + exact (IH _ _ _ _ Hok1 Hcat1 Hcrefs1 Hsub2 Hnd2 Hrec).
Qed.

Lemma Forall2_elem_r {A B} (P : A -> B -> Prop) (l : list A) (l' : list B) (y : B) :
  Forall2 P l l' -> y ∈ l' -> exists x, x ∈ l /\ P x y.
Proof.
  induction 1 as [|x y0 l l' Hxy _ IH]; intros Hy.
  - now apply elem_of_nil in Hy.
  - apply elem_of_cons in Hy as [->|Hy].
    + exists x. split; [apply list_elem_of_here | exact Hxy].
    + destruct (IH Hy) as (x' & Hin & Hp). exists x'.
      split; [now apply list_elem_of_further | exact Hp].
Qed.

Lemma first_annotation_elem (src : list Annotation) (k : Z) (a : Annotation) :
  first_annotation src k = Some a -> a ∈ src.
Proof.
  unfold first_annotation. intros H.
  destruct (group ann_image_id k src) as [|a0 g] eqn:Hg; [discriminate|].
  injection H as ->.
  assert (Hin : a ∈ group ann_image_id k src) by (rewrite Hg; apply list_elem_of_here).
  now apply group_elem in Hin as [Hin _].
Qed.

(** X10. [split] keeps datasets well formed: when the indexes of the
    dataset are those of [__post_init__] and every annotation refers to an
    image and a category of the store, the same holds of every subset, in
    which [self.annotations] is the annotation list of the store of the
    subset.  So every index below [len(subset)] refers to an image and a
    category that the subset has, and a subset can be split again. *)
Theorem split_subsets_well_formed (np_sum : list float -> float)
    (shuffle : list Z -> list Z) (h : Heap) (self : CocoDataset)
    (percentages : list float) (random : bool) (h' : Heap)
    (subsets : list CocoDataset) (s : CocoDataset) :
  (forall l, shuffle l ≡ₚ l) ->
  well_formed h self ->
  split np_sum shuffle h self percentages random = inr (h', subsets) ->
  s ∈ subsets ->
  well_formed h' s.
Proof.
  intros Hsh [Hok Hcls Hal Hcrefs] H Hs.
  destruct (split_subsets_spec _ _ _ _ _ _ _ _ Hsh Hok H) as (sizes & _ & Hle & Hall).
  destruct (subset_spec_elem _ _ _ _ _ _ Hall Hs) as (idx & _ & Hspec).
  apply split_ok_inv in H as (_ & sizes' & _ & Hloop).
  destruct (pool_ok shuffle h self random Hsh Hok) as (Hsub & Hnd & _).
  pose proof (split_loop_indexes self sizes' h _ h' subsets Hok (cls_categories _ _ Hcls)
                Hcrefs Hsub Hnd Hloop) as Hidx.
  pose proof (proj1 (Forall_forall _ _) Hidx s Hs) as (Himg & Hcat & Hkeys & Hcr).
  destruct Hspec as [Hids Hk Hanns Hir Har Halias Hshared].
  assert (Hann : Forall (fun l => ann_image_id (annotation_at h' l) ∈ keys (images s) /\
                                  ann_category_id (annotation_at h' l) ∈ keys (categories s))
                        (tree_annotations s)).
  { unfold store_annotations in Hanns. apply Forall2_fmap_r in Hanns.
    rewrite Hk, Hkeys. apply Forall_forall. intros l Hl.
    destruct (Forall2_elem_r _ _ _ _ Hanns Hl) as (k & Hin & Hkl). split.
    - pose proof (first_annotation_key _ _ _ Hkl) as ->. exact Hin.
    - apply first_annotation_elem in Hkl. unfold store_annotations in Hkl.
      apply list_elem_of_fmap in Hkl as (l0 & -> & Hl0). rewrite <- Hal in Hl0.
      exact (proj1 (Forall_forall _ _) (cls_category_ids _ _ Hcls) l0 Hl0). }
  split.
  - split; [exact Himg | exact Hir | exact Har].
  - split; [exact Himg | exact Hcat | |]; rewrite Halias.
    + eapply Forall_impl; [exact Hann|]. now intros l [? _].
    + eapply Forall_impl; [exact Hann|]. now intros l [_ ?].
  - exact Halias.
  - exact Hcr.
Qed.

Lemma ten_images_well_formed : well_formed (fst ten_images) (snd ten_images).
Proof. apply init_well_formed. vm_compute. repeat constructor. Qed.

Lemma split_subsets_well_formed_witness :
  well_formed ten_images_split_heap (List.hd (snd ten_images) ten_images_subsets) /\
  getitem string string read_path path_join_slash (fun image => image) None None
    ten_images_split_heap (List.hd (snd ten_images) ten_images_subsets) 4 =
  inr ("data/image.jpg"%string, 0).
Proof.
  split; [|vm_compute; reflexivity].
  exact (split_subsets_well_formed np_sum_in_order no_shuffle
           (fst ten_images) (snd ten_images) half_third_fifth false
           ten_images_split_heap ten_images_subsets
           (List.hd (snd ten_images) ten_images_subsets)
           no_shuffle_perm ten_images_well_formed ten_images_split_eq
           (list_elem_of_here _ _)).
Defined.

(** ** [preview_dataset] and [CocoDatasetInstanceSegmentation] *)

Lemma mapM_pure {A B} (f : A -> Err B) (g : A -> B) (l : list A) :
  (forall x, f x = inr (g x)) -> mapM f l = inr (map g l).
Proof.
  intros H. induction l as [|x l IH]; simpl; [reflexivity|].
  now rewrite H, IH.
Qed.

(** X11. [preview_dataset] never raises.  It prints the categories, the
    number of images and the number of annotations of the store, and then
    for each category, in store order, its label and the number of
    annotations of the store with its category id, which is 0 for a category
    without annotation (the [except KeyError] branch). *)
Theorem preview_dataset_reports_instances (h : Heap) (self : CocoDataset) :
  preview_dataset h self =
  inr ([HorizontalBar;
        DatasetCategories
          (map (fun c => (cat_id (category_at h c), cat_name (category_at h c)))
               (tree_categories self));
        NumberOfImages (Z.of_nat (length (tree_images self)));
        NumberOfAnnotations (Z.of_nat (length (tree_annotations self)));
        HorizontalBar;
        PerCategoryInfo]
       ++ concat (map (category_report h self) (tree_categories self))
       ++ [HorizontalBar]).
Proof.
  unfold preview_dataset. rewrite (mapM_pure _ (category_report h self)); [reflexivity|].
  intros c. unfold category_lines, category_report, dict_getitem.
  rewrite to_dict_lookup. unfold store_annotations. rewrite group_map.
  destruct (group _ (cat_id (category_at h c)) (tree_annotations self)) as [|l g];
    [reflexivity|].
  cbn [ok]. now rewrite length_map.
Qed.

Section SegmentationProperties.

Variable ndarray Tensor InstanceMask : Type.
Variable read_image : string -> Err ndarray.
Variable path_join : string -> string -> string.
Variable seg_preprocessing seg_augmentations :
  option (ndarray -> list Annotation -> Err (ndarray * list Annotation)).
Variable generate_instance_mask : ndarray -> Annotation -> Err InstanceMask.
Variable to_chw_tensor : ndarray -> Tensor.

#[local] Abbreviation seg_getitem' :=
  (seg_getitem ndarray Tensor InstanceMask read_image path_join seg_preprocessing
     seg_augmentations generate_instance_mask to_chw_tensor).

(** [__getitem__] of a dataset built by [__post_init__], without the
    lookup in its index: the annotations are those of the store with the
    id of the image, in store order. *)
Lemma seg_getitem_eq (dir : string) (data : COCOData) (idx : Z) (image_data : Image) :
  list_getitem (data_images data) idx = inr image_data ->
  seg_getitem' (SegmentationDataset_init dir data) idx =
  match group ann_image_id (img_id image_data) (data_annotations data) with
  | [] => raise (KeyError (IntKey (img_id image_data)))
  | annotations =>
      let* image := read_image (path_join dir (img_file_name image_data)) in
      let* (image, annotations) :=
        apply_transform ndarray seg_preprocessing image annotations in
      let* (image, annotations) :=
        apply_transform ndarray seg_augmentations image annotations in
      let* enriched :=
        mapM (fun annotation =>
                let* mask := generate_instance_mask image annotation in
                ok (annotation, mask)) annotations in
      ok (to_chw_tensor image, enriched)
  end.
Proof.
  intros Hidx. unfold seg_getitem, SegmentationDataset_init.
  cbn [seg_tree seg_annotations seg_directory_path]. rewrite Hidx. cbn [bind].
  unfold dict_getitem. rewrite to_dict_lookup.
  destruct (group ann_image_id (img_id image_data) (data_annotations data)); reflexivity.
Qed.

Lemma mapM_masks (image : ndarray) (annotations : list Annotation)
    (masks : list InstanceMask) :
  Forall2 (fun annotation mask => generate_instance_mask image annotation = inr mask)
          annotations masks ->
  mapM (fun annotation =>
          let* mask := generate_instance_mask image annotation in
          ok (annotation, mask)) annotations = inr (zip annotations masks).
Proof.
  induction 1 as [|a m l l' Ham _ IH]; simpl; [reflexivity|].
  rewrite Ham. cbn [bind]. rewrite IH. reflexivity.
Qed.

End SegmentationProperties.

(** X12. [CocoDatasetInstanceSegmentation.__getitem__] for a valid index
    of an image with annotations: the transforms receive all the annotations
    of the store with the id of the image, in store order, preprocessing
    first; the result holds the transformed image and every transformed
    annotation with the mask generated for it from the transformed image. *)
Theorem seg_getitem_returns_annotations_with_masks
    (ndarray Tensor InstanceMask : Type)
    (read_image : string -> Err ndarray) (path_join : string -> string -> string)
    (seg_preprocessing seg_augmentations :
       option (ndarray -> list Annotation -> Err (ndarray * list Annotation)))
    (generate_instance_mask : ndarray -> Annotation -> Err InstanceMask)
    (to_chw_tensor : ndarray -> Tensor)
    (dir : string) (data : COCOData) (idx : Z) (image_data : Image)
    (image image1 image2 : ndarray) (annotations1 annotations2 : list Annotation)
    (masks : list InstanceMask) :
  list_getitem (data_images data) idx = inr image_data ->
  group ann_image_id (img_id image_data) (data_annotations data) <> [] ->
  read_image (path_join dir (img_file_name image_data)) = inr image ->
  apply_transform ndarray seg_preprocessing image
    (group ann_image_id (img_id image_data) (data_annotations data))
    = inr (image1, annotations1) ->
  apply_transform ndarray seg_augmentations image1 annotations1
    = inr (image2, annotations2) ->
  Forall2 (fun annotation mask => generate_instance_mask image2 annotation = inr mask)
          annotations2 masks ->
  seg_getitem ndarray Tensor InstanceMask read_image path_join seg_preprocessing
    seg_augmentations generate_instance_mask to_chw_tensor
    (SegmentationDataset_init dir data) idx =
  inr (to_chw_tensor image2, zip annotations2 masks).
Proof.
  intros Hidx Hne Hread Hpre Haug Hmasks.
  rewrite (seg_getitem_eq _ _ _ _ _ _ _ _ _ dir data idx image_data Hidx).
  destruct (group ann_image_id (img_id image_data) (data_annotations data)) as [|a g];
    [contradiction|].
  rewrite Hread. cbn [bind]. rewrite Hpre. cbn [bind]. rewrite Haug. cbn [bind].
  rewrite (mapM_masks _ _ generate_instance_mask image2 annotations2 masks Hmasks).
  reflexivity.
Qed.

Lemma seg_getitem_returns_annotations_with_masks_witness :
  seg_getitem string string unit read_path path_join_slash None None
    (fun image annotation => ok tt) (fun image => image)
    (SegmentationDataset_init "data" unannotated_data) 0 =
  inr ("data/image.jpg"%string,
       [(example_annotation 1 1 1, tt); (example_annotation 2 1 2, tt)]).
Proof.
  apply (seg_getitem_returns_annotations_with_masks string string unit read_path
           path_join_slash None None (fun image annotation => ok tt) (fun image => image)
           "data" unannotated_data 0 (example_image 1)
           "data/image.jpg"%string "data/image.jpg"%string "data/image.jpg"%string
           [example_annotation 1 1 1; example_annotation 2 1 2]
           [example_annotation 1 1 1; example_annotation 2 1 2] [tt; tt]);
    try reflexivity.
  - discriminate.
  - repeat constructor.
Defined.

(** X13. The segmentation dataset has one sample per image of the store.
    An index outside [[-len, len)] raises [IndexError]; a negative index
    [idx] in range gives what [idx + len] gives; the index of an image
    without annotation raises a [KeyError] with the id of the image. *)
Theorem seg_getitem_index_and_key_errors
    (ndarray Tensor InstanceMask : Type)
    (read_image : string -> Err ndarray) (path_join : string -> string -> string)
    (seg_preprocessing seg_augmentations :
       option (ndarray -> list Annotation -> Err (ndarray * list Annotation)))
    (generate_instance_mask : ndarray -> Annotation -> Err InstanceMask)
    (to_chw_tensor : ndarray -> Tensor)
    (dir : string) (data : COCOData) (idx : Z) :
  let self := SegmentationDataset_init dir data in
  let get := seg_getitem ndarray Tensor InstanceMask read_image path_join seg_preprocessing
               seg_augmentations generate_instance_mask to_chw_tensor self in
  seg_len self = Z.of_nat (length (data_images data)) /\
  (idx < - seg_len self \/ seg_len self <= idx -> get idx = inl IndexError) /\
  (- seg_len self <= idx < 0 -> get idx = get (idx + seg_len self)) /\
  (forall image_data : Image,
     list_getitem (data_images data) idx = inr image_data ->
     group ann_image_id (img_id image_data) (data_annotations data) = [] ->
     get idx = inl (KeyError (IntKey (img_id image_data)))).
Proof.
  intros self get. subst self get. split; [reflexivity|]. split; [|split].
  - intros H. unfold seg_getitem. cbn [SegmentationDataset_init seg_tree].
    unfold seg_len in H. cbn [SegmentationDataset_init seg_tree] in H.
    now rewrite list_getitem_out_of_range.
  - intros H. unfold seg_getitem. cbn [SegmentationDataset_init seg_tree].
    unfold seg_len in *. cbn [SegmentationDataset_init seg_tree] in *.
    now rewrite list_getitem_negative.
  - intros image_data Hidx Hnone.
    rewrite (seg_getitem_eq _ _ _ _ _ _ _ _ _ dir data idx image_data Hidx).
    now rewrite Hnone.
Qed.

Lemma seg_getitem_index_and_key_errors_witness :
  seg_len (SegmentationDataset_init "data" unannotated_data) = 2 /\
  seg_getitem string string unit read_path path_join_slash None None
    (fun image annotation => ok tt) (fun image => image)
    (SegmentationDataset_init "data" unannotated_data) 2 = inl IndexError /\
  seg_getitem string string unit read_path path_join_slash None None
    (fun image annotation => ok tt) (fun image => image)
    (SegmentationDataset_init "data" unannotated_data) 1 = inl (KeyError (IntKey 2)) /\
  seg_getitem string string unit read_path path_join_slash None None
    (fun image annotation => ok tt) (fun image => image)
    (SegmentationDataset_init "data" unannotated_data) (-1) = inl (KeyError (IntKey 2)).
Proof.
  pose proof (seg_getitem_index_and_key_errors string string unit read_path
                path_join_slash None None (fun image annotation => ok tt)
                (fun image => image) "data" unannotated_data 2) as (Hlen & Hhigh & _ & _).
  pose proof (seg_getitem_index_and_key_errors string string unit read_path
                path_join_slash None None (fun image annotation => ok tt)
                (fun image => image) "data" unannotated_data 1) as (_ & _ & _ & Hkey).
  pose proof (seg_getitem_index_and_key_errors string string unit read_path
                path_join_slash None None (fun image annotation => ok tt)
                (fun image => image) "data" unannotated_data (-1)) as (_ & _ & Hneg & _).
  split; [exact Hlen|]. split; [apply Hhigh; right; vm_compute; discriminate|].
  assert (H1 : seg_getitem string string unit read_path path_join_slash None None
                 (fun image annotation => ok tt) (fun image => image)
                 (SegmentationDataset_init "data" unannotated_data) 1 =
               inl (KeyError (IntKey 2)))
    by (apply (Hkey (example_image 2)); reflexivity).
  split; [exact H1|].
  rewrite Hneg; [exact H1|]. split; vm_compute; [discriminate | reflexivity].
Defined.

(** ** The train and evaluate phases *)

(** ** The running totals *)

Lemma accumulate_raises (totals losses : gmap string float) (key : string) :
  is_Some (losses !! key) -> totals !! key = None ->
  exists k, accumulate totals losses = inl (KeyError (StrKey k)) /\
    is_Some (losses !! k) /\ totals !! k = None.
Proof.
  intros [v Hv] Ht. unfold accumulate.
  destruct (filter _ _) as [|k ks] eqn:Hf.
  - exfalso.
    assert (Hin : key ∈ filter (fun key => totals !! key = None) (map_to_list losses).*1).
    { apply list_elem_of_filter. split; [exact Ht|].
      apply list_elem_of_fmap. exists (key, v). split; [reflexivity|].
      now apply elem_of_map_to_list. }
    change (map fst (map_to_list losses)) with ((map_to_list losses).*1) in Hf.
    rewrite Hf in Hin. now apply elem_of_nil in Hin.
  - exists k. split; [reflexivity|].
    assert (Hin : k ∈ filter (fun key => totals !! key = None) (map fst (map_to_list losses)))
      by (rewrite Hf; apply list_elem_of_here).
    apply list_elem_of_filter in Hin as [Hnone Hin].
    apply list_elem_of_fmap in Hin as ([k' v'] & -> & Hkv).
    apply elem_of_map_to_list in Hkv. split; [eauto | exact Hnone].
Qed.

(** Dicts with the same names throughout: the totals keep these names and
    each named term is the sum of its values. *)
Lemma accumulate_all_names (names : list string) (ls : list (gmap string float)) :
  forall totals : gmap string float,
  (forall key, key ∈ names -> is_Some (totals !! key)) ->
  Forall (has_names names) ls ->
  exists acc, accumulate_all totals ls = inr acc /\
    (forall key, key ∈ names -> is_Some (acc !! key)) /\
    (has_names names totals \/ ls <> [] -> has_names names acc) /\
    forall key total, key ∈ names -> totals !! key = Some total ->
      acc !! key = Some (term_sum key total ls).
Proof.
  induction ls as [|losses ls IH]; intros totals Hsub Hall.
  - exists totals. split; [reflexivity|]. split; [exact Hsub|].
    split; [intros [H|H]; [exact H | congruence]|]. intros key total _ Hk. exact Hk.
  - apply Forall_cons in Hall as [Hfirst Hall].
    destruct (accumulate_ok totals losses) as (acc1 & Hacc1 & Hlookup).
    { intros key Hkey. apply Hsub. now apply Hfirst. }
    assert (Hnames1 : has_names names acc1).
    { intros key. rewrite Hlookup. specialize (Hfirst key). specialize (Hsub key).
      destruct (losses !! key) as [v|].
      - destruct Hsub as [t ->]; [apply Hfirst; eauto|]. split; [intros _; apply Hfirst|]; eauto.
      - split; [intros [? H]; discriminate|].
        intros H. apply Hfirst in H. destruct H as [? H]. discriminate. }
    destruct (IH acc1) as (acc & Hacc & Hsome & Hnames & Hsum).
    { intros key Hkey. now apply Hnames1. }
    { exact Hall. }
    exists acc. simpl. rewrite Hacc1. cbn [bind]. split; [exact Hacc|].
    split; [exact Hsome|]. split.
    + intros _. apply Hnames. now left.
    + intros key total Hkey Htot.
      destruct (proj2 (Hfirst key) Hkey) as [value Hvalue].
      rewrite (Hsum key (Float.add total value) Hkey).
      * unfold term_sum. simpl. now rewrite Hvalue.
      * rewrite Hlookup, Hvalue, Htot. reflexivity.
Qed.

(** Dicts with a term each: [backward] never raises and the totals of
    [train] are the running totals. *)
Lemma train_totals_accumulate (ls : list (gmap string float)) :
  forall totals : gmap string float,
  Forall (fun losses => exists key, is_Some (losses !! key)) ls ->
  train_totals totals ls = accumulate_all totals ls.
Proof.
  induction ls as [|losses ls IH]; intros totals Hall; [reflexivity|].
  apply Forall_cons in Hall as [[key Hkey] Hall]. simpl.
  rewrite (backward_ok losses key Hkey). cbn [bind].
  destruct (accumulate totals losses) as [e|acc]; [reflexivity|]. cbn [bind].
  now apply IH.
Qed.

Lemma has_names_term (names : list string) (ls : list (gmap string float)) :
  names <> [] -> Forall (has_names names) ls ->
  Forall (fun losses => exists key, is_Some (losses !! key)) ls.
Proof.
  intros Hne Hall. eapply Forall_impl; [exact Hall|]. intros losses Hnames.
  destruct names as [|name names]; [contradiction|].
  exists name. apply Hnames. apply list_elem_of_here.
Qed.

Lemma loss_names_term (ls : list (gmap string float)) :
  Forall has_loss_names ls -> Forall (fun losses => exists key, is_Some (losses !! key)) ls.
Proof. apply (has_names_term loss_names). discriminate. Qed.

Lemma has_names_fmap (names : list string) (f : float -> float)
    (losses : gmap string float) :
  has_names names losses -> has_names names (f <$> losses).
Proof.
  intros H key. rewrite lookup_fmap. rewrite <- (H key).
  destruct (losses !! key); simpl; split; intros [? ?]; eauto; discriminate.
Qed.

Lemma mean_losses_nonempty (totals : gmap string float) (n : Z) (key : string) :
  is_Some (totals !! key) ->
  mean_losses totals n =
  if n =? 0 then raise ZeroDivisionError
  else ok ((fun total => Float.div total (Float.of_int n)) <$> totals).
Proof.
  intros [v Hv]. unfold mean_losses.
  destruct (map_to_list totals) as [|kv l] eqn:Hl; [|reflexivity].
  apply map_to_list_empty_iff in Hl. subst totals. rewrite lookup_empty in Hv. discriminate.
Qed.

Section PhaseProperties.

Variable Model Tensor Target : Type.
Variable forward_losses : Model -> list Tensor -> list Target -> gmap string float.
Variable optimizer_step : Model -> list Tensor -> list Target -> Model.

#[local] Abbreviation train_batches' :=
  (train_batches Model Tensor Target forward_losses optimizer_step).
#[local] Abbreviation evaluate_batches' :=
  (evaluate_batches Model Tensor Target forward_losses).
#[local] Abbreviation model_after' := (model_after Model Tensor Target optimizer_step).
#[local] Abbreviation batch_losses' := (batch_losses forward_losses optimizer_step).

(** The totals of the loop of [train] are the running totals of the loss
    dicts of its batches. *)
Lemma train_batches_result (bs : list (list Tensor * list Target)) :
  forall (self : Trainer Model) (loss_train : gmap string float),
  fst (train_batches' bs loss_train self) =
  train_totals loss_train (batch_losses' (model Model self) bs).
Proof.
  induction bs as [|[x_pred y_true] bs IH]; intros self loss_train; [reflexivity|].
  simpl. unfold mbind, get_model, set_model, lift. simpl.
  destruct (backward _) as [e|[]]; [reflexivity|]. cbn [bind].
  destruct (accumulate _ _) as [e|acc]; [reflexivity|]. cbn [bind].
  now rewrite IH.
Qed.

(** When the loop of [train] completes, it has taken the optimizer steps
    of all batches and changed nothing else. *)
Lemma train_batches_model (bs : list (list Tensor * list Target)) :
  forall (self self' : Trainer Model) (loss_train totals : gmap string float),
  train_batches' bs loss_train self = (inr totals, self') ->
  self' = with_model Model self (model_after' (model Model self) bs).
Proof.
  induction bs as [|[x_pred y_true] bs IH]; intros self self' loss_train totals H.
  - simpl in H. injection H as _ <-. simpl. now destruct self.
  - simpl in H. unfold mbind, get_model, set_model, lift in H. simpl in H.
    destruct (backward _) as [e|[]]; [discriminate|].
    destruct (accumulate _ _) as [e|acc]; [discriminate|].
    apply IH in H. subst self'. reflexivity.
Qed.

(** The loop of [evaluate] leaves the trainer as it is. *)
Lemma evaluate_batches_eq (bs : list (list Tensor * list Target)) :
  forall (self : Trainer Model) (loss_valid : gmap string float),
  evaluate_batches' bs loss_valid self =
  (accumulate_all loss_valid (validation_losses forward_losses (model Model self) bs), self).
Proof.
  induction bs as [|[x_pred y_true] bs IH]; intros self loss_valid; [reflexivity|].
  simpl. unfold mbind, get_model, lift. simpl.
  destruct (accumulate _ _) as [e|acc]; [reflexivity|]. cbn [bind].
  now rewrite IH.
Qed.

(** [evaluate] in one equation. *)
Lemma evaluate_eq (data : DataLoader Tensor Target) (self : Trainer Model) :
  evaluate Model Tensor Target forward_losses data self =
  (let* totals :=
     accumulate_all initial_losses
       (validation_losses forward_losses (model Model self) (batches _ _ data)) in
   mean_losses totals (num_samples _ _ data), self).
Proof.
  unfold evaluate, mbind. rewrite evaluate_batches_eq.
  destruct (accumulate_all _ _) as [e|totals]; reflexivity.
Qed.

(** The result of [train]. *)
Lemma train_result (data : DataLoader Tensor Target) (self : Trainer Model) :
  fst (train Model Tensor Target forward_losses optimizer_step data self) =
  let* totals :=
    train_totals initial_losses (batch_losses' (model Model self) (batches _ _ data)) in
  mean_losses totals (num_samples _ _ data).
Proof.
  unfold train, mbind. rewrite <- train_batches_result.
  destruct (train_batches' _ _ self) as [[e|totals] s1]; reflexivity.
Qed.

(** The trainer after [train], when its loop completes. *)
Lemma train_state (data : DataLoader Tensor Target) (self : Trainer Model)
    (totals : gmap string float) :
  train_totals initial_losses (batch_losses' (model Model self) (batches _ _ data))
    = inr totals ->
  snd (train Model Tensor Target forward_losses optimizer_step data self) =
  with_model Model self (model_after' (model Model self) (batches _ _ data)).
Proof.
  intros Hacc. unfold train, mbind.
  pose proof (train_batches_result (batches _ _ data) self initial_losses) as Hres.
  rewrite Hacc in Hres.
  destruct (train_batches' _ _ self) as [[e|totals'] s1] eqn:Hrun; [discriminate|].
  apply train_batches_model in Hrun. subst s1. reflexivity.
Qed.

End PhaseProperties.

Lemma initial_losses_some (key : string) : key ∈ loss_names -> is_Some (initial_losses !! key).
Proof. intros H. rewrite initial_losses_lookup by exact H. eauto. Qed.




(** A train phase that returns has taken the optimizer steps of all
    batches and changed nothing else. *)
Lemma train_ok_state (Model Tensor Target : Type)
    (forward_losses : Model -> list Tensor -> list Target -> gmap string float)
    (optimizer_step : Model -> list Tensor -> list Target -> Model)
    (data : DataLoader Tensor Target) (self self' : Trainer Model)
    (result : gmap string float) :
  train Model Tensor Target forward_losses optimizer_step data self = (inr result, self') ->
  self' = with_model Model self
            (model_after Model Tensor Target optimizer_step (model Model self)
               (batches _ _ data)).
Proof.
  intros H.
  pose proof (train_result Model Tensor Target forward_losses optimizer_step data self)
    as Hres.
  rewrite H in Hres. cbn [fst] in Hres.
  destruct (train_totals initial_losses _) as [e|totals] eqn:Hacc; [discriminate|].
  pose proof (train_state _ _ _ _ _ data self totals Hacc) as Hst.
  now rewrite H in Hst.
Qed.

(** X15. [train] changes nothing of the trainer but the model: the recorder
    and [best_loss] are those of before and nothing is recorded, saved or
    closed, whether the phase returns or raises.  When it returns, the model
    has taken one optimizer step per batch, in the order of the batches. *)
Theorem train_changes_only_the_model (Model Tensor Target : Type)
    (forward_losses : Model -> list Tensor -> list Target -> gmap string float)
    (optimizer_step : Model -> list Tensor -> list Target -> Model)
    (data : DataLoader Tensor Target) (self self' : Trainer Model)
    (r : Err (gmap string float)) :
  train Model Tensor Target forward_losses optimizer_step data self = (r, self') ->
  recorder Model self' = recorder Model self /\
  best_loss Model self' = best_loss Model self /\
  trace Model self' = trace Model self /\
  (forall result, r = inr result ->
     model Model self' =
     model_after Model Tensor Target optimizer_step (model Model self) (batches _ _ data)).
Proof.
  intros H. pose proof (train_frame _ _ _ _ _ _ _ _ _ H) as (Hr & Hb & Ht).
  split; [exact Hr|]. split; [exact Hb|]. split; [exact Ht|].
  intros result ->. apply train_ok_state in H. now subst self'.
Qed.

Lemma train_changes_only_the_model_witness :
  exists (result : gmap string float) (self' : Trainer nat),
    train nat unit unit toy_losses toy_step toy_loader (Trainer_init nat 0%nat true) =
      (inr result, self') /\
    model nat self' = 1%nat /\
    recorder nat self' = true /\
    trace nat self' = [].
Proof.
  exists (match fst (train nat unit unit toy_losses toy_step toy_loader
                       (Trainer_init nat 0%nat true)) with
          | inr result => result
          | inl _ => ∅
          end),
         (snd (train nat unit unit toy_losses toy_step toy_loader
                 (Trainer_init nat 0%nat true))).
  assert (Hrun : train nat unit unit toy_losses toy_step toy_loader
                   (Trainer_init nat 0%nat true) =
                 (inr (match fst (train nat unit unit toy_losses toy_step toy_loader
                                    (Trainer_init nat 0%nat true)) with
                       | inr result => result
                       | inl _ => ∅
                       end),
                  snd (train nat unit unit toy_losses toy_step toy_loader
                         (Trainer_init nat 0%nat true))))
    by (vm_compute; reflexivity).
  split; [exact Hrun|].
  destruct (train_changes_only_the_model nat unit unit toy_losses toy_step toy_loader
              _ _ _ Hrun) as (Hr & _ & Ht & Hm).
  split; [rewrite (Hm _ eq_refl); reflexivity|]. split; [exact Hr | exact Ht].
Defined.

Lemma mean_losses_ok (totals : gmap string float) (n : Z) :
  n <> 0 ->
  mean_losses totals n = inr ((fun total => Float.div total (Float.of_int n)) <$> totals).
Proof.
  intros Hn. unfold mean_losses.
  destruct (map_to_list totals) as [|kv l] eqn:Hl.
  - apply map_to_list_empty_iff in Hl. subst totals. now rewrite fmap_empty.
  - destruct (Z.eqb_spec n 0); [contradiction | reflexivity].
Qed.

(** X16. With a sample count of 0, [train] and [evaluate] raise
    [ZeroDivisionError] when they compute the means, that is after all the
    batches: [train] has then taken every optimizer step. *)
Theorem phases_raise_on_zero_samples (Model Tensor Target : Type)
    (forward_losses : Model -> list Tensor -> list Target -> gmap string float)
    (optimizer_step : Model -> list Tensor -> list Target -> Model)
    (data : DataLoader Tensor Target) (self : Trainer Model) :
  num_samples _ _ data = 0 ->
  (Forall has_loss_names
     (batch_losses forward_losses optimizer_step (model Model self) (batches _ _ data)) ->
   train Model Tensor Target forward_losses optimizer_step data self =
   (inl ZeroDivisionError,
    with_model Model self
      (model_after Model Tensor Target optimizer_step (model Model self)
         (batches _ _ data)))) /\
  (Forall has_loss_names
     (validation_losses forward_losses (model Model self) (batches _ _ data)) ->
   evaluate Model Tensor Target forward_losses data self = (inl ZeroDivisionError, self)).
Proof.
  intros Hn. split; intros Hall.
  - destruct (accumulate_all_names loss_names _ initial_losses initial_losses_some Hall)
      as (totals & Hacc & Hsome & _).
    rewrite <- (train_totals_accumulate _ _ (loss_names_term _ Hall)) in Hacc.
    pose proof (train_result Model Tensor Target forward_losses optimizer_step data self)
      as Hres.
    pose proof (train_state _ _ _ _ _ data self totals Hacc) as Hst.
    rewrite Hacc in Hres. cbn [bind] in Hres.
    rewrite (mean_losses_nonempty totals _ "loss_mask" (Hsome _ loss_mask_name)), Hn in Hres.
    destruct (train _ _ _ _ _ data self) as [r s]. cbn [fst snd] in Hres, Hst.
    now subst r s.
  - rewrite evaluate_eq.
    destruct (accumulate_all_names loss_names _ initial_losses initial_losses_some Hall)
      as (totals & -> & Hsome & _).
    cbn [bind].
    now rewrite (mean_losses_nonempty totals _ "loss_mask" (Hsome _ loss_mask_name)), Hn.
Qed.

Lemma phases_raise_on_zero_samples_witness :
  train unit unit unit scenario_losses scenario_step empty_loader (Trainer_init unit tt false)
    = (inl ZeroDivisionError, Trainer_init unit tt false) /\
  evaluate unit unit unit scenario_losses empty_loader (Trainer_init unit tt false)
    = (inl ZeroDivisionError, Trainer_init unit tt false).
Proof.
  destruct (phases_raise_on_zero_samples unit unit unit scenario_losses scenario_step
              empty_loader (Trainer_init unit tt false) eq_refl) as [Htrain Heval].
  split; [apply Htrain | apply Heval]; constructor.
Defined.

Lemma batch_losses_app {Model Tensor Target : Type}
    (forward_losses : Model -> list Tensor -> list Target -> gmap string float)
    (optimizer_step : Model -> list Tensor -> list Target -> Model)
    (bs1 bs2 : list (list Tensor * list Target)) :
  forall m : Model,
  batch_losses forward_losses optimizer_step m (bs1 ++ bs2) =
  batch_losses forward_losses optimizer_step m bs1 ++
  batch_losses forward_losses optimizer_step
    (model_after Model Tensor Target optimizer_step m bs1) bs2.
Proof.
  induction bs1 as [|[x y] bs1 IH]; intros m; simpl; [reflexivity|]. now rewrite IH.
Qed.

Lemma train_totals_app (totals : gmap string float) (ls1 ls2 : list (gmap string float)) :
  train_totals totals (ls1 ++ ls2) =
  let* totals1 := train_totals totals ls1 in train_totals totals1 ls2.
Proof.
  revert totals. induction ls1 as [|l ls1 IH]; intros totals; simpl; [reflexivity|].
  destruct (backward l) as [e|[]]; [reflexivity|]. cbn [bind].
  destruct (accumulate totals l) as [e|acc]; [reflexivity|]. cbn [bind]. apply IH.
Qed.

(** X17. When the model returns, for some batch, a loss term that is none
    of the five names that [train] starts its totals with, while the batches
    before had the five names, [train] raises a [KeyError] whose key is a
    term of that batch outside the five names. *)
Theorem train_unknown_loss_name_raises (Model Tensor Target : Type)
    (forward_losses : Model -> list Tensor -> list Target -> gmap string float)
    (optimizer_step : Model -> list Tensor -> list Target -> Model)
    (data : DataLoader Tensor Target) (self : Trainer Model)
    (bs1 bs2 : list (list Tensor * list Target)) (x_pred : list Tensor)
    (y_true : list Target) (name : string) :
  batches _ _ data = bs1 ++ (x_pred, y_true) :: bs2 ->
  Forall has_loss_names (batch_losses forward_losses optimizer_step (model Model self) bs1) ->
  is_Some (forward_losses
             (model_after Model Tensor Target optimizer_step (model Model self) bs1)
             x_pred y_true !! name) ->
  name ∉ loss_names ->
  exists key : string,
    fst (train Model Tensor Target forward_losses optimizer_step data self) =
      inl (KeyError (StrKey key)) /\
    is_Some (forward_losses
               (model_after Model Tensor Target optimizer_step (model Model self) bs1)
               x_pred y_true !! key) /\
    key ∉ loss_names.
Proof.
  intros Hbs Hall Hname Hnot.
  rewrite train_result, Hbs, batch_losses_app, train_totals_app.
  rewrite (train_totals_accumulate _ _ (loss_names_term _ Hall)).
  destruct (accumulate_all_names loss_names _ initial_losses initial_losses_some Hall)
    as (totals & -> & _ & Hnames & _).
  cbn [bind batch_losses train_totals].
  rewrite (backward_ok _ name Hname). cbn [bind].
  assert (Htot : has_loss_names totals) by (apply Hnames; left; exact initial_losses_names).
  destruct (accumulate_raises totals _ name Hname) as (key & -> & Hkey & Hnone).
  { destruct (totals !! name) eqn:Ht; [|reflexivity].
    exfalso. apply Hnot. apply Htot. eauto. }
  exists key. split; [reflexivity|]. split; [exact Hkey|].
  intros Hin. apply Htot in Hin. destruct Hin as [? Hin]. congruence.
Qed.

Lemma train_unknown_loss_name_raises_witness :
  fst (train unit unit unit custom_losses scenario_step scenario_loader
         (Trainer_init unit tt false)) = inl (KeyError (StrKey "loss_keypoint")).
Proof.
  destruct (train_unknown_loss_name_raises unit unit unit custom_losses scenario_step
              scenario_loader (Trainer_init unit tt false) [] [] [tt; tt] [tt; tt]
              "loss_keypoint" eq_refl (Forall_nil_2 _))
    as (key & Hrun & Hkey & Hnot).
  - unfold custom_losses. rewrite lookup_insert_eq. eauto.
  - unfold loss_names. intros H.
    repeat (apply elem_of_cons in H as [H|H]; [discriminate|]). now apply elem_of_nil in H.
  - rewrite Hrun. do 3 f_equal.
    unfold custom_losses in Hkey. cbn [model_after] in Hkey.
    destruct (decide ("loss_keypoint"%string = key)) as [Heq|Hne]; [now symmetry|].
    rewrite lookup_insert_ne in Hkey by exact Hne.
    apply initial_losses_names in Hkey. contradiction.
Defined.

(** A model that returns no loss term for the first batch: [sum] gives the
    int [0], and [train] raises the [AttributeError] of [loss.backward()]
    before any optimizer step. *)
Lemma train_without_loss_terms (Model Tensor Target : Type)
    (forward_losses : Model -> list Tensor -> list Target -> gmap string float)
    (optimizer_step : Model -> list Tensor -> list Target -> Model)
    (data : DataLoader Tensor Target) (self : Trainer Model)
    (x_pred : list Tensor) (y_true : list Target) (bs : list (list Tensor * list Target)) :
  batches _ _ data = (x_pred, y_true) :: bs ->
  forward_losses (model Model self) x_pred y_true = ∅ ->
  train Model Tensor Target forward_losses optimizer_step data self =
  (inl AttributeError, self).
Proof.
  intros Hbs Hempty. unfold train, mbind. rewrite Hbs. cbn [train_batches].
  unfold mbind, get_model, lift, ok. cbv beta iota. rewrite Hempty.
  unfold backward. rewrite map_to_list_empty. reflexivity.
Qed.

(** X18. The result of [train] has the names of the losses of the model,
    not the five names of the initial totals: when every batch returns
    exactly the terms [names], a part of the five that is not empty, and
    there is a batch and a non-zero sample count, the result has exactly the
    keys [names], each with the sum of the term over the batches divided by
    the sample count. *)
Theorem train_returns_the_names_of_the_model (Model Tensor Target : Type)
    (forward_losses : Model -> list Tensor -> list Target -> gmap string float)
    (optimizer_step : Model -> list Tensor -> list Target -> Model)
    (data : DataLoader Tensor Target) (self : Trainer Model) (names : list string) :
  names ⊆ loss_names ->
  names <> [] ->
  batches _ _ data <> [] ->
  Forall (has_names names)
    (batch_losses forward_losses optimizer_step (model Model self) (batches _ _ data)) ->
  num_samples _ _ data <> 0 ->
  exists result : gmap string float,
    fst (train Model Tensor Target forward_losses optimizer_step data self) = inr result /\
    (forall key, is_Some (result !! key) <-> key ∈ names) /\
    forall key, key ∈ names ->
      result !! key =
        Some (Float.div
                (term_sum key Float.zero
                   (batch_losses forward_losses optimizer_step (model Model self)
                      (batches _ _ data)))
                (Float.of_int (num_samples _ _ data))).
Proof.
  intros Hsub Hterm Hne Hall Hn. rewrite train_result.
  rewrite (train_totals_accumulate _ _ (has_names_term names _ Hterm Hall)).
  assert (Hinit : forall key, key ∈ names -> is_Some (initial_losses !! key))
    by (intros key Hkey; apply initial_losses_some; now apply Hsub).
  destruct (accumulate_all_names names _ initial_losses Hinit Hall)
    as (totals & -> & _ & Hnames & Hsum).
  cbn [bind]. rewrite mean_losses_ok by exact Hn.
  eexists. split; [reflexivity|]. split.
  - apply has_names_fmap. apply Hnames. right.
    destruct (batches _ _ data) as [|[x y] bs]; [contradiction | discriminate].
  - intros key Hkey. rewrite lookup_fmap.
    rewrite (Hsum key Float.zero Hkey (initial_losses_lookup key (Hsub _ Hkey))). reflexivity.
Qed.

Lemma constant_losses_names (names : list string) (value : float) :
  has_names names (list_to_map (map (fun name => (name, value)) names)).
Proof.
  intros key. split.
  - intros [v Hv]. apply elem_of_list_to_map_2 in Hv.
    apply list_elem_of_fmap in Hv as (name & [= -> _] & Hname). exact Hname.
  - intros Hkey.
    destruct (list_to_map (M := gmap string float) (map (fun name => (name, value)) names)
                !! key) as [v|] eqn:Hv; [eauto|].
    exfalso. apply not_elem_of_list_to_map_2 in Hv. apply Hv.
    rewrite <- list_fmap_compose. simpl. rewrite list_fmap_id. exact Hkey.
Qed.

Lemma train_returns_the_names_of_the_model_witness :
  exists result : gmap string float,
    fst (train unit unit unit box_losses scenario_step scenario_loader
           (Trainer_init unit tt false)) = inr result /\
    result !! "loss_mask"%string = None /\
    result !! "loss_box_reg"%string = Some (Float.lit 1 2).
Proof.
  destruct (train_returns_the_names_of_the_model unit unit unit box_losses scenario_step
              scenario_loader (Trainer_init unit tt false)
              ["loss_classifier"; "loss_box_reg"; "loss_objectness"; "loss_rpn_box_reg"]%string)
    as (result & Hrun & Hnames & Hmean).
  - intros name Hname. unfold loss_names.
    repeat (apply elem_of_cons in Hname as [->|Hname];
            [repeat (apply list_elem_of_here || apply list_elem_of_further)|]).
    now apply elem_of_nil in Hname.
  - discriminate.
  - discriminate.
  - apply Forall_cons. split; [apply constant_losses_names | constructor].
  - discriminate.
  - exists result. split; [exact Hrun|]. split.
    + destruct (result !! "loss_mask"%string) eqn:Hmask; [|reflexivity].
      exfalso. assert (Hin : is_Some (result !! "loss_mask"%string)) by eauto.
      apply Hnames in Hin.
      repeat (apply elem_of_cons in Hin as [Hin|Hin]; [discriminate|]).
      now apply elem_of_nil in Hin.
    + rewrite Hmean; [vm_compute; reflexivity|].
      apply list_elem_of_further, list_elem_of_here.
Defined.

(** ** The order of binary64 numbers *)

Lemma ltb_irrefl (x : float) : Float.ltb x x = false.
Proof.
  unfold Float.ltb, SFltb.
  destruct x as [[]|[]| |[] m e]; simpl; try reflexivity;
    rewrite Z.compare_refl; fold (Pos.compare m m); now rewrite Pos.compare_refl.
Qed.

Lemma ltb_trans (x y z : float) :
  Float.ltb x y = true -> Float.ltb y z = true -> Float.ltb x z = true.
Proof.
  unfold Float.ltb, SFltb.
  destruct x as [[]|[]| |[] m1 e1], y as [[]|[]| |[] m2 e2], z as [[]|[]| |[] m3 e3];
    simpl; try discriminate; try reflexivity;
    fold (Pos.compare m1 m2); fold (Pos.compare m2 m3); fold (Pos.compare m1 m3);
    destruct (Z.compare_spec e1 e2), (Z.compare_spec e2 e3), (Z.compare_spec e1 e3);
    try discriminate; try reflexivity; try lia;
    destruct (Pos.compare_spec m1 m2), (Pos.compare_spec m2 m3), (Pos.compare_spec m1 m3);
    simpl; try discriminate; try reflexivity; try lia.
Qed.

(** The best value is not beaten by any value seen. *)
Lemma running_best_lower_bound (losses : list float) :
  forall (best : float) (seen : list float),
  Forall (fun y => Float.ltb y best = false) seen ->
  Forall (fun y => Float.ltb y (running_best best losses) = false) (seen ++ losses).
Proof.
  induction losses as [|x losses IH]; intros best seen Hseen.
  - now rewrite app_nil_r.
  - change (seen ++ x :: losses) with (seen ++ [x] ++ losses). rewrite app_assoc.
    cbn [running_best fold_left]. apply IH. apply Forall_app. split.
    + destruct (Float.ltb x best) eqn:Hx; [|exact Hseen].
      eapply Forall_impl; [exact Hseen|]. intros y Hy; cbv beta in Hy.
      destruct (Float.ltb y x) eqn:Hyx; [|reflexivity].
      rewrite (ltb_trans y x best Hyx Hx) in Hy. discriminate.
    + constructor; [|constructor].
      destruct (Float.ltb x best) eqn:Hx; [apply ltb_irrefl | exact Hx].
Qed.

Lemma running_best_elem (losses : list float) (best : float) :
  running_best best losses = best \/ running_best best losses ∈ losses.
Proof.
  revert best. induction losses as [|x losses IH]; intros best; [now left|].
  cbn [running_best fold_left]. fold (running_best (if Float.ltb x best then x else best) losses).
  destruct (IH (if Float.ltb x best then x else best)) as [H|H].
  - rewrite H. destruct (Float.ltb x best); [right; apply list_elem_of_here | now left].
  - right. now apply list_elem_of_further.
Qed.

(** ** More on [fit] *)

Section FitRuns.

Variable Model ndarray Tensor Target MaskTensor InstanceMask : Type.
Variable forward_losses : Model -> list Tensor -> list Target -> gmap string float.
Variable optimizer_step : Model -> list Tensor -> list Target -> Model.
Variable predict : Model -> Tensor -> Prediction MaskTensor.
Variable mask_pixels : MaskTensor -> list N.
Variable extract_bbox_segmentation : list N -> list float * Segmentation.
Variable read_image : string -> Err ndarray.
Variable path_join : string -> string -> string.
Variable seg_preprocessing : option (ndarray -> list Annotation -> Err (ndarray * list Annotation)).
Variable seg_augmentations : option (ndarray -> list Annotation -> Err (ndarray * list Annotation)).
Variable generate_instance_mask : ndarray -> Annotation -> Err InstanceMask.
Variable to_chw_tensor : ndarray -> Tensor.

#[local] Abbreviation train_ := (train Model Tensor Target forward_losses optimizer_step).
#[local] Abbreviation evaluate_ := (evaluate Model Tensor Target forward_losses).
#[local] Abbreviation coco_eval_ :=
  (coco_eval Model ndarray Tensor Target MaskTensor InstanceMask predict mask_pixels
     extract_bbox_segmentation read_image path_join seg_preprocessing seg_augmentations
     generate_instance_mask to_chw_tensor).
#[local] Abbreviation fit_epoch_ :=
  (fit_epoch Model ndarray Tensor Target MaskTensor InstanceMask forward_losses
     optimizer_step predict mask_pixels extract_bbox_segmentation read_image path_join
     seg_preprocessing seg_augmentations generate_instance_mask to_chw_tensor).
#[local] Abbreviation fit_epochs_ :=
  (fit_epochs Model ndarray Tensor Target MaskTensor InstanceMask forward_losses
     optimizer_step predict mask_pixels extract_bbox_segmentation read_image path_join
     seg_preprocessing seg_augmentations generate_instance_mask to_chw_tensor).
#[local] Abbreviation fit_ :=
  (fit Model ndarray Tensor Target MaskTensor InstanceMask forward_losses
     optimizer_step predict mask_pixels extract_bbox_segmentation read_image path_join
     seg_preprocessing seg_augmentations generate_instance_mask to_chw_tensor).

Lemma keeps_recorder_ret {A} (a : A) : keeps_recorder (ret Model a).
Proof. intros self r self' [= <- <-]. auto. Qed.

Lemma keeps_recorder_lift {A} (r : Err A) : keeps_recorder (lift Model r).
Proof. intros self r' self' [= <- <-]. auto. Qed.

Lemma keeps_recorder_emit (ev : Event) :
  ev <> RecorderClosed -> keeps_recorder (emit Model ev).
Proof.
  intros Hev self r self' [= <- <-]. split; [reflexivity|].
  cbn [trace]. unfold recorder_closes. rewrite omap_app, length_app.
  destruct ev; try contradiction; simpl; lia.
Qed.

Lemma keeps_recorder_bind {A B} (m : Method Model A) (k : A -> Method Model B) :
  keeps_recorder m -> (forall a, keeps_recorder (k a)) -> keeps_recorder (mbind Model m k).
Proof.
  intros Hm Hk self r self'. unfold mbind.
  destruct (m self) as [[e|a] s1] eqn:H1.
  - intros [= <- <-]. exact (Hm _ _ _ H1).
  - intros H2. destruct (Hm _ _ _ H1) as [Hr1 Hc1]. destruct (Hk a _ _ _ H2) as [Hr2 Hc2].
    split; congruence.
Qed.

Lemma keeps_recorder_train (data : DataLoader Tensor Target) : keeps_recorder (train_ data).
Proof.
  intros self r self' H. apply train_frame in H as (Hr & _ & Ht). now rewrite Hr, Ht.
Qed.

Lemma keeps_recorder_evaluate (data : DataLoader Tensor Target) :
  keeps_recorder (evaluate_ data).
Proof. intros self r self' H. apply evaluate_frame in H. now subst. Qed.

Lemma keeps_recorder_fit_epoch (training_data validation_data : DataLoader Tensor Target)
    (coco_eval_frequency : option Z) (epoch : Z) :
  keeps_recorder (fit_epoch_ training_data validation_data coco_eval_frequency epoch).
Proof.
  unfold fit_epoch.
  apply keeps_recorder_bind; [apply keeps_recorder_train | intros loss_training].
  apply keeps_recorder_bind; [apply keeps_recorder_emit; discriminate | intros _].
  apply keeps_recorder_bind; [apply keeps_recorder_evaluate | intros loss_validation].
  apply keeps_recorder_bind; [apply keeps_recorder_emit; discriminate | intros _].
  apply keeps_recorder_bind; [|intros _].
  { destruct coco_eval_frequency as [frequency|]; [|apply keeps_recorder_ret].
    destruct (frequency =? 0); [apply keeps_recorder_lift|].
    destruct (epoch mod frequency =? 0); [|apply keeps_recorder_ret].
    apply keeps_recorder_bind; [intros self r self' [= <- <-]; auto | intros m].
    apply keeps_recorder_bind; [apply keeps_recorder_lift | intros stores].
    apply keeps_recorder_emit. discriminate. }
  apply keeps_recorder_bind; [|intros _].
  { intros self r self'. cbv beta. destruct (recorder Model self) eqn:Hrec.
    - assert (Hrecorded : forall tag losses step, Recorded tag losses step <> RecorderClosed)
        by discriminate.
      intros H. rewrite <- Hrec. revert H.
      exact (keeps_recorder_bind _ _
               (keeps_recorder_emit _ (Hrecorded _ _ _))
               (fun _ => keeps_recorder_emit _ (Hrecorded _ _ _)) self r self').
    - intros H. rewrite <- Hrec. revert H. exact (keeps_recorder_ret tt self r self'). }
  apply keeps_recorder_bind; [apply keeps_recorder_lift | intros main].
  apply keeps_recorder_bind; [intros self r self' [= <- <-]; auto | intros best].
  destruct (Float.ltb main best); [|apply keeps_recorder_ret].
  apply keeps_recorder_bind; [intros self r self' [= <- <-]; auto | intros _].
  apply keeps_recorder_emit. discriminate.
Qed.

Lemma keeps_recorder_fit_epochs (training_data validation_data : DataLoader Tensor Target)
    (coco_eval_frequency : option Z) (epochs : list Z) :
  keeps_recorder (fit_epochs_ training_data validation_data coco_eval_frequency epochs).
Proof.
  induction epochs as [|epoch epochs IH]; [apply keeps_recorder_ret|].
  cbn [fit_epochs]. apply keeps_recorder_bind; [apply keeps_recorder_fit_epoch | intros _].
  exact IH.
Qed.

(** X19. [fit] closes the recorder once, as its last action, when it
    returns with logging on, and not at all when logging is off or when an
    epoch raises: the exception leaves the recorder open. *)
Theorem fit_closes_recorder_once (training_data validation_data : DataLoader Tensor Target)
    (epochs : Z) (coco_eval_frequency : option Z) (self self' : Trainer Model)
    (r : Err unit) :
  fit_ training_data validation_data epochs coco_eval_frequency self = (r, self') ->
  recorder_closes (trace Model self') =
    (recorder_closes (trace Model self) +
     match r with
     | inr _ => if recorder Model self then 1 else 0
     | inl _ => 0
     end)%nat /\
  match r with
  | inr _ => recorder Model self = true -> last (trace Model self') = Some RecorderClosed
  | inl _ => True
  end.
Proof.
  unfold fit, mbind.
  destruct (fit_epochs_ _ _ _ _ self) as [[e|[]] s1] eqn:Hloop;
    destruct (keeps_recorder_fit_epochs _ _ _ _ _ _ _ Hloop) as [Hr Hc].
  - intros [= <- <-]. split; [lia | exact I].
  - rewrite <- Hr. destruct (recorder Model s1).
    + intros [= <- <-]. unfold ok. cbn [trace]. split.
      * unfold recorder_closes in *. rewrite omap_app, length_app. simpl. lia.
      * intros _. apply last_snoc.
    + intros [= <- <-]. unfold ok. split; [lia | discriminate].
Qed.

(** X20. With [epochs <= 0], [fit] returns without running any phase: the
    model and [best_loss] are unchanged and nothing is recorded or saved;
    with logging on the recorder is closed. *)
Theorem fit_without_epochs (training_data validation_data : DataLoader Tensor Target)
    (epochs : Z) (coco_eval_frequency : option Z) (self : Trainer Model) :
  epochs <= 0 ->
  fit_ training_data validation_data epochs coco_eval_frequency self =
  (inr tt, if recorder Model self then with_events self [RecorderClosed] else self).
Proof.
  intros H. unfold fit, range. replace (Z.to_nat epochs) with 0%nat by lia.
  cbn [seq map fit_epochs]. unfold mbind, ret.
  destruct (recorder Model self); reflexivity.
Qed.

End FitRuns.

Section FitTraces.

Variable Model ndarray Tensor Target MaskTensor InstanceMask : Type.
Variable forward_losses : Model -> list Tensor -> list Target -> gmap string float.
Variable optimizer_step : Model -> list Tensor -> list Target -> Model.
Variable predict : Model -> Tensor -> Prediction MaskTensor.
Variable mask_pixels : MaskTensor -> list N.
Variable extract_bbox_segmentation : list N -> list float * Segmentation.
Variable read_image : string -> Err ndarray.
Variable path_join : string -> string -> string.
Variable seg_preprocessing : option (ndarray -> list Annotation -> Err (ndarray * list Annotation)).
Variable seg_augmentations : option (ndarray -> list Annotation -> Err (ndarray * list Annotation)).
Variable generate_instance_mask : ndarray -> Annotation -> Err InstanceMask.
Variable to_chw_tensor : ndarray -> Tensor.

#[local] Abbreviation train_ := (train Model Tensor Target forward_losses optimizer_step).
#[local] Abbreviation evaluate_ := (evaluate Model Tensor Target forward_losses).
#[local] Abbreviation model_after_ := (model_after Model Tensor Target optimizer_step).
#[local] Abbreviation fit_epoch_ :=
  (fit_epoch Model ndarray Tensor Target MaskTensor InstanceMask forward_losses
     optimizer_step predict mask_pixels extract_bbox_segmentation read_image path_join
     seg_preprocessing seg_augmentations generate_instance_mask to_chw_tensor).
#[local] Abbreviation fit_epochs_ :=
  (fit_epochs Model ndarray Tensor Target MaskTensor InstanceMask forward_losses
     optimizer_step predict mask_pixels extract_bbox_segmentation read_image path_join
     seg_preprocessing seg_augmentations generate_instance_mask to_chw_tensor).
#[local] Abbreviation fit_ :=
  (fit Model ndarray Tensor Target MaskTensor InstanceMask forward_losses
     optimizer_step predict mask_pixels extract_bbox_segmentation read_image path_join
     seg_preprocessing seg_augmentations generate_instance_mask to_chw_tensor).

(** The tagged results of the two phases of an epoch. *)
#[local] Abbreviation phases epoch loss_training loss_validation :=
  [("training loss"%string, loss_training, epoch);
   ("validation loss"%string, loss_validation, epoch)].

(** One epoch that completes: the model it leaves and what it hands to
    the recorder. *)
Lemma fit_epoch_run (training_data validation_data : DataLoader Tensor Target)
    (coco_eval_frequency : option Z) (epoch : Z) (self self' : Trainer Model) :
  fit_epoch_ training_data validation_data coco_eval_frequency epoch self = (inr tt, self') ->
  exists loss_training loss_validation : gmap string float,
    model Model self' = model_after_ (model Model self) (batches _ _ training_data) /\
    recorder Model self' = recorder Model self /\
    phase_results (trace Model self') =
      phase_results (trace Model self) ++ phases epoch loss_training loss_validation /\
    recorded_scalars (trace Model self') =
      recorded_scalars (trace Model self) ++
      (if recorder Model self then phases epoch loss_training loss_validation else []).
Proof.
  unfold fit_epoch. intros H.
  apply mbind_ok in H as (loss_training & s1 & Htrain & H).
  apply train_ok_state in Htrain. subst s1.
  apply mbind_ok in H as ([] & s2 & Hemit1 & H).
  unfold emit in Hemit1. injection Hemit1 as <-.
  apply mbind_ok in H as (loss_validation & s3 & Heval & H).
  apply evaluate_frame in Heval. subst s3.
  apply mbind_ok in H as ([] & s4 & Hemit2 & H).
  unfold emit in Hemit2. injection Hemit2 as <-.
  cbn [model recorder best_loss trace with_model] in H.
  exists loss_training, loss_validation.
  set (m1 := model_after_ (model Model self) (batches _ _ training_data)) in *.
  apply mbind_ok in H as ([] & s5 & Hcoco & H).
  assert (H5 : model Model s5 = m1 /\ recorder Model s5 = recorder Model self /\
               exists evs,
                 trace Model s5 =
                   trace Model self ++
                   [Trained epoch loss_training; Evaluated epoch loss_validation] ++ evs /\
                 phase_results evs = [] /\ recorded_scalars evs = []).
  { destruct coco_eval_frequency as [frequency|].
    - destruct (frequency =? 0); [discriminate|].
      destruct (epoch mod frequency =? 0).
      + unfold mbind, get_model, lift, emit, ok in Hcoco.
        cbn [model recorder best_loss trace] in Hcoco.
        destruct (coco_eval _ _ _ _ _ _ _ _ _ _ _ _ _ _ _ _ _) as [e|stores];
          [discriminate|].
        injection Hcoco as <-. cbn [model recorder best_loss trace]. repeat split.
        eexists. rewrite <- !app_assoc. split; [reflexivity|]. split; reflexivity.
      + unfold ret in Hcoco. injection Hcoco as <-. cbn [model recorder best_loss trace].
        repeat split. exists []. rewrite <- !app_assoc. repeat split.
    - unfold ret in Hcoco. injection Hcoco as <-. cbn [model recorder best_loss trace].
      repeat split. exists []. rewrite <- !app_assoc. repeat split. }
  destruct H5 as (Hm5 & Hr5 & evs & Ht5 & Hp5 & Hs5).
  apply mbind_ok in H as ([] & s6 & Hrec & H).
  assert (H6 : model Model s6 = m1 /\ recorder Model s6 = recorder Model self /\
               trace Model s6 =
                 trace Model s5 ++
                 (if recorder Model self
                  then [Recorded "training loss" loss_training epoch;
                        Recorded "validation loss" loss_validation epoch]
                  else [])).
  { rewrite <- Hr5. destruct (recorder Model s5) eqn:Hrec5.
    - unfold mbind, emit in Hrec. cbn [model recorder best_loss trace] in Hrec.
      injection Hrec as <-. cbn [model recorder best_loss trace].
      rewrite <- app_assoc. repeat split; auto.
    - unfold ret in Hrec. injection Hrec as <-. rewrite app_nil_r. repeat split; auto. }
  destruct H6 as (Hm6 & Hr6 & Ht6).
  assert (Hend : model Model self' = model Model s6 /\
                 recorder Model self' = recorder Model s6 /\
                 exists evs', trace Model self' = trace Model s6 ++ evs' /\
                   phase_results evs' = [] /\ recorded_scalars evs' = []).
  { apply mbind_ok in H as (main & s7 & Hmain & H).
    unfold lift in Hmain. injection Hmain as _ <-.
    apply mbind_ok in H as (best & s8 & Hbest & H).
    unfold get_best_loss in Hbest. injection Hbest as _ <-.
    destruct (Float.ltb main best).
    - apply mbind_ok in H as ([] & s9 & Hset & H).
      unfold set_best_loss in Hset. injection Hset as <-.
      unfold emit in H. injection H as <-. cbn [model recorder best_loss trace].
      repeat split. eexists. split; [reflexivity|]. split; reflexivity.
    - unfold ret in H. injection H as <-. repeat split. exists [].
      rewrite app_nil_r. repeat split. }
  destruct Hend as (Hm & Hr & evs' & Ht & Hp & Hs).
  split; [congruence|]. split; [congruence|].
  rewrite Ht, Ht6, Ht5. unfold phase_results, recorded_scalars in *.
  rewrite !omap_app, Hp, Hs, Hp5, Hs5.
  destruct (recorder Model self); simpl; rewrite ?app_nil_r; split; reflexivity.
Qed.

(** The tags and steps of the calls that the phases of the epochs make. *)
#[local] Abbreviation calls_of epochs :=
  (concat (map (fun epoch : Z => [("training loss"%string, epoch);
                                  ("validation loss"%string, epoch)]) epochs)).

#[local] Abbreviation tag_and_step :=
  (fun r : string * gmap string float * Z => (fst (fst r), snd r)).

Lemma fit_epochs_run (training_data validation_data : DataLoader Tensor Target)
    (coco_eval_frequency : option Z) (epochs : list Z) :
  forall self self' : Trainer Model,
  fit_epochs_ training_data validation_data coco_eval_frequency epochs self = (inr tt, self') ->
  exists results : list (string * gmap string float * Z),
    model Model self' =
      model_after_epochs optimizer_step (model Model self) (batches _ _ training_data)
        (length epochs) /\
    recorder Model self' = recorder Model self /\
    phase_results (trace Model self') = phase_results (trace Model self) ++ results /\
    recorded_scalars (trace Model self') =
      recorded_scalars (trace Model self) ++ (if recorder Model self then results else []) /\
    map tag_and_step results = calls_of epochs.
Proof.
  induction epochs as [|epoch epochs IH]; intros self self' H.
  - simpl in H. unfold ret in H. injection H as <-. exists [].
    destruct (recorder Model self); rewrite !app_nil_r; repeat split.
  - cbn [fit_epochs] in H.
    apply mbind_ok in H as ([] & s1 & Hepoch & H).
    apply fit_epoch_run in Hepoch as (lt & lv & Hm1 & Hr1 & Hp1 & Hs1).
    apply IH in H as (results & Hm & Hr & Hp & Hs & Htags).
    exists (phases epoch lt lv ++ results).
    rewrite Hm, Hr, Hp, Hs, Hm1, Hr1, Hp1, Hs1, <- !app_assoc.
    split; [reflexivity|]. split; [reflexivity|]. split; [reflexivity|].
    split; [destruct (recorder Model self); now rewrite ?app_nil_r|].
    rewrite map_app, Htags. reflexivity.
Qed.

Lemma fit_run (training_data validation_data : DataLoader Tensor Target)
    (epochs : Z) (coco_eval_frequency : option Z) (self self' : Trainer Model) :
  fit_ training_data validation_data epochs coco_eval_frequency self = (inr tt, self') ->
  exists results : list (string * gmap string float * Z),
    model Model self' =
      model_after_epochs optimizer_step (model Model self) (batches _ _ training_data)
        (Z.to_nat epochs) /\
    phase_results (trace Model self') = phase_results (trace Model self) ++ results /\
    recorded_scalars (trace Model self') =
      recorded_scalars (trace Model self) ++ (if recorder Model self then results else []) /\
    map tag_and_step results = calls_of (range epochs).
Proof.
  unfold fit. intros H.
  apply mbind_ok in H as ([] & s1 & Hloop & H).
  apply fit_epochs_run in Hloop as (results & Hm & Hr & Hp & Hs & Htags).
  exists results.
  assert (Hend : model Model self' = model Model s1 /\
                 (trace Model self' = trace Model s1 \/
                  trace Model self' = trace Model s1 ++ [RecorderClosed])).
  { destruct (recorder Model s1).
    - unfold emit in H. injection H as <-. split; [reflexivity | now right].
    - unfold ret in H. injection H as <-. split; [reflexivity | now left]. }
  destruct Hend as [Hm' Ht].
  rewrite Hm', Hm. unfold range at 1. rewrite length_map, length_seq.
  split; [reflexivity|].
  destruct Ht as [-> | ->]; unfold phase_results, recorded_scalars in *;
    rewrite ?omap_app; simpl; rewrite ?app_nil_r; rewrite Hp, Hs; repeat split; exact Htags.
Qed.

End FitTraces.

Section FitFailures.

Variable Model ndarray Tensor Target MaskTensor InstanceMask : Type.
Variable forward_losses : Model -> list Tensor -> list Target -> gmap string float.
Variable optimizer_step : Model -> list Tensor -> list Target -> Model.
Variable predict : Model -> Tensor -> Prediction MaskTensor.
Variable mask_pixels : MaskTensor -> list N.
Variable extract_bbox_segmentation : list N -> list float * Segmentation.
Variable read_image : string -> Err ndarray.
Variable path_join : string -> string -> string.
Variable seg_preprocessing : option (ndarray -> list Annotation -> Err (ndarray * list Annotation)).
Variable seg_augmentations : option (ndarray -> list Annotation -> Err (ndarray * list Annotation)).
Variable generate_instance_mask : ndarray -> Annotation -> Err InstanceMask.
Variable to_chw_tensor : ndarray -> Tensor.

#[local] Abbreviation train_ := (train Model Tensor Target forward_losses optimizer_step).
#[local] Abbreviation evaluate_ := (evaluate Model Tensor Target forward_losses).
#[local] Abbreviation fit_epoch_ :=
  (fit_epoch Model ndarray Tensor Target MaskTensor InstanceMask forward_losses
     optimizer_step predict mask_pixels extract_bbox_segmentation read_image path_join
     seg_preprocessing seg_augmentations generate_instance_mask to_chw_tensor).
#[local] Abbreviation fit_ :=
  (fit Model ndarray Tensor Target MaskTensor InstanceMask forward_losses
     optimizer_step predict mask_pixels extract_bbox_segmentation read_image path_join
     seg_preprocessing seg_augmentations generate_instance_mask to_chw_tensor).

(** The result of [evaluate] depends on the model only. *)
Lemma evaluate_same_model (data : DataLoader Tensor Target) (self self2 : Trainer Model)
    (r : Err (gmap string float)) (self' : Trainer Model) :
  evaluate_ data self = (r, self') -> model Model self2 = model Model self ->
  evaluate_ data self2 = (r, self2).
Proof.
  rewrite !evaluate_eq. intros [= <- _] ->. reflexivity.
Qed.

(** An exception of the first epoch is the exception of [fit]. *)
Lemma fit_first_epoch_raises (training_data validation_data : DataLoader Tensor Target)
    (epochs : Z) (coco_eval_frequency : option Z) (self s : Trainer Model) (e : PyError) :
  0 < epochs ->
  fit_epoch_ training_data validation_data coco_eval_frequency 0 self = (inl e, s) ->
  fit_ training_data validation_data epochs coco_eval_frequency self = (inl e, s).
Proof.
  intros Hpos H. unfold fit, range.
  destruct (Z.to_nat epochs) as [|n] eqn:Hn; [lia|].
  cbn [seq map fit_epochs]. change (Z.of_nat 0) with 0.
  unfold mbind at 1. unfold mbind at 1. now rewrite H.
Qed.

(** The first two phases of an epoch. *)
Lemma fit_epoch_phases (training_data validation_data : DataLoader Tensor Target)
    (coco_eval_frequency : option Z) (epoch : Z) (self s1 : Trainer Model)
    (loss_training loss_validation : gmap string float) :
  train_ training_data self = (inr loss_training, s1) ->
  evaluate_ validation_data s1 = (inr loss_validation, s1) ->
  fit_epoch_ training_data validation_data coco_eval_frequency epoch self =
  mbind Model
    match coco_eval_frequency with
    | None => ret Model tt
    | Some frequency =>
        if frequency =? 0 then lift Model (raise ZeroDivisionError)
        else if epoch mod frequency =? 0 then
          mbind Model (get_model Model) (fun m =>
          mbind Model
            (lift Model
               (coco_eval Model ndarray Tensor Target MaskTensor InstanceMask predict
                  mask_pixels extract_bbox_segmentation read_image path_join
                  seg_preprocessing seg_augmentations generate_instance_mask to_chw_tensor
                  m validation_data)) (fun stores =>
          emit Model (CocoEvaluated epoch (fst stores) (snd stores))))
        else ret Model tt
    end (fun _ =>
  mbind Model
    (fun self =>
       if recorder Model self then
         mbind Model (emit Model (Recorded "training loss" loss_training epoch))
           (fun _ => emit Model (Recorded "validation loss" loss_validation epoch)) self
       else ret Model tt self) (fun _ =>
  mbind Model (lift Model (losses_getitem loss_validation main_metric)) (fun main =>
  mbind Model (get_best_loss Model) (fun best =>
  if Float.ltb main best then
    mbind Model (set_best_loss Model main) (fun _ => emit Model (Saved epoch))
  else ret Model tt))))
    (with_events s1 [Trained epoch loss_training; Evaluated epoch loss_validation]).
Proof.
  intros Htrain Heval. unfold fit_epoch.
  unfold mbind at 1. rewrite Htrain.
  unfold mbind at 1. unfold emit at 1.
  unfold mbind at 1.
  match goal with
  | |- context [evaluate _ _ _ _ validation_data ?s2] =>
      rewrite (evaluate_same_model validation_data s1 s2 _ _ Heval eq_refl)
  end.
  unfold mbind at 1. unfold emit at 1.
  cbn [model recorder best_loss trace]. unfold with_events.
  rewrite <- app_assoc. reflexivity.
Qed.

End FitFailures.

Section FitTheorems.

Variable Model ndarray Tensor Target MaskTensor InstanceMask : Type.
Variable forward_losses : Model -> list Tensor -> list Target -> gmap string float.
Variable optimizer_step : Model -> list Tensor -> list Target -> Model.
Variable predict : Model -> Tensor -> Prediction MaskTensor.
Variable mask_pixels : MaskTensor -> list N.
Variable extract_bbox_segmentation : list N -> list float * Segmentation.
Variable read_image : string -> Err ndarray.
Variable path_join : string -> string -> string.
Variable seg_preprocessing : option (ndarray -> list Annotation -> Err (ndarray * list Annotation)).
Variable seg_augmentations : option (ndarray -> list Annotation -> Err (ndarray * list Annotation)).
Variable generate_instance_mask : ndarray -> Annotation -> Err InstanceMask.
Variable to_chw_tensor : ndarray -> Tensor.

#[local] Abbreviation train_ := (train Model Tensor Target forward_losses optimizer_step).
#[local] Abbreviation evaluate_ := (evaluate Model Tensor Target forward_losses).
#[local] Abbreviation fit_ :=
  (fit Model ndarray Tensor Target MaskTensor InstanceMask forward_losses
     optimizer_step predict mask_pixels extract_bbox_segmentation read_image path_join
     seg_preprocessing seg_augmentations generate_instance_mask to_chw_tensor).

(** X21. A [fit] that returns has run, for each epoch of [range(epochs)]
    in order, one train phase and then one evaluate phase; with logging on
    it has passed the result of each of them to [record_scalars], under the
    tags [training loss] and [validation loss] with the epoch as step, and
    has made no other call of [record_scalars]; with logging off it has made
    none. *)
Theorem fit_records_every_phase (training_data validation_data : DataLoader Tensor Target)
    (epochs : Z) (coco_eval_frequency : option Z) (self self' : Trainer Model) :
  fit_ training_data validation_data epochs coco_eval_frequency self = (inr tt, self') ->
  exists results : list (string * gmap string float * Z),
    phase_results (trace Model self') = phase_results (trace Model self) ++ results /\
    map (fun r => (fst (fst r), snd r)) results =
      concat (map (fun epoch : Z => [("training loss"%string, epoch);
                                     ("validation loss"%string, epoch)]) (range epochs)) /\
    recorded_scalars (trace Model self') =
      recorded_scalars (trace Model self) ++ (if recorder Model self then results else []).
Proof.
  intros H. apply fit_run in H as (results & _ & Hp & Hs & Htags).
  exists results. auto.
Qed.


(** X23. After a [fit] that returns, no tracked validation loss of the run
    is less than [best_loss], [best_loss] has not grown, and it is either
    the value of before or one of the tracked validation losses of the
    run. *)
Theorem fit_best_loss_is_lower_bound
    (training_data validation_data : DataLoader Tensor Target)
    (epochs : Z) (coco_eval_frequency : option Z) (self self' : Trainer Model) :
  fit_ training_data validation_data epochs coco_eval_frequency self = (inr tt, self') ->
  exists losses : list float,
    tracked_losses (trace Model self') = tracked_losses (trace Model self) ++ losses /\
    Forall (fun x => Float.ltb x (best_loss Model self') = false) losses /\
    Float.ltb (best_loss Model self) (best_loss Model self') = false /\
    (best_loss Model self' = best_loss Model self \/ best_loss Model self' ∈ losses).
Proof.
  intros H. apply fit_ok in H as (losses & _ & Hk & _ & _ & Hb).
  exists losses. split; [exact Hk|]. rewrite Hb.
  pose proof (running_best_lower_bound losses (best_loss Model self) [best_loss Model self])
    as Hall.
  cbn [app] in Hall. apply Forall_cons in Hall as [Hbest Hall];
    [|constructor; [apply ltb_irrefl | constructor]].
  split; [exact Hall|]. split; [exact Hbest|]. apply running_best_elem.
Qed.

(** X24. With [coco_eval_frequency = 0] and at least one epoch, [fit]
    raises [ZeroDivisionError] in the first epoch, after its train and
    evaluate phases and before anything is recorded, saved or closed. *)
Theorem fit_zero_frequency_raises (training_data validation_data : DataLoader Tensor Target)
    (epochs : Z) (self s1 : Trainer Model) (loss_training loss_validation : gmap string float) :
  0 < epochs ->
  train_ training_data self = (inr loss_training, s1) ->
  evaluate_ validation_data s1 = (inr loss_validation, s1) ->
  fit_ training_data validation_data epochs (Some 0) self =
  (inl ZeroDivisionError,
   with_events s1 [Trained 0 loss_training; Evaluated 0 loss_validation]).
Proof.
  intros Hpos Htrain Heval. apply fit_first_epoch_raises; [exact Hpos|].
  erewrite fit_epoch_phases; [|exact Htrain|exact Heval].
  reflexivity.
Qed.

(** X25. When the validation losses of the first epoch have no term
    [loss_mask], [fit] raises a [KeyError] with that name at the comparison
    with [best_loss]: after the losses of the epoch were recorded, without
    saving and without closing the recorder. *)
Theorem fit_missing_tracked_loss_raises
    (training_data validation_data : DataLoader Tensor Target)
    (epochs : Z) (self s1 : Trainer Model) (loss_training loss_validation : gmap string float) :
  0 < epochs ->
  train_ training_data self = (inr loss_training, s1) ->
  evaluate_ validation_data s1 = (inr loss_validation, s1) ->
  loss_validation !! "loss_mask"%string = None ->
  fit_ training_data validation_data epochs None self =
  (inl (KeyError (StrKey "loss_mask")),
   with_events s1
     ([Trained 0 loss_training; Evaluated 0 loss_validation] ++
      if recorder Model self
      then [Recorded "training loss" loss_training 0;
            Recorded "validation loss" loss_validation 0]
      else [])).
Proof.
  intros Hpos Htrain Heval Hnone. apply fit_first_epoch_raises; [exact Hpos|].
  erewrite fit_epoch_phases; [|exact Htrain|exact Heval].
  pose proof (train_frame _ _ _ _ _ _ _ _ _ Htrain) as (Hr & _ & _).
  unfold mbind, ret, lift, losses_getitem, main_metric, with_events.
  cbn [recorder]. rewrite Hnone, Hr.
  destruct (recorder Model self); unfold emit, raise;
    cbn [model recorder best_loss trace]; rewrite <- ?app_assoc, ?app_nil_r; reflexivity.
Qed.

End FitTheorems.

Lemma toy_fit_recorded_run :
  toy_fit_recorded 2 None = (inr tt, snd (toy_fit_recorded 2 None)).
Proof. vm_compute. reflexivity. Qed.

Lemma fit_records_every_phase_witness :
  map (fun r => (fst (fst r), snd r))
      (recorded_scalars (trace nat (snd (toy_fit_recorded 2 None)))) =
    [("training loss"%string, 0); ("validation loss"%string, 0);
     ("training loss"%string, 1); ("validation loss"%string, 1)] /\
  recorded_scalars (trace nat (snd (toy_fit_recorded 2 None))) =
    phase_results (trace nat (snd (toy_fit_recorded 2 None))).
Proof.
  destruct (fit_records_every_phase _ _ _ _ _ _ _ _ _ _ _ _ _ _ _ _ _ _ _ _ _ _ _
              toy_fit_recorded_run) as (results & Hp & Htags & Hs).
  change (phase_results (trace nat (snd (toy_fit_recorded 2 None))) = results) in Hp.
  change (recorded_scalars (trace nat (snd (toy_fit_recorded 2 None))) = results) in Hs.
  rewrite Hs, Hp. split; [|reflexivity]. rewrite Htags. reflexivity.
Defined.

Lemma toy_fit_run (epochs : Z) :
  0 <= epochs <= 5 -> toy_fit epochs None = (inr tt, snd (toy_fit epochs None)).
Proof.
  intros H.
  assert (Hcases : epochs = 0 \/ epochs = 1 \/ epochs = 2 \/ epochs = 3 \/ epochs = 4 \/
                   epochs = 5) by lia.
  destruct Hcases as [->|[->|[->|[->|[->| ->]]]]]; vm_compute; reflexivity.
Qed.


Lemma fit_best_loss_is_lower_bound_witness :
  exists losses : list float,
    tracked_losses (trace nat (snd (toy_fit 4 None))) = losses /\
    Forall (fun x => Float.ltb x (best_loss nat (snd (toy_fit 4 None))) = false) losses /\
    best_loss nat (snd (toy_fit 4 None)) ∈ losses.
Proof.
  destruct (fit_best_loss_is_lower_bound _ _ _ _ _ _ _ _ _ _ _ _ _ _ _ _ _ _ _ _ _ _ _
              (toy_fit_run 4 ltac:(lia))) as (losses & Hk & Hall & _ & Hin).
  exists losses. split; [exact Hk|]. split; [exact Hall|].
  destruct Hin as [Heq|Hin]; [|exact Hin].
  vm_compute in Heq. discriminate.
Defined.

Lemma fit_without_epochs_witness :
  toy_fit 0 None = (inr tt, Trainer_init nat 0%nat false) /\
  toy_fit_recorded (-3) (Some 2) =
    (inr tt, with_events (Trainer_init nat 0%nat true) [RecorderClosed]).
Proof.
  split.
  - exact (fit_without_epochs nat unit unit unit (list N) unit toy_losses toy_step toy_predict
             toy_pixels toy_extract toy_read path_join_slash None None toy_mask toy_tensor
             toy_loader toy_loader 0 None (Trainer_init nat 0%nat false) ltac:(lia)).
  - exact (fit_without_epochs nat unit unit unit (list N) unit toy_losses toy_step toy_predict
             toy_pixels toy_extract toy_read path_join_slash None None toy_mask toy_tensor
             toy_loader toy_loader (-3) (Some 2) (Trainer_init nat 0%nat true) ltac:(lia)).
Defined.

Lemma toy_fit_recorded_fails :
  toy_fit_recorded 5 (Some 0) = (inl ZeroDivisionError, snd (toy_fit_recorded 5 (Some 0))).
Proof. vm_compute. reflexivity. Qed.

Lemma fit_closes_recorder_once_witness :
  recorder_closes (trace nat (snd (toy_fit_recorded 2 None))) = 1%nat /\
  last (trace nat (snd (toy_fit_recorded 2 None))) = Some RecorderClosed /\
  recorder_closes (trace nat (snd (toy_fit_recorded 5 (Some 0)))) = 0%nat.
Proof.
  destruct (fit_closes_recorder_once _ _ _ _ _ _ _ _ _ _ _ _ _ _ _ _ _ _ _ _ _ _ _ _
              toy_fit_recorded_run) as [Hcount Hlast].
  destruct (fit_closes_recorder_once _ _ _ _ _ _ _ _ _ _ _ _ _ _ _ _ _ _ _ _ _ _ _ _
              toy_fit_recorded_fails) as [Hnone _].
  split; [exact Hcount|]. split; [exact (Hlast eq_refl) | exact Hnone].
Defined.

Lemma toy_phases :
  train nat unit unit toy_losses toy_step toy_loader (Trainer_init nat 0%nat false) =
    (inr (<["loss_mask"%string := Float.of_int 0]> initial_losses),
     with_model nat (Trainer_init nat 0%nat false) 1%nat) /\
  evaluate nat unit unit toy_losses toy_loader
    (with_model nat (Trainer_init nat 0%nat false) 1%nat) =
    (inr (<["loss_mask"%string := Float.of_int 5]> initial_losses),
     with_model nat (Trainer_init nat 0%nat false) 1%nat).
Proof. split; vm_compute; reflexivity. Qed.

Lemma fit_zero_frequency_raises_witness :
  toy_fit 5 (Some 0) =
  (inl ZeroDivisionError,
   with_events (with_model nat (Trainer_init nat 0%nat false) 1%nat)
     [Trained 0 (<["loss_mask"%string := Float.of_int 0]> initial_losses);
      Evaluated 0 (<["loss_mask"%string := Float.of_int 5]> initial_losses)]).
Proof.
  exact (fit_zero_frequency_raises nat unit unit unit (list N) unit toy_losses toy_step
           toy_predict toy_pixels toy_extract toy_read path_join_slash None None toy_mask
           toy_tensor toy_loader toy_loader 5 _ _ _ _ ltac:(lia)
           (proj1 toy_phases) (proj2 toy_phases)).
Defined.

Lemma box_phases :
  train unit unit unit box_losses scenario_step scenario_loader (Trainer_init unit tt true) =
    (inr box_means, Trainer_init unit tt true) /\
  evaluate unit unit unit box_losses scenario_loader (Trainer_init unit tt true) =
    (inr box_means, Trainer_init unit tt true) /\
  box_means !! "loss_mask"%string = None.
Proof. repeat split; vm_compute; reflexivity. Qed.

Lemma fit_missing_tracked_loss_raises_witness :
  box_fit 3 =
  (inl (KeyError (StrKey "loss_mask")),
   with_events (Trainer_init unit tt true)
     [Trained 0 box_means; Evaluated 0 box_means;
      Recorded "training loss" box_means 0; Recorded "validation loss" box_means 0]).
Proof.
  exact (fit_missing_tracked_loss_raises unit unit unit unit (list N) unit box_losses
           scenario_step (fun m image => toy_predict 0%nat image) toy_pixels toy_extract
           toy_read path_join_slash None None toy_mask toy_tensor
           scenario_loader scenario_loader 3 _ _ _ _ ltac:(lia)
           (proj1 box_phases) (proj1 (proj2 box_phases)) (proj2 (proj2 box_phases))).
Defined.

(** ** The stores of the COCO-evaluation phase *)

Lemma mask_area_pos (pixels : list N) :
  all_background pixels = false -> 0 < mask_area pixels.
Proof.
  unfold all_background, mask_area. induction pixels as [|p pixels IH]; [discriminate|].
  cbn [forallb]. rewrite filter_cons. destruct (N.eqb_spec 0 p) as [<-|Hp]; cbn [andb].
  - intros H. rewrite decide_False by discriminate. now apply IH.
  - intros _. rewrite decide_True by (apply N.ltb_lt; lia). simpl length. lia.
Qed.

Lemma list_getitem_ok_range {A} (l : list A) (idx : Z) (x : A) :
  list_getitem l idx = inr x -> - Z.of_nat (length l) <= idx < Z.of_nat (length l).
Proof.
  intros H.
  destruct (Z_lt_le_dec idx (- Z.of_nat (length l))) as [Hlow|Hlow];
    [rewrite list_getitem_out_of_range in H by lia; discriminate|].
  destruct (Z_lt_le_dec idx (Z.of_nat (length l))) as [Hhigh|Hhigh]; [lia|].
  rewrite list_getitem_out_of_range in H by lia. discriminate.
Qed.

Section CocoEvalExtra.

Variable Model ndarray Tensor Target MaskTensor InstanceMask : Type.
Variable predict : Model -> Tensor -> Prediction MaskTensor.
Variable mask_pixels : MaskTensor -> list N.
Variable extract_bbox_segmentation : list N -> list float * Segmentation.
Variable read_image : string -> Err ndarray.
Variable path_join : string -> string -> string.
Variable seg_preprocessing : option (ndarray -> list Annotation -> Err (ndarray * list Annotation)).
Variable seg_augmentations : option (ndarray -> list Annotation -> Err (ndarray * list Annotation)).
Variable generate_instance_mask : ndarray -> Annotation -> Err InstanceMask.
Variable to_chw_tensor : ndarray -> Tensor.

#[local] Abbreviation coco_eval_ :=
  (coco_eval Model ndarray Tensor Target MaskTensor InstanceMask predict mask_pixels
     extract_bbox_segmentation read_image path_join seg_preprocessing seg_augmentations
     generate_instance_mask to_chw_tensor).
#[local] Abbreviation image_predictions_ :=
  (image_predictions Model ndarray Tensor Target MaskTensor InstanceMask predict read_image
     path_join seg_preprocessing seg_augmentations generate_instance_mask to_chw_tensor).
#[local] Abbreviation seg_getitem_ :=
  (seg_getitem ndarray Tensor InstanceMask read_image path_join seg_preprocessing
     seg_augmentations generate_instance_mask to_chw_tensor).
#[local] Abbreviation numbered_ := (numbered MaskTensor mask_pixels extract_bbox_segmentation).
#[local] Abbreviation all_kept_ := (all_kept MaskTensor mask_pixels).

(** The stores that a COCO evaluation hands over. *)
Lemma coco_eval_stores (m : Model) (data : DataLoader Tensor Target) (gt pred : COCOData) :
  coco_eval_ m data = inr (gt, pred) ->
  exists preds,
    image_predictions_ m data (data_images (seg_tree (dataset _ _ data))) = inr preds /\
    gt = seg_tree (dataset _ _ data) /\
    pred = with_annotations (seg_tree (dataset _ _ data)) (numbered_ 1 (all_kept_ preds)).
Proof.
  unfold coco_eval, from_dict. cbv zeta.
  rewrite record_images_eq by constructor.
  destruct (image_predictions _ _ _ _ _ _ _ _ _ _ _ _ _ m data _) as [e|preds];
    [discriminate|].
  cbn [bind]. intros [= <- <-]. exists preds. repeat split.
Qed.

(** Every image whose predictions are gathered has been fetched at the
    index [id - 1]. *)
Lemma image_predictions_fetched (m : Model) (data : DataLoader Tensor Target)
    (samples : list Image) (preds : list (Z * list (Instance MaskTensor))) :
  image_predictions_ m data samples = inr preds ->
  map fst preds = map img_id samples /\
  Forall (fun sample => exists r, seg_getitem_ (dataset _ _ data) (img_id sample - 1) = inr r)
         samples.
Proof.
  unfold image_predictions. intros H. apply mapM_ok in H.
  induction H as [|sample p samples preds Hp _ [IH1 IH2]]; [split; constructor|].
  destruct (seg_getitem _ _ _ _ _ _ _ _ _ _ _) as [e|[image anns]] eqn:Hget;
    [discriminate|].
  cbn [bind] in Hp. injection Hp as <-. split.
  - simpl. now rewrite IH1.
  - constructor; [eauto | exact IH2].
Qed.

Lemma numbered_Forall (P : Annotation -> Prop) (kept : list (Z * Instance MaskTensor)) :
  forall first_id : Z,
  (forall id image_id inst, first_id <= id -> (image_id, inst) ∈ kept ->
     P (instance_annotation MaskTensor mask_pixels extract_bbox_segmentation id image_id inst)) ->
  Forall P (numbered_ first_id kept).
Proof.
  induction kept as [|[image_id inst] kept IH]; intros first_id H; [constructor|].
  cbn [numbered]. constructor.
  - apply H; [lia | apply list_elem_of_here].
  - apply IH. intros id image_id' inst' Hid Hin. apply H; [lia|].
    now apply list_elem_of_further.
Qed.

Lemma all_kept_elem (preds : list (Z * list (Instance MaskTensor))) (image_id : Z)
    (inst : Instance MaskTensor) :
  (image_id, inst) ∈ all_kept_ preds ->
  image_id ∈ map fst preds /\
  all_background (mask_pixels (instance_mask MaskTensor inst)) = false.
Proof.
  unfold all_kept. intros H. apply list_elem_of_In, in_concat in H as (l & Hl & Hin).
  apply list_elem_of_In in Hl, Hin.
  apply list_elem_of_fmap in Hl as ([id insts] & -> & Hp).
  unfold kept_instances in Hin. cbn [fst snd] in Hin.
  apply list_elem_of_fmap in Hin as (inst' & [= -> ->] & Hinst).
  apply list_elem_of_filter in Hinst as [Hbg _]. split; [|exact Hbg].
  apply list_elem_of_fmap. exists (id, insts). split; [reflexivity | exact Hp].
Qed.

End CocoEvalExtra.

(** X26. When [coco_eval] returns, the ground-truth store is the store of
    the dataset, the predictions store has its images and categories, and
    every annotation of the predictions store has a positive id, the id of
    an image of the store, [iscrowd = 0], a score, and as area a positive
    pixel count. *)
Theorem coco_eval_prediction_records
    (Model ndarray Tensor Target MaskTensor InstanceMask : Type)
    (predict : Model -> Tensor -> Prediction MaskTensor)
    (mask_pixels : MaskTensor -> list N)
    (extract_bbox_segmentation : list N -> list float * Segmentation)
    (read_image : string -> Err ndarray)
    (path_join : string -> string -> string)
    (seg_preprocessing seg_augmentations :
       option (ndarray -> list Annotation -> Err (ndarray * list Annotation)))
    (generate_instance_mask : ndarray -> Annotation -> Err InstanceMask)
    (to_chw_tensor : ndarray -> Tensor)
    (m : Model) (data : DataLoader Tensor Target) (gt pred : COCOData) :
  coco_eval Model ndarray Tensor Target MaskTensor InstanceMask predict mask_pixels
    extract_bbox_segmentation read_image path_join seg_preprocessing seg_augmentations
    generate_instance_mask to_chw_tensor m data = inr (gt, pred) ->
  gt = seg_tree (dataset _ _ data) /\
  data_images pred = data_images gt /\
  data_categories pred = data_categories gt /\
  Forall (recorded_prediction gt) (data_annotations pred).
Proof.
  intros H. apply coco_eval_stores in H as (preds & Hpreds & -> & ->).
  split; [reflexivity|]. split; [reflexivity|]. split; [reflexivity|].
  cbn [with_annotations data_annotations].
  apply image_predictions_fetched in Hpreds as [Hids _].
  apply numbered_Forall. intros id image_id [[[box label] mask] score] Hid Hin.
  apply all_kept_elem in Hin as [Himage Hbg]. cbn [instance_mask fst snd] in Hbg.
  unfold recorded_prediction, instance_annotation.
  cbn [ann_id ann_image_id ann_iscrowd ann_score ann_area].
  split; [exact Hid|]. split; [now rewrite <- Hids|]. split; [reflexivity|].
  split; [eauto|]. exists (mask_area (mask_pixels mask)).
  split; [now apply mask_area_pos | reflexivity].
Qed.

Lemma coco_eval_prediction_records_witness :
  exists gt pred : COCOData,
    toy_coco_eval = inr (gt, pred) /\
    gt = toy_data /\
    Forall (recorded_prediction toy_data) (data_annotations pred) /\
    map ann_area (data_annotations pred) =
      [Float.of_int 2; Float.of_int 1; Float.of_int 2; Float.of_int 1].
Proof.
  eexists _, _. split; [vm_compute; reflexivity|].
  match goal with
  | |- _ /\ Forall _ (data_annotations ?p) /\ _ =>
      assert (Hrun : toy_coco_eval = inr (toy_data, p)) by (vm_compute; reflexivity);
      destruct (coco_eval_prediction_records _ _ _ _ _ _ _ _ _ _ _ _ _ _ _ _ _ _ _ Hrun)
        as (_ & _ & _ & Hall)
  end.
  split; [reflexivity|]. split; [exact Hall | vm_compute; reflexivity].
Defined.

(** X27. [coco_eval] fetches the sample of an image at the index
    [id - 1].  So when it returns, every image id of the store lies in
    [[1 - N, N]] for the [N] images of the store, and the image at the index
    [id - 1] has an annotation: an id outside raises [IndexError], an image
    without annotation raises [KeyError]. *)
Theorem coco_eval_returns_only_if
    (Model ndarray Tensor Target MaskTensor InstanceMask : Type)
    (predict : Model -> Tensor -> Prediction MaskTensor)
    (mask_pixels : MaskTensor -> list N)
    (extract_bbox_segmentation : list N -> list float * Segmentation)
    (read_image : string -> Err ndarray)
    (path_join : string -> string -> string)
    (seg_preprocessing seg_augmentations :
       option (ndarray -> list Annotation -> Err (ndarray * list Annotation)))
    (generate_instance_mask : ndarray -> Annotation -> Err InstanceMask)
    (to_chw_tensor : ndarray -> Tensor)
    (m : Model) (data : DataLoader Tensor Target) (dir : string) (store : COCOData)
    (stores : COCOData * COCOData) :
  dataset _ _ data = SegmentationDataset_init dir store ->
  coco_eval Model ndarray Tensor Target MaskTensor InstanceMask predict mask_pixels
    extract_bbox_segmentation read_image path_join seg_preprocessing seg_augmentations
    generate_instance_mask to_chw_tensor m data = inr stores ->
  Forall (fun sample =>
            1 - Z.of_nat (length (data_images store)) <= img_id sample
              <= Z.of_nat (length (data_images store)) /\
            exists image_data,
              list_getitem (data_images store) (img_id sample - 1) = inr image_data /\
              group ann_image_id (img_id image_data) (data_annotations store) <> [])
         (data_images store).
Proof.
  intros Hds H. destruct stores as [gt pred].
  apply coco_eval_stores in H as (preds & Hpreds & _ & _).
  apply image_predictions_fetched in Hpreds as [_ Hall].
  rewrite Hds in Hall. cbn [SegmentationDataset_init seg_tree] in Hall.
  eapply Forall_impl; [exact Hall|]. intros sample [r Hr]; cbv beta in Hr.
  destruct (list_getitem (data_images store) (img_id sample - 1)) as [e|image_data] eqn:Hget.
  - unfold seg_getitem in Hr. cbn [SegmentationDataset_init seg_tree] in Hr.
    rewrite Hget in Hr. discriminate.
  - pose proof (list_getitem_ok_range _ _ _ Hget) as Hrange.
    split; [lia|]. exists image_data. split; [reflexivity|].
    rewrite (seg_getitem_eq _ _ _ _ _ _ _ _ _ dir store _ image_data Hget) in Hr.
    intros Hnone. rewrite Hnone in Hr. discriminate.
Qed.

Lemma toy_coco_eval_run :
  toy_coco_eval =
  inr (match toy_coco_eval with inr stores => stores | inl _ => (empty_data, empty_data) end).
Proof. vm_compute. reflexivity. Qed.

Lemma coco_eval_returns_only_if_witness :
  Forall (fun sample =>
            1 - 2 <= img_id sample <= 2 /\
            exists image_data,
              list_getitem (data_images toy_data) (img_id sample - 1) = inr image_data /\
              group ann_image_id (img_id image_data) (data_annotations toy_data) <> [])
         (data_images toy_data) /\
  toy_coco_eval_of unannotated_data = inl (KeyError (IntKey 2)) /\
  toy_coco_eval_of sparse_data = inl IndexError.
Proof.
  split; [|split; vm_compute; reflexivity].
  exact (coco_eval_returns_only_if nat unit unit unit (list N) unit toy_predict toy_pixels
           toy_extract toy_read path_join_slash None None toy_mask toy_tensor 0%nat
           toy_loader "data" toy_data _ eq_refl toy_coco_eval_run).
Defined.

Section CocoEvalContiguous.

Variable Model ndarray Tensor Target MaskTensor InstanceMask : Type.
Variable predict : Model -> Tensor -> Prediction MaskTensor.
Variable mask_pixels : MaskTensor -> list N.
Variable extract_bbox_segmentation : list N -> list float * Segmentation.
Variable read_image : string -> Err ndarray.
Variable path_join : string -> string -> string.
Variable seg_preprocessing : option (ndarray -> list Annotation -> Err (ndarray * list Annotation)).
Variable seg_augmentations : option (ndarray -> list Annotation -> Err (ndarray * list Annotation)).
Variable generate_instance_mask : ndarray -> Annotation -> Err InstanceMask.
Variable to_chw_tensor : ndarray -> Tensor.

#[local] Abbreviation seg_getitem_ :=
  (seg_getitem ndarray Tensor InstanceMask read_image path_join seg_preprocessing
     seg_augmentations generate_instance_mask to_chw_tensor).

(** The predictions for the images of the positions [start], [start + 1],
    ..., recorded under the ids [start + 1], [start + 2], ... *)
Lemma image_predictions_by_position (m : Model) (data : DataLoader Tensor Target)
    (samples : list Image) :
  forall start : nat,
  map img_id samples = map Z.of_nat (seq (S start) (length samples)) ->
  image_predictions Model ndarray Tensor Target MaskTensor InstanceMask predict read_image
    path_join seg_preprocessing seg_augmentations generate_instance_mask to_chw_tensor
    m data samples =
  mapM (fun position : nat =>
          let* (image, _) := seg_getitem_ (dataset _ _ data) (Z.of_nat position) in
          let pred := predict m image in
          ok (Z.of_nat position + 1,
              zip4 (pred_boxes _ pred) (pred_labels _ pred) (pred_masks _ pred)
                   (pred_scores _ pred)))
       (seq start (length samples)).
Proof.
  unfold image_predictions.
  induction samples as [|sample samples IH]; intros start Hids; [reflexivity|].
  cbn [length seq map] in Hids. injection Hids as Hid Hids.
  cbn [length seq mapM]. rewrite (IH (S start) Hids), Hid.
  replace (Z.of_nat (S start) - 1) with (Z.of_nat start) by lia.
  replace (Z.of_nat start + 1) with (Z.of_nat (S start)) by lia.
  reflexivity.
Qed.

End CocoEvalContiguous.

(** X28. When the image ids of the store are [1, ..., N] in store order,
    [coco_eval] predicts for each image on the sample of that image: the
    instances recorded for the image id [position + 1] are the kept
    instances of the prediction on [dataset[position]], the ids of the
    predictions being numbered from 1 over the images in store order. *)
Theorem coco_eval_contiguous_ids
    (Model ndarray Tensor Target MaskTensor InstanceMask : Type)
    (predict : Model -> Tensor -> Prediction MaskTensor)
    (mask_pixels : MaskTensor -> list N)
    (extract_bbox_segmentation : list N -> list float * Segmentation)
    (read_image : string -> Err ndarray)
    (path_join : string -> string -> string)
    (seg_preprocessing seg_augmentations :
       option (ndarray -> list Annotation -> Err (ndarray * list Annotation)))
    (generate_instance_mask : ndarray -> Annotation -> Err InstanceMask)
    (to_chw_tensor : ndarray -> Tensor)
    (m : Model) (data : DataLoader Tensor Target) :
  let store := seg_tree (dataset _ _ data) in
  map img_id (data_images store) =
    map Z.of_nat (seq 1 (length (data_images store))) ->
  coco_eval Model ndarray Tensor Target MaskTensor InstanceMask predict mask_pixels
    extract_bbox_segmentation read_image path_join seg_preprocessing seg_augmentations
    generate_instance_mask to_chw_tensor m data =
  let* preds :=
    mapM (fun position : nat =>
            let* (image, _) :=
              seg_getitem ndarray Tensor InstanceMask read_image path_join
                seg_preprocessing seg_augmentations generate_instance_mask to_chw_tensor
                (dataset _ _ data) (Z.of_nat position) in
            let pred := predict m image in
            ok (Z.of_nat position + 1,
                zip4 (pred_boxes _ pred) (pred_labels _ pred) (pred_masks _ pred)
                     (pred_scores _ pred)))
         (seq 0 (length (data_images store))) in
  ok (store,
      with_annotations store
        (numbered MaskTensor mask_pixels extract_bbox_segmentation 1
           (all_kept MaskTensor mask_pixels preds))).
Proof.
  intros store Hids. unfold coco_eval, from_dict. cbv zeta.
  rewrite record_images_eq by constructor.
  cbn [data_images data_annotations app].
  rewrite (image_predictions_by_position _ _ _ _ _ _ _ _ _ _ _ _ _ m data _ 0%nat Hids).
  fold store.
  destruct (mapM _ (seq 0 (length (data_images store)))) as [e|preds]; reflexivity.
Qed.

Lemma coco_eval_contiguous_ids_witness :
  exists pred : COCOData,
    toy_coco_eval = inr (toy_data, pred) /\
    map ann_image_id (data_annotations pred) = [1; 1; 2; 2].
Proof.
  pose proof (coco_eval_contiguous_ids nat unit unit unit (list N) unit toy_predict
                toy_pixels toy_extract toy_read path_join_slash None None toy_mask
                toy_tensor 0%nat toy_loader eq_refl) as Hrun.
  eexists. split; [exact Hrun|]. vm_compute. reflexivity.
Defined.
